(** * Connection registry and request-scoped message multiplexer

    A shallow embedding of [src/core/ConnectionRegistry.js]: the registry's
    four maps, the WebSocket and queue objects it holds references to, the
    timers it schedules and the suspended grace-period callbacks, together
    with the invariants and the input/output behaviour of its methods.

    Three pure helpers of the code around the registry follow it: the
    identity seed and the context options of [src/core/BrowserManager.js],
    and the numbering of authentication files of
    [scripts/auth/saveAuth.js]. *)

From Stdlib Require Import ZArith String List Bool Lia.
From Stdlib Require QArith_base.
From Stdlib Require Import DecimalString DecimalN.
From stdpp Require Import gmap strings list fin_maps.

Set Warnings "-register-all".

Abbreviation Q := QArith_base.Q (only parsing).
Abbreviation Qmake := QArith_base.Qmake (only parsing).
Abbreviation Qnum := QArith_base.Qnum (only parsing).
Abbreviation Qden := QArith_base.Qden (only parsing).

(** ** JavaScript values *)

(** A JavaScript Number: a finite value (kept as a fraction), NaN or an
    infinity. *)
Inductive JsNumber :=
  | Finite (q : Q)
  | NaN
  | PosInfinity
  | NegInfinity.

(** What [JSON.parse] can return. *)
Inductive Json :=
  | JNull
  | JBool (b : bool)
  | JNumber (n : JsNumber)
  | JString (s : string)
  | JArray (elements : list Json)
  | JObject (fields : list (string * Json)).

(** A property read or a variable: [None] is [undefined]. *)
Abbreviation JsValue := (option Json) (only parsing).

Inductive JsError := Error (message : string).

Definition int_number (z : Z) : JsNumber := Finite (Qmake z 1).

(** [Number.isInteger(n)] *)
Definition Number_isInteger (n : option JsNumber) : bool :=
  match n with
  | Some (Finite q) => (Z.rem (Qnum q) (Z.pos (Qden q)) =? 0)%Z
  | _ => false
  end.

(** [n < 0], with [undefined] converted to NaN first *)
Definition lt_zero (n : option JsNumber) : bool :=
  match n with
  | Some (Finite q) => (Qnum q <? 0)%Z
  | Some NegInfinity => true
  | _ => false
  end.

(** [n === undefined] *)
Definition is_undefined (n : option JsNumber) : bool :=
  match n with None => true | Some _ => false end.

(** The integer a Number stands for, when it is one: the key under which a
    validated [authIndex] is stored in a [Map]. *)
Definition integer_value (n : option JsNumber) : Z :=
  match n with
  | Some (Finite q) => (Qnum q / Z.pos (Qden q))%Z
  | _ => 0%Z
  end.

(** Truthiness of a value, as tested by [!requestId] and [if (queue)]. *)
Definition truthy (v : JsValue) : bool :=
  match v with
  | None => false
  | Some JNull => false
  | Some (JBool b) => b
  | Some (JNumber (Finite q)) => negb (Qnum q =? 0)%Z
  | Some (JNumber NaN) => false
  | Some (JNumber _) => true
  | Some (JString s) => negb (String.eqb s "")
  | Some (JArray _) => true
  | Some (JObject _) => true
  end.

Fixpoint assoc (key : string) (fields : list (string * Json)) : JsValue :=
  match fields with
  | [] => None
  | (k, v) :: rest => if String.eqb k key then Some v else assoc key rest
  end.

(** [value.key] for the keys the registry reads ([request_id],
    [event_type]): reading a property of [null] throws a TypeError; an
    object yields its member or [undefined]; the other values have no such
    property. *)
Definition get_property (value : Json) (key : string) : JsError + JsValue :=
  match value with
  | JNull => inl (Error "Cannot read properties of null")
  | JObject fields => inr (assoc key fields)
  | _ => inr None
  end.

(** ** Objects the registry refers to *)

Abbreviation WsId := nat (only parsing).
Abbreviation QueueId := nat (only parsing).
Abbreviation TimerId := nat (only parsing).

Inductive WsEvent := EvMessage | EvClose | EvError.

Definition ws_event_eqb (a b : WsEvent) : bool :=
  match a, b with
  | EvMessage, EvMessage | EvClose, EvClose | EvError, EvError => true
  | _, _ => false
  end.

(** The three closures [addConnection] attaches to a socket. *)
Inductive Listener :=
  | OnMessage                     (* data => this._handleIncomingMessage(data.toString()) *)
  | OnClose (websocket : WsId)    (* () => this._removeConnection(websocket) *)
  | OnError.                      (* error => this.logger.error(...) *)

(** A WebSocket object, as far as the registry touches it: the stamped
    [_authIndex], its listener table in registration order, and the
    [close(code, reason)] calls it has received.  [closeThrows] is the
    message of the error [close] raises, if it raises. *)
Record WebSocket := mkWebSocket {
  _authIndex : option Z;
  listeners : list (WsEvent * Listener);
  closeCalls : list (option Z * option string);
  closeThrows : option string
}.

Definition fresh_socket : WebSocket :=
  {| _authIndex := None; listeners := []; closeCalls := []; closeThrows := None |}.

(** Modelled from the spec: [utils/MessageQueue] is required by the registry
    but its source is not part of the files at hand.  Section 4.2 gives its
    contract: FIFO; [enqueue] never drops an entry while open; [close] is
    idempotent; after [close], [enqueue] is silently ignored. *)
Record MessageQueue := mkQueue {
  items : list Json;
  closed : bool
}.

Definition new_queue : MessageQueue := {| items := []; closed := false |}.

Definition mq_enqueue (message : Json) (q : MessageQueue) : MessageQueue :=
  if closed q then q else {| items := items q ++ [message]; closed := false |}.

Definition mq_close (q : MessageQueue) : MessageQueue :=
  {| items := items q; closed := true |}.

(** [{ type: "STREAM_END" }] *)
Definition STREAM_END : Json := JObject [("type", JString "STREAM_END")].

(** [browserManager.contexts], as [_removeConnection] reads it (source lines
    119-120): per account, the context data with its page, which may be
    missing or closed. *)
Record Page := mkPage { isClosed : bool }.
Record ContextData := mkContext { page : option Page }.

(** What the recovery callback throws, or what its promise is rejected with.
    The catch clause of the grace-timer callback reads [error.message] from
    it (source line 181).  [undefined] and [null] have no properties, so for
    them the read itself throws a TypeError; for any other value the read is
    taken to yield the text the log line prints: the message of an Error
    object, and the text the template literal makes of a missing property
    for a value without one.  Reasons whose [message] is a getter that
    throws, or cannot be turned into a string, are left out. *)
Inductive Reason :=
  | Undefined
  | Null
  | WithMessage (message : string).

(** [error.message] *)
Definition message_of (reason : Reason) : JsError + string :=
  match reason with
  | Undefined => inl (Error "Cannot read properties of undefined (reading 'message')")
  | Null => inl (Error "Cannot read properties of null (reading 'message')")
  | WithMessage message => inr message
  end.

(** What calling [onConnectionLostCallback(authIndex)] does at once: throw,
    or hand back a value, a promise as a rule, that the race is run on. *)
Inductive CallbackResult := CbThrows (reason : Reason) | CbPromise.

(** How the awaited race ends. *)
Inductive Settlement := Resolved | Rejected (reason : Reason).

(** ** Timers, log lines and observable effects *)

Inductive TimerTask :=
  | GraceExpiry (authIndex : Z)   (* the async callback of _removeConnection *)
  | ReconnectTimeout.             (* () => reject(new Error("Lightweight reconnect timed out")) *)

Record Timer := mkTimer { task : TimerTask; delayMs : Z }.

Inductive Level := LError | LWarn | LInfo | LDebug.

Inductive LogLine :=
  | RejectingInvalidAuthIndex (authIndex : option JsNumber)
  | DuplicateConnection (authIndex : Z)
  | ErrorClosingOldConnection (message : string)
  | GraceTimerCleared (authIndex : Z)
  | ReconnectedCurrentAccount (authIndex : Z) (queueCount : nat)
  | ClientConnected (address : string) (authIndex : Z)
  | ClientDisconnected (authIndex : option Z)
  | PageClosedSkipReconnect (authIndex : Z)
  | StartingGracePeriod (authIndex : Z)
  | GracePeriodEnded (authIndex : Z)
  | NonCurrentKeepQueues (authIndex : Z)
  | AttemptingReconnect (authIndex : Z) (timeoutSeconds : Z)
  | ReconnectCompleted (authIndex : Z)
  | ReconnectFailed (authIndex : Z) (message : string)
  | MissingRequestId
  | UnknownRequestId (requestId : Json)
  | FailedToParse
  | UnknownEventType (event_type : JsValue)
  | ConnectionError (message : string)
  | FoundConnection (authIndex : Z)
  | NoConnectionFound (authIndex : Z) (available : list Z)
  | ClosingConnection (authIndex : Z)
  | ErrorClosingConnection (authIndex : Z) (message : string)
  | NoConnectionToClose (authIndex : Z)
  | ForceClosingQueues (queueCount : nat).

Inductive RegistryEvent :=
  | connectionAdded (websocket : WsId)
  | connectionRemoved (websocket : WsId)
  | connectionLost.

Inductive Effect :=
  | Logged (level : Level) (line : LogLine)
  | Emitted (event : RegistryEvent)
  | CallbackInvoked (authIndex : Z).

(** ** The world: the registry instance and what surrounds it *)

#[projections(primitive)]
Record World := mkWorld {
  (* this.* : the four maps; a Map hands out its keys in insertion order,
     which [connectionKeys] keeps for [connectionsByAuth] *)
  connectionsByAuth : gmap Z WsId;
  connectionKeys : list Z;
  messageQueues : gmap string QueueId;
  reconnectGraceTimers : gmap Z TimerId;
  reconnectingAccounts : gmap Z bool;
  (* this.* : constructor arguments; [getCurrentAuthIndex] holds what the
     accessor returns now, [browserManager] its [contexts] map *)
  onConnectionLostCallback : option (Z -> CallbackResult);
  getCurrentAuthIndex : option Z;
  browserManager : option (gmap Z ContextData);
  (* objects reached through references *)
  sockets : gmap WsId WebSocket;
  queues : gmap QueueId MessageQueue;
  nextQueueId : QueueId;
  (* the event loop: pending timers, and grace callbacks suspended at their
     [await], keyed by the identifier of their reconnect-timeout timer *)
  timers : gmap TimerId Timer;
  nextTimerId : TimerId;
  awaiting : gmap TimerId Z;
  (* what an observer has seen so far, oldest first *)
  trace : list Effect
}.

(** [this.connectionsByAuth.set(authIndex, websocket)]: a key that is new
    goes last, a key that is present keeps its place. *)
Definition connectionsByAuth_set (authIndex : Z) (websocket : WsId) (w : World) : World :=
  mkWorld (<[authIndex := websocket]> (connectionsByAuth w))
    (match connectionsByAuth w !! authIndex with
     | Some _ => connectionKeys w
     | None => connectionKeys w ++ [authIndex]
     end)
    (messageQueues w) (reconnectGraceTimers w)
    (reconnectingAccounts w) (onConnectionLostCallback w) (getCurrentAuthIndex w)
    (browserManager w) (sockets w) (queues w) (nextQueueId w) (timers w)
    (nextTimerId w) (awaiting w) (trace w).

(** [this.connectionsByAuth.delete(authIndex)] *)
Definition connectionsByAuth_delete (authIndex : Z) (w : World) : World :=
  mkWorld (delete authIndex (connectionsByAuth w))
    (List.filter (fun key => negb (key =? authIndex)%Z) (connectionKeys w))
    (messageQueues w) (reconnectGraceTimers w)
    (reconnectingAccounts w) (onConnectionLostCallback w) (getCurrentAuthIndex w)
    (browserManager w) (sockets w) (queues w) (nextQueueId w) (timers w)
    (nextTimerId w) (awaiting w) (trace w).

Definition set_messageQueues (f : gmap string QueueId -> gmap string QueueId) (w : World) : World :=
  mkWorld (connectionsByAuth w) (connectionKeys w) (f (messageQueues w)) (reconnectGraceTimers w)
    (reconnectingAccounts w) (onConnectionLostCallback w) (getCurrentAuthIndex w)
    (browserManager w) (sockets w) (queues w) (nextQueueId w) (timers w)
    (nextTimerId w) (awaiting w) (trace w).

Definition set_reconnectGraceTimers (f : gmap Z TimerId -> gmap Z TimerId) (w : World) : World :=
  mkWorld (connectionsByAuth w) (connectionKeys w) (messageQueues w) (f (reconnectGraceTimers w))
    (reconnectingAccounts w) (onConnectionLostCallback w) (getCurrentAuthIndex w)
    (browserManager w) (sockets w) (queues w) (nextQueueId w) (timers w)
    (nextTimerId w) (awaiting w) (trace w).

Definition set_reconnectingAccounts (f : gmap Z bool -> gmap Z bool) (w : World) : World :=
  mkWorld (connectionsByAuth w) (connectionKeys w) (messageQueues w) (reconnectGraceTimers w)
    (f (reconnectingAccounts w)) (onConnectionLostCallback w) (getCurrentAuthIndex w)
    (browserManager w) (sockets w) (queues w) (nextQueueId w) (timers w)
    (nextTimerId w) (awaiting w) (trace w).

Definition set_getCurrentAuthIndex (v : option Z) (w : World) : World :=
  mkWorld (connectionsByAuth w) (connectionKeys w) (messageQueues w) (reconnectGraceTimers w)
    (reconnectingAccounts w) (onConnectionLostCallback w) v
    (browserManager w) (sockets w) (queues w) (nextQueueId w) (timers w)
    (nextTimerId w) (awaiting w) (trace w).

Definition set_browserManager (v : option (gmap Z ContextData)) (w : World) : World :=
  mkWorld (connectionsByAuth w) (connectionKeys w) (messageQueues w) (reconnectGraceTimers w)
    (reconnectingAccounts w) (onConnectionLostCallback w) (getCurrentAuthIndex w)
    v (sockets w) (queues w) (nextQueueId w) (timers w)
    (nextTimerId w) (awaiting w) (trace w).

Definition set_sockets (f : gmap WsId WebSocket -> gmap WsId WebSocket) (w : World) : World :=
  mkWorld (connectionsByAuth w) (connectionKeys w) (messageQueues w) (reconnectGraceTimers w)
    (reconnectingAccounts w) (onConnectionLostCallback w) (getCurrentAuthIndex w)
    (browserManager w) (f (sockets w)) (queues w) (nextQueueId w) (timers w)
    (nextTimerId w) (awaiting w) (trace w).

Definition set_queues (f : gmap QueueId MessageQueue -> gmap QueueId MessageQueue) (w : World) : World :=
  mkWorld (connectionsByAuth w) (connectionKeys w) (messageQueues w) (reconnectGraceTimers w)
    (reconnectingAccounts w) (onConnectionLostCallback w) (getCurrentAuthIndex w)
    (browserManager w) (sockets w) (f (queues w)) (nextQueueId w) (timers w)
    (nextTimerId w) (awaiting w) (trace w).

Definition set_nextQueueId (n : QueueId) (w : World) : World :=
  mkWorld (connectionsByAuth w) (connectionKeys w) (messageQueues w) (reconnectGraceTimers w)
    (reconnectingAccounts w) (onConnectionLostCallback w) (getCurrentAuthIndex w)
    (browserManager w) (sockets w) (queues w) n (timers w)
    (nextTimerId w) (awaiting w) (trace w).

Definition set_timers (f : gmap TimerId Timer -> gmap TimerId Timer) (w : World) : World :=
  mkWorld (connectionsByAuth w) (connectionKeys w) (messageQueues w) (reconnectGraceTimers w)
    (reconnectingAccounts w) (onConnectionLostCallback w) (getCurrentAuthIndex w)
    (browserManager w) (sockets w) (queues w) (nextQueueId w) (f (timers w))
    (nextTimerId w) (awaiting w) (trace w).

Definition set_nextTimerId (n : TimerId) (w : World) : World :=
  mkWorld (connectionsByAuth w) (connectionKeys w) (messageQueues w) (reconnectGraceTimers w)
    (reconnectingAccounts w) (onConnectionLostCallback w) (getCurrentAuthIndex w)
    (browserManager w) (sockets w) (queues w) (nextQueueId w) (timers w)
    n (awaiting w) (trace w).

Definition set_awaiting (f : gmap TimerId Z -> gmap TimerId Z) (w : World) : World :=
  mkWorld (connectionsByAuth w) (connectionKeys w) (messageQueues w) (reconnectGraceTimers w)
    (reconnectingAccounts w) (onConnectionLostCallback w) (getCurrentAuthIndex w)
    (browserManager w) (sockets w) (queues w) (nextQueueId w) (timers w)
    (nextTimerId w) (f (awaiting w)) (trace w).

Definition add_effect (e : Effect) (w : World) : World :=
  mkWorld (connectionsByAuth w) (connectionKeys w) (messageQueues w) (reconnectGraceTimers w)
    (reconnectingAccounts w) (onConnectionLostCallback w) (getCurrentAuthIndex w)
    (browserManager w) (sockets w) (queues w) (nextQueueId w) (timers w)
    (nextTimerId w) (awaiting w) (trace w ++ [e]).

(** [new ConnectionRegistry(logger, onConnectionLostCallback,
    getCurrentAuthIndex, browserManager)] *)
Definition new_registry (callback : option (Z -> CallbackResult))
    (current : option Z) (manager : option (gmap Z ContextData)) : World :=
  mkWorld ∅ [] ∅ ∅ ∅ callback current manager ∅ ∅ 0 ∅ 0 ∅ [].

(** The socket and queue objects behind an identity; one the registry has
    not touched yet is as its creator left it. *)
Abbreviation socket id w := (default fresh_socket (sockets w !! id)).

Abbreviation queue id w := (default new_queue (queues w !! id)).

(** ** Sequencing with exceptions

    A method threads the world through its statements and either completes
    normally or throws; what it did before throwing stays done. *)

Inductive Completion (A : Type) :=
  | Normal (a : A)
  | Thrown (e : JsError).
Arguments Normal {A} a.
Arguments Thrown {A} e.

Definition JS (A : Type) : Type := World -> World * Completion A.

Definition ret {A} (a : A) : JS A := fun w => (w, Normal a).

Definition bind {A B} (m : JS A) (k : A -> JS B) : JS B :=
  fun w =>
    match m w with
    | (w', Normal a) => k a w'
    | (w', Thrown e) => (w', Thrown e)
    end.

Definition throw {A} (e : JsError) : JS A := fun w => (w, Thrown e).

(** [try { m } catch (e) { handler e }] *)
Definition try_catch {A} (m : JS A) (handler : JsError -> JS A) : JS A :=
  fun w =>
    match m w with
    | (w', Normal a) => (w', Normal a)
    | (w', Thrown e) => handler e w'
    end.

(** [try { m } finally { cleanup }]: the cleanup runs either way, and the
    completion of [m] stands unless the cleanup throws. *)
Definition try_finally {A} (m : JS A) (cleanup : JS unit) : JS A :=
  fun w =>
    match m w with
    | (w', completion) =>
        match cleanup w' with
        | (w'', Normal _) => (w'', completion)
        | (w'', Thrown e) => (w'', Thrown e)
        end
    end.

Definition gets {A} (f : World -> A) : JS A := fun w => (w, Normal (f w)).

Definition modify (f : World -> World) : JS unit := fun w => (f w, Normal tt).

(** The world a method leaves behind. *)
Definition exec {A} (m : JS A) (w : World) : World := fst (m w).

Declare Scope js_scope.
Delimit Scope js_scope with js.
Bind Scope js_scope with JS.
Notation "'let*' x ':=' m 'in' k" := (bind m (fun x => k))
  (at level 10, x name, m at level 100, k at level 200) : js_scope.
Notation "m '>>>' k" := (bind m (fun _ => k))
  (at level 100, k at level 200, right associativity) : js_scope.

Local Open Scope js_scope.

(** ** Primitives *)

Definition log (level : Level) (line : LogLine) : JS unit :=
  modify (add_effect (Logged level line)).

(** [this.emit(event)] on the registry itself *)
Definition emit (event : RegistryEvent) : JS unit :=
  modify (add_effect (Emitted event)).

Definition update_socket (id : WsId) (f : WebSocket -> WebSocket) : JS unit :=
  modify (fun w => set_sockets <[id := f (socket id w)]> w).

(** [websocket.close(code, reason)]: the call is recorded on the socket
    whether or not it raises. *)
Definition ws_close (id : WsId) (code : option Z) (reason : option string) : JS unit :=
  let* raises := gets (fun w => closeThrows (socket id w)) in
  update_socket id (fun s =>
    mkWebSocket (_authIndex s) (listeners s) (closeCalls s ++ [(code, reason)]) (closeThrows s)) >>>
  match raises with
  | Some message => throw (Error message)
  | None => ret tt
  end.

(** [websocket.removeAllListeners()] *)
Definition ws_removeAllListeners (id : WsId) : JS unit :=
  update_socket id (fun s => mkWebSocket (_authIndex s) [] (closeCalls s) (closeThrows s)).

(** [websocket.on(event, listener)] *)
Definition ws_on (id : WsId) (event : WsEvent) (l : Listener) : JS unit :=
  update_socket id (fun s =>
    mkWebSocket (_authIndex s) (listeners s ++ [(event, l)]) (closeCalls s) (closeThrows s)).

(** [websocket._authIndex = authIndex] *)
Definition ws_stamp (id : WsId) (authIndex : Z) : JS unit :=
  update_socket id (fun s =>
    mkWebSocket (Some authIndex) (listeners s) (closeCalls s) (closeThrows s)).

Definition update_queue (id : QueueId) (f : MessageQueue -> MessageQueue) : JS unit :=
  modify (fun w => set_queues <[id := f (queue id w)]> w).

(** [queue.enqueue(message)] and [queue.close()] *)
Definition queue_enqueue (id : QueueId) (message : Json) : JS unit :=
  update_queue id (mq_enqueue message).

Definition queue_close (id : QueueId) : JS unit := update_queue id mq_close.

(** [setTimeout(task, ms)] and [clearTimeout(id)] *)
Definition setTimeout (t : TimerTask) (ms : Z) : JS TimerId :=
  fun w =>
    let id := nextTimerId w in
    (set_nextTimerId (S id) (set_timers <[id := mkTimer t ms]> w), Normal id).

Definition clearTimeout (id : TimerId) : JS unit := modify (set_timers (delete id)).

(** [this.getCurrentAuthIndex ? this.getCurrentAuthIndex() : -1] *)
Definition currentAuthIndex : JS Z :=
  gets (fun w => default (-1)%Z (getCurrentAuthIndex w)).

Fixpoint for_each {A} (f : A -> JS unit) (l : list A) : JS unit :=
  match l with
  | [] => ret tt
  | x :: rest => f x >>> for_each f rest
  end.

(** ** The registry's methods *)

(** [clientInfo]: an [authIndex] that is [undefined] or some Number, and the
    address that goes into the log. *)
Record ClientInfo := mkClientInfo {
  authIndex : option JsNumber;
  address : string
}.

(** [closeAllMessageQueues()] (source lines 305-317) *)
Definition closeAllMessageQueues : JS unit :=
  let* count := gets (fun w => size (messageQueues w)) in
  if (0 <? count)%nat then
    log LInfo (ForceClosingQueues count) >>>
    let* all := gets (fun w => (map_to_list (messageQueues w)).*2) in
    for_each (fun q => try_catch (queue_close q) (fun _ => ret tt)) all >>>
    modify (set_messageQueues (fun _ => ∅))
  else ret tt.

(** [createMessageQueue(requestId)] *)
Definition createMessageQueue (requestId : string) : JS QueueId :=
  let* q := gets (fun w => nextQueueId w) in
  modify (fun w => set_nextQueueId (S q) (set_queues <[q := new_queue]> w)) >>>
  modify (set_messageQueues <[requestId := q]>) >>>
  ret q.

(** [removeMessageQueue(requestId)] *)
Definition removeMessageQueue (requestId : string) : JS unit :=
  let* found := gets (fun w => messageQueues w !! requestId) in
  match found with
  | Some q => queue_close q >>> modify (set_messageQueues (delete requestId))
  | None => ret tt
  end.

(** [addConnection(websocket, clientInfo)] (source lines 36-100) *)
Definition addConnection (websocket : WsId) (clientInfo : ClientInfo) : JS unit :=
  let authIndex := authIndex clientInfo in
  if is_undefined authIndex || lt_zero authIndex || negb (Number_isInteger authIndex) then
    log LError (RejectingInvalidAuthIndex authIndex) >>>
    try_catch (ws_close websocket (Some 1008%Z) (Some "Invalid authIndex"))
              (fun _ => ret tt)
  else
    let authIndex := integer_value authIndex in
    (* an older connection for the same account is closed first *)
    let* existingConnection := gets (fun w => connectionsByAuth w !! authIndex) in
    match existingConnection with
    | Some existing =>
        if negb (existing =? websocket)%nat then
          log LWarn (DuplicateConnection authIndex) >>>
          try_catch
            (ws_removeAllListeners existing >>>
             ws_close existing (Some 1000%Z) (Some "Replaced by new connection"))
            (fun e => let 'Error message := e in
                      log LWarn (ErrorClosingOldConnection message))
        else ret tt
    | None => ret tt
    end >>>
    (* the grace timer of this account is cleared *)
    let* graceTimer := gets (fun w => reconnectGraceTimers w !! authIndex) in
    match graceTimer with
    | Some timerId =>
        clearTimeout timerId >>>
        modify (set_reconnectGraceTimers (delete authIndex)) >>>
        log LInfo (GraceTimerCleared authIndex) >>>
        let* current := currentAuthIndex in
        let* count := gets (fun w => size (messageQueues w)) in
        if (authIndex =? current)%Z && (0 <? count)%nat then
          log LInfo (ReconnectedCurrentAccount authIndex count) >>>
          closeAllMessageQueues
        else ret tt
    | None => ret tt
    end >>>
    (* the connection is stored, stamped and wired *)
    modify (connectionsByAuth_set authIndex websocket) >>>
    log LInfo (ClientConnected (address clientInfo) authIndex) >>>
    ws_stamp websocket authIndex >>>
    ws_on websocket EvMessage OnMessage >>>
    ws_on websocket EvClose (OnClose websocket) >>>
    ws_on websocket EvError OnError >>>
    emit (connectionAdded websocket).

(** The tail shared by every way out of the grace-timer callback
    (source lines 191-193). *)
Definition graceTimerEpilogue (disconnectedAuthIndex : Z) : JS unit :=
  emit connectionLost >>>
  modify (set_reconnectGraceTimers (delete disconnectedAuthIndex)).

(** [this.onConnectionLostCallback(authIndex)]: the call is observed, and
    either throws at once or returns.  Whatever the callback does to the
    registry it does through tasks of its own in the event loop. *)
Definition invokeCallback (callback : Z -> CallbackResult) (authIndex : Z) :
    JS CallbackResult :=
  modify (add_effect (CallbackInvoked authIndex)) >>>
  ret (callback authIndex).

Definition lightweightReconnectTimeoutMs : Z := 55000.

(** The [catch] clause (source lines 179-182): the log line is built from
    [error.message], and building it throws when the reason has none. *)
Definition recoveryCatch (disconnectedAuthIndex : Z) (error : Reason) : JS unit :=
  match message_of error with
  | inl typeError => throw typeError
  | inr message => log LError (ReconnectFailed disconnectedAuthIndex message)
  end.

(** The [finally] clause (source lines 183-188); [timeoutId] is still
    [undefined] when the callback threw before the timeout was started. *)
Definition recoveryFinally (timeoutId : option TimerId) (disconnectedAuthIndex : Z) : JS unit :=
  match timeoutId with
  | Some timeoutId => clearTimeout timeoutId
  | None => ret tt
  end >>>
  modify (set_reconnectingAccounts (delete disconnectedAuthIndex)).

(** The async callback handed to [setTimeout] in [_removeConnection], from
    its start to its [await] (source lines 140-175), or to its end (line 194)
    when it does not get there.  When the recovery callback is called and
    returns, the function suspends, keyed by the identifier of the timeout
    timer it has just started. *)
Definition graceTimerCallback (disconnectedAuthIndex : Z) : JS unit :=
  log LInfo (GracePeriodEnded disconnectedAuthIndex) >>>
  let* currentAuthIndex := currentAuthIndex in
  let isCurrentAccount := (disconnectedAuthIndex =? currentAuthIndex)%Z in
  (if isCurrentAccount then closeAllMessageQueues
   else log LInfo (NonCurrentKeepQueues disconnectedAuthIndex)) >>>
  let* isAccountReconnecting :=
    gets (fun w => default false (reconnectingAccounts w !! disconnectedAuthIndex)) in
  let* callback := gets (fun w => onConnectionLostCallback w) in
  match callback with
  | Some callback =>
      if negb isAccountReconnecting then
        modify (set_reconnectingAccounts <[disconnectedAuthIndex := true]>) >>>
        log LInfo (AttemptingReconnect disconnectedAuthIndex
                     (lightweightReconnectTimeoutMs / 1000)) >>>
        let* called := invokeCallback callback disconnectedAuthIndex in
        match called with
        | CbThrows error =>
            (* the try block ends here: catch, then finally *)
            try_finally (recoveryCatch disconnectedAuthIndex error)
                        (recoveryFinally None disconnectedAuthIndex) >>>
            graceTimerEpilogue disconnectedAuthIndex
        | CbPromise =>
            let* timeoutId := setTimeout ReconnectTimeout lightweightReconnectTimeoutMs in
            (* await Promise.race([callbackPromise, timeoutPromise]) *)
            modify (set_awaiting <[timeoutId := disconnectedAuthIndex]>)
        end
      else graceTimerEpilogue disconnectedAuthIndex
  | None => graceTimerEpilogue disconnectedAuthIndex
  end.

(** The same callback from its [await] to its end (source lines 175-193),
    once the race has settled. *)
Definition graceTimerResume (timeoutId : TimerId) (how : Settlement) : JS unit :=
  let* suspended := gets (fun w => awaiting w !! timeoutId) in
  match suspended with
  | None => ret tt
  | Some disconnectedAuthIndex =>
      modify (set_awaiting (delete timeoutId)) >>>
      try_finally
        (match how with
         | Resolved => log LInfo (ReconnectCompleted disconnectedAuthIndex)
         | Rejected error => recoveryCatch disconnectedAuthIndex error
         end)
        (recoveryFinally (Some timeoutId) disconnectedAuthIndex) >>>
      graceTimerEpilogue disconnectedAuthIndex
  end.

(** What [browserManager.contexts] says about the page of an account:
    [!contextData || !contextData.page || contextData.page.isClosed()] *)
Definition page_gone (contexts : gmap Z ContextData) (authIndex : Z) : bool :=
  match contexts !! authIndex with
  | None => true
  | Some contextData =>
      match page contextData with
      | None => true
      | Some p => isClosed p
      end
  end.

Definition gracePeriodMs : Z := 5000.

(** [_removeConnection(websocket)] (source lines 102-201) *)
Definition _removeConnection (websocket : WsId) : JS unit :=
  let* disconnectedAuthIndex := gets (fun w => _authIndex (socket websocket w)) in
  match disconnectedAuthIndex with
  | Some disconnectedAuthIndex =>
      if (0 <=? disconnectedAuthIndex)%Z then
        modify (connectionsByAuth_delete disconnectedAuthIndex) >>>
        log LInfo (ClientDisconnected (Some disconnectedAuthIndex)) >>>
        let* manager := gets (fun w => browserManager w) in
        if match manager with
           | Some contexts => page_gone contexts disconnectedAuthIndex
           | None => false
           end
        then
          log LInfo (PageClosedSkipReconnect disconnectedAuthIndex) >>>
          let* graceTimer := gets (fun w => reconnectGraceTimers w !! disconnectedAuthIndex) in
          match graceTimer with
          | Some timerId =>
              clearTimeout timerId >>>
              modify (set_reconnectGraceTimers (delete disconnectedAuthIndex))
          | None => ret tt
          end >>>
          emit (connectionRemoved websocket)
        else
          let* graceTimer := gets (fun w => reconnectGraceTimers w !! disconnectedAuthIndex) in
          match graceTimer with
          | Some timerId => clearTimeout timerId
          | None => ret tt
          end >>>
          log LInfo (StartingGracePeriod disconnectedAuthIndex) >>>
          let* graceTimerId := setTimeout (GraceExpiry disconnectedAuthIndex) gracePeriodMs in
          modify (set_reconnectGraceTimers <[disconnectedAuthIndex := graceTimerId]>) >>>
          emit (connectionRemoved websocket)
      else
        log LInfo (ClientDisconnected None) >>>
        emit (connectionRemoved websocket)
  | None =>
      log LInfo (ClientDisconnected None) >>>
      emit (connectionRemoved websocket)
  end.

(** [_routeMessage(message, queue)] (source lines 222-236); the [switch]
    compares [event_type] to string literals with [===]. *)
Definition _routeMessage (message : Json) (q : QueueId) : JS unit :=
  match get_property message "event_type" with
  | inl e => throw e
  | inr event_type =>
      match event_type with
      | Some (JString kind) =>
          if String.eqb kind "response_headers" || String.eqb kind "chunk"
             || String.eqb kind "error"
          then queue_enqueue q message
          else if String.eqb kind "stream_close"
          then queue_enqueue q STREAM_END
          else log LWarn (UnknownEventType event_type)
      | _ => log LWarn (UnknownEventType event_type)
      end
  end.

(** [this.messageQueues.get(requestId)]: queues are registered under
    strings, so a key of another type finds nothing. *)
Definition lookup_queue (requestId : Json) (w : World) : option QueueId :=
  match requestId with
  | JString s => messageQueues w !! s
  | _ => None
  end.

(** [isReconnectingInProgress()] and [isInGracePeriod()] *)
Definition isReconnectingInProgress (w : World) : bool :=
  (0 <? size (reconnectingAccounts w))%nat.

Definition isInGracePeriod (w : World) : bool :=
  let currentAuthIndex := default (-1)%Z (getCurrentAuthIndex w) in
  (0 <=? currentAuthIndex)%Z && bool_decide (is_Some (reconnectGraceTimers w !! currentAuthIndex)).

(** [getConnectionByAuth(authIndex)] *)
Definition getConnectionByAuth (authIndex : Z) : JS (option WsId) :=
  let* connection := gets (fun w => connectionsByAuth w !! authIndex) in
  match connection with
  | Some _ => log LDebug (FoundConnection authIndex)
  | None =>
      (* Array.from(this.connectionsByAuth.keys()) *)
      let* available := gets (fun w => connectionKeys w) in
      log LDebug (NoConnectionFound authIndex available)
  end >>>
  ret connection.

(** [closeConnectionByAuth(authIndex)] (source lines 265-285) *)
Definition closeConnectionByAuth (authIndex : Z) : JS unit :=
  let* connection := gets (fun w => connectionsByAuth w !! authIndex) in
  match connection with
  | Some connection =>
      log LInfo (ClosingConnection authIndex) >>>
      try_catch (ws_close connection None None)
        (fun e => let 'Error message := e in
                  log LWarn (ErrorClosingConnection authIndex message)) >>>
      modify (connectionsByAuth_delete authIndex) >>>
      let* graceTimer := gets (fun w => reconnectGraceTimers w !! authIndex) in
      match graceTimer with
      | Some timerId =>
          clearTimeout timerId >>>
          modify (set_reconnectGraceTimers (delete authIndex))
      | None => ret tt
      end
  | None => log LDebug (NoConnectionToClose authIndex)
  end.

Section WithParser.

(** [JSON.parse]: [None] when it throws a SyntaxError. *)
Variable JSON_parse : string -> option Json.

(** [_handleIncomingMessage(messageData)] (source lines 203-220) *)
Definition _handleIncomingMessage (messageData : string) : JS unit :=
  try_catch
    (match JSON_parse messageData with
     | None => throw (Error "Unexpected token in JSON")
     | Some parsedMessage =>
         match get_property parsedMessage "request_id" with
         | inl e => throw e
         | inr requestId =>
             if negb (truthy requestId) then log LWarn MissingRequestId
             else
               let requestId := default JNull requestId in
               let* found := gets (lookup_queue requestId) in
               match found with
               | Some q => _routeMessage parsedMessage q
               | None => log LWarn (UnknownRequestId requestId)
               end
         end
     end)
    (fun _ => log LError FailedToParse).

(** A listener runs with the payload of the event. *)
Definition run_listener (payload : string) (l : Listener) : JS unit :=
  match l with
  | OnMessage => _handleIncomingMessage payload
  | OnClose websocket => _removeConnection websocket
  | OnError => log LError (ConnectionError payload)
  end.

(** [websocket.emit(event, payload)]: the listeners registered for the
    event, in registration order. *)
Fixpoint listeners_for (event : WsEvent) (table : list (WsEvent * Listener)) : list Listener :=
  match table with
  | [] => []
  | (e, l) :: rest =>
      if ws_event_eqb e event then l :: listeners_for event rest
      else listeners_for event rest
  end.

(** An [error] event that no listener is registered for. *)
Definition unheard_error (event : WsEvent) (registered : list Listener) : bool :=
  match event, registered with
  | EvError, [] => true
  | _, _ => false
  end.

(** The emitter of Node runs the listeners of the event one after the other;
    an [error] event without a listener it throws instead, the payload being
    the error. *)
Definition ws_emit (websocket : WsId) (event : WsEvent) (payload : string) : JS unit :=
  let* registered := gets (fun w => listeners_for event (listeners (socket websocket w))) in
  if unheard_error event registered then throw (Error payload)
  else for_each (run_listener payload) registered.

(** ** The event loop

    Everything that can happen to the registry, one task at a time: calls
    from the acceptor and the request layer, events of the sockets, timers
    that fire, the recovery promise settling, and the surroundings
    changing. *)

Inductive Task :=
  | Accept (websocket : WsId) (clientInfo : ClientInfo)
  | SocketEmits (websocket : WsId) (event : WsEvent) (payload : string)
  | CloseByAuth (authIndex : Z)
  | LookupByAuth (authIndex : Z)
  | CreateQueue (requestId : string)
  | RemoveQueue (requestId : string)
  | CloseAllQueues
  | TimerFires (id : TimerId)
  | CallbackSettles (id : TimerId) (how : Settlement)
  | CurrentBecomes (authIndex : Z)
  | ContextsBecome (contexts : gmap Z ContextData).

(** A pending timer that fires leaves the timer table and runs its task. *)
Definition fire (id : TimerId) : JS unit :=
  let* pending := gets (fun w => timers w !! id) in
  match pending with
  | None => ret tt
  | Some timer =>
      clearTimeout id >>>
      match task timer with
      | GraceExpiry disconnectedAuthIndex => graceTimerCallback disconnectedAuthIndex
      | ReconnectTimeout =>
          graceTimerResume id (Rejected (WithMessage "Lightweight reconnect timed out"))
      end
  end.

Definition step (t : Task) : JS unit :=
  match t with
  | Accept websocket clientInfo => addConnection websocket clientInfo
  | SocketEmits websocket event payload => ws_emit websocket event payload
  | CloseByAuth authIndex => closeConnectionByAuth authIndex
  | LookupByAuth authIndex => getConnectionByAuth authIndex >>> ret tt
  | CreateQueue requestId => createMessageQueue requestId >>> ret tt
  | RemoveQueue requestId => removeMessageQueue requestId
  | CloseAllQueues => closeAllMessageQueues
  | TimerFires id => fire id
  | CallbackSettles id how => graceTimerResume id how
  | CurrentBecomes authIndex =>
      modify (fun w => match getCurrentAuthIndex w with
                       | Some _ => set_getCurrentAuthIndex (Some authIndex) w
                       | None => w
                       end)
  | ContextsBecome contexts =>
      modify (fun w => match browserManager w with
                       | Some _ => set_browserManager (Some contexts) w
                       | None => w
                       end)
  end.

Fixpoint run (tasks : list Task) (w : World) : World :=
  match tasks with
  | [] => w
  | t :: rest => run rest (exec (step t) w)
  end.

(** The worlds the registry can be in.  A task that ends by an exception
    leaves the world as it was when the exception was thrown; whether the
    process goes on after that is up to its handlers, so the worlds that
    follow count as reachable too. *)
Inductive reachable : World -> Prop :=
  | reachable_new callback current manager :
      reachable (new_registry callback current manager)
  | reachable_step w t :
      reachable w -> reachable (exec (step t) w).

End WithParser.

(** * Notions the statements and proofs use

    The worlds the methods leave, in closed form; what the specification
    says, in its words; the part of the world the reconnect state machine
    lives in, with its invariant; and concrete inputs. *)

(** ** Validation and routing *)

(** The guard of [addConnection]: [undefined], negative, or not an integer. *)
Definition invalid_authIndex (n : option JsNumber) : Prop :=
  n = None \/ lt_zero n = true \/ Number_isInteger n = false.

(** The event kind of a frame, when it is a string. *)
Definition event_kind (frame : Json) : option string :=
  match get_property frame "event_type" with
  | inr (Some (JString kind)) => Some kind
  | _ => None
  end.

(** Routing as section 4.2 of the specification words it: what a frame
    contributes to the queue of its request.  A headers, chunk or error frame
    is delivered verbatim, a stream-close frame becomes the end-of-stream
    marker, any other frame contributes nothing. *)
Definition spec_delivery (frame : Json) : list Json :=
  match event_kind frame with
  | Some kind =>
      if String.eqb kind "response_headers" then [frame]
      else if String.eqb kind "chunk" then [frame]
      else if String.eqb kind "error" then [frame]
      else if String.eqb kind "stream_close" then [STREAM_END]
      else []
  | None => []
  end.

(** The warning the same frame leaves in the log, if any. *)
Definition spec_warning (frame : Json) : list Effect :=
  match get_property frame "event_type", spec_delivery frame with
  | inr event_type, [] => [Logged LWarn (UnknownEventType event_type)]
  | _, _ => []
  end.

(** [enqueue] for each delivered item, first to last. *)
Definition enqueue_all (delivered : list Json) (q : MessageQueue) : MessageQueue :=
  fold_left (fun acc item => mq_enqueue item acc) delivered q.

(** The effect of [_routeMessage] on the world, in closed form. *)
Definition routed (frame : Json) (q : QueueId) (w : World) : World :=
  match spec_delivery frame with
  | [] =>
      match get_property frame "event_type" with
      | inr event_type => add_effect (Logged LWarn (UnknownEventType event_type)) w
      | inl _ => w
      end
  | delivered => set_queues <[q := enqueue_all delivered (queue q w)]> w
  end.

(** Routing leaves everything but the queue objects and the log alone. *)
Definition same_registry (w w' : World) : Prop :=
  connectionsByAuth w' = connectionsByAuth w
  /\ messageQueues w' = messageQueues w
  /\ reconnectGraceTimers w' = reconnectGraceTimers w
  /\ reconnectingAccounts w' = reconnectingAccounts w
  /\ timers w' = timers w
  /\ nextTimerId w' = nextTimerId w
  /\ awaiting w' = awaiting w
  /\ sockets w' = sockets w
  /\ nextQueueId w' = nextQueueId w
  /\ onConnectionLostCallback w' = onConnectionLostCallback w
  /\ getCurrentAuthIndex w' = getCurrentAuthIndex w
  /\ browserManager w' = browserManager w.

(** What [spec_delivery] and [spec_warning] give for each event kind. *)
Definition delivery_cases (frame : Json) : Prop :=
  (event_kind frame = Some "response_headers"
   \/ event_kind frame = Some "chunk"
   \/ event_kind frame = Some "error" -> spec_delivery frame = [frame])
  /\ (event_kind frame = Some "stream_close" ->
      spec_delivery frame = [STREAM_END] /\ STREAM_END <> frame)
  /\ (event_kind frame <> Some "response_headers" ->
      event_kind frame <> Some "chunk" ->
      event_kind frame <> Some "error" ->
      event_kind frame <> Some "stream_close" ->
      spec_delivery frame = []
      /\ exists kind, spec_warning frame = [Logged LWarn (UnknownEventType kind)]).

(** The frames of one request: each parses and names [requestId]. *)
Definition frames_of (JSON_parse : string -> option Json) (requestId : string)
    (raw : list string) (frames : list Json) : Prop :=
  Forall2 (fun messageData frame =>
             JSON_parse messageData = Some frame
             /\ get_property frame "request_id" = inr (Some (JString requestId)))
          raw frames.

(** ** Force-closing the queues *)

(** [queue.close()] on one queue object, and on each of a list in turn. *)
Definition close_one (heap : gmap QueueId MessageQueue) (q : QueueId) :
    gmap QueueId MessageQueue :=
  <[q := mq_close (default new_queue (heap !! q))]> heap.

Definition close_each (ids : list QueueId) (heap : gmap QueueId MessageQueue) :
    gmap QueueId MessageQueue :=
  fold_left close_one ids heap.

(** The world [closeAllMessageQueues] leaves, in closed form. *)
Definition closed_all (w : World) : World :=
  if (0 <? size (messageQueues w))%nat then
    set_messageQueues (fun _ => ∅)
      (set_queues (close_each (map_to_list (messageQueues w)).*2)
         (add_effect (Logged LInfo (ForceClosingQueues (size (messageQueues w)))) w))
  else w.

(** What [closeAllMessageQueues] leaves alone. *)
Definition same_connections (w w' : World) : Prop :=
  connectionsByAuth w' = connectionsByAuth w
  /\ reconnectGraceTimers w' = reconnectGraceTimers w
  /\ reconnectingAccounts w' = reconnectingAccounts w
  /\ timers w' = timers w
  /\ nextTimerId w' = nextTimerId w
  /\ awaiting w' = awaiting w
  /\ sockets w' = sockets w
  /\ nextQueueId w' = nextQueueId w
  /\ onConnectionLostCallback w' = onConnectionLostCallback w
  /\ getCurrentAuthIndex w' = getCurrentAuthIndex w
  /\ browserManager w' = browserManager w.

(** ** [addConnection] with a valid [authIndex], statement by statement *)

(** Source lines 52-65: an older, different connection is detached and
    closed. *)
Definition closeExisting (websocket : WsId) (authIndex : Z) : JS unit :=
  let* existingConnection := gets (fun w => connectionsByAuth w !! authIndex) in
  match existingConnection with
  | Some existing =>
      if negb (existing =? websocket)%nat then
        log LWarn (DuplicateConnection authIndex) >>>
        try_catch
          (ws_removeAllListeners existing >>>
           ws_close existing (Some 1000%Z) (Some "Replaced by new connection"))
          (fun e => let 'Error message := e in
                    log LWarn (ErrorClosingOldConnection message))
      else ret tt
  | None => ret tt
  end.

(** Source lines 67-83: the grace timer of the account is cleared. *)
Definition clearGraceTimer (authIndex : Z) : JS unit :=
  let* graceTimer := gets (fun w => reconnectGraceTimers w !! authIndex) in
  match graceTimer with
  | Some timerId =>
      clearTimeout timerId >>>
      modify (set_reconnectGraceTimers (delete authIndex)) >>>
      log LInfo (GraceTimerCleared authIndex) >>>
      let* current := currentAuthIndex in
      let* count := gets (fun w => size (messageQueues w)) in
      if (authIndex =? current)%Z && (0 <? count)%nat then
        log LInfo (ReconnectedCurrentAccount authIndex count) >>>
        closeAllMessageQueues
      else ret tt
  | None => ret tt
  end.

(** Source lines 85-99: the connection is stored, stamped and wired. *)
Definition storeConnection (websocket : WsId) (authIndex : Z) (address : string) : JS unit :=
  modify (connectionsByAuth_set authIndex websocket) >>>
  log LInfo (ClientConnected address authIndex) >>>
  ws_stamp websocket authIndex >>>
  ws_on websocket EvMessage OnMessage >>>
  ws_on websocket EvClose (OnClose websocket) >>>
  ws_on websocket EvError OnError >>>
  emit (connectionAdded websocket).

(** The worlds these three leave: after [closeExisting], after
    [clearGraceTimer], after [storeConnection]. *)
Definition existing_closed (websocket : WsId) (authIndex : Z) (w : World) : World :=
  match connectionsByAuth w !! authIndex with
  | Some existing =>
      if negb (existing =? websocket)%nat then
        let old := socket existing w in
        let detached :=
          set_sockets
            <[existing := mkWebSocket (_authIndex old) []
                            (closeCalls old ++ [(Some 1000%Z, Some "Replaced by new connection")])
                            (closeThrows old)]>
            (set_sockets <[existing := mkWebSocket (_authIndex old) [] (closeCalls old)
                                         (closeThrows old)]>
               (add_effect (Logged LWarn (DuplicateConnection authIndex)) w)) in
        match closeThrows old with
        | Some message => add_effect (Logged LWarn (ErrorClosingOldConnection message)) detached
        | None => detached
        end
      else w
  | None => w
  end.

Definition grace_cleared (authIndex : Z) (w : World) : World :=
  match reconnectGraceTimers w !! authIndex with
  | Some timerId =>
      let cleared :=
        add_effect (Logged LInfo (GraceTimerCleared authIndex))
          (set_reconnectGraceTimers (delete authIndex) (set_timers (delete timerId) w)) in
      if (authIndex =? default (-1)%Z (getCurrentAuthIndex w))%Z
         && (0 <? size (messageQueues w))%nat
      then
        closed_all
          (add_effect
             (Logged LInfo (ReconnectedCurrentAccount authIndex (size (messageQueues w))))
             cleared)
      else cleared
  | None => w
  end.

Definition wired (websocket : WsId) (authIndex : Z) (s : WebSocket) : WebSocket :=
  mkWebSocket (Some authIndex)
    (listeners s ++ [(EvMessage, OnMessage); (EvClose, OnClose websocket); (EvError, OnError)])
    (closeCalls s) (closeThrows s).

Definition connection_stored (websocket : WsId) (authIndex : Z) (address : string)
    (w : World) : World :=
  add_effect (Emitted (connectionAdded websocket))
    (set_sockets <[websocket := wired websocket authIndex (socket websocket w)]>
       (add_effect (Logged LInfo (ClientConnected address authIndex))
          (connectionsByAuth_set authIndex websocket w))).

(** The guard of [addConnection] is passed. *)
Definition valid_authIndex (n : option JsNumber) : Prop :=
  is_undefined n || lt_zero n || negb (Number_isInteger n) = false.

(** The world [addConnection] then leaves: the three steps in sequence. *)
Definition connected (websocket : WsId) (clientInfo : ClientInfo) (w : World) : World :=
  let a := integer_value (authIndex clientInfo) in
  connection_stored websocket a (address clientInfo)
    (grace_cleared a (existing_closed websocket a w)).

(** A series of [addConnection] calls, in order. *)
Definition register_all (calls : list (WsId * ClientInfo)) (w : World) : World :=
  fold_left (fun w0 call => exec (addConnection call.1 call.2) w0) calls w.

(** The listeners one registration attaches. *)
Definition handlers (websocket : WsId) : list (WsEvent * Listener) :=
  [(EvMessage, OnMessage); (EvClose, OnClose websocket); (EvError, OnError)].

(** [m] run [n] times in a row. *)
Definition times (n : nat) (m : JS unit) : JS unit :=
  for_each (fun _ : unit => m) (repeat tt n).

(** ** Inputs for examples *)

(** The client info of a local connection for an account, and a parser that
    rejects everything. *)
Definition client (authIndex : Z) : ClientInfo :=
  mkClientInfo (Some (int_number authIndex)) "127.0.0.1".

Definition no_parser : string -> option Json := fun _ => None.

(** ** Queues at registration *)

(** C7 as the specification words it: any registration of the current
    account while queues exist closes every queue. *)
Definition C7_as_stated : Prop :=
  forall (websocket : WsId) (clientInfo : ClientInfo) (w : World),
    valid_authIndex (authIndex clientInfo) ->
    getCurrentAuthIndex w = Some (integer_value (authIndex clientInfo)) ->
    (0 < size (messageQueues w))%nat ->
    forall requestId q,
      messageQueues w !! requestId = Some q ->
      closed (queue q (exec (addConnection websocket clientInfo) w)) = true.

(** ** Teardown and the grace timer, in closed form *)

(** Source lines 141-156: the queues, once the grace period has ended. *)
Definition queues_settled (disconnectedAuthIndex : Z) (w : World) : World :=
  let w1 := add_effect (Logged LInfo (GracePeriodEnded disconnectedAuthIndex)) w in
  if (disconnectedAuthIndex =? default (-1)%Z (getCurrentAuthIndex w))%Z
  then closed_all w1
  else add_effect (Logged LInfo (NonCurrentKeepQueues disconnectedAuthIndex)) w1.

(** Source lines 191-193. *)
Definition lost_finalized (disconnectedAuthIndex : Z) (w : World) : World :=
  set_reconnectGraceTimers (delete disconnectedAuthIndex)
    (add_effect (Emitted connectionLost) w).

(** Source lines 161-168: the flag is set, then the callback is called. *)
Definition marked_reconnecting (disconnectedAuthIndex : Z) (w : World) : World :=
  add_effect
    (Logged LInfo (AttemptingReconnect disconnectedAuthIndex
                     (lightweightReconnectTimeoutMs / 1000)))
    (set_reconnectingAccounts <[disconnectedAuthIndex := true]> w).

(** Source line 168: the callback has been called. *)
Definition recovery_called (disconnectedAuthIndex : Z) (w : World) : World :=
  add_effect (CallbackInvoked disconnectedAuthIndex)
    (marked_reconnecting disconnectedAuthIndex w).

(** Source lines 169-175: the timeout timer is started and the function
    suspends at its [await]. *)
Definition recovery_suspended (disconnectedAuthIndex : Z) (w : World) : World :=
  set_awaiting <[nextTimerId w := disconnectedAuthIndex]>
    (set_nextTimerId (S (nextTimerId w))
       (set_timers <[nextTimerId w := mkTimer ReconnectTimeout lightweightReconnectTimeoutMs]> w)).

(** [undefined] and [null], the reasons the catch clause fails on. *)
Definition nullish (reason : Reason) : bool :=
  match reason with
  | Undefined | Null => true
  | WithMessage _ => false
  end.

(** The race ended by a rejection with such a reason. *)
Definition rejected_nullish (how : Settlement) : bool :=
  match how with
  | Resolved => false
  | Rejected reason => nullish reason
  end.

(** Source lines 179-193, when the callback threw at once: the catch clause
    logs the failure, or fails itself; the finally clause clears the flag; and
    the end of the function is reached only when the catch clause did not
    fail. *)
Definition recovery_threw (disconnectedAuthIndex : Z) (reason : Reason) (w : World) : World :=
  match message_of reason with
  | inr message =>
      lost_finalized disconnectedAuthIndex
        (set_reconnectingAccounts (delete disconnectedAuthIndex)
           (add_effect (Logged LError (ReconnectFailed disconnectedAuthIndex message)) w))
  | inl _ => set_reconnectingAccounts (delete disconnectedAuthIndex) w
  end.

(** The world the grace-timer callback leaves when it returns or suspends. *)
Definition grace_expired (disconnectedAuthIndex : Z) (w : World) : World :=
  let w2 := queues_settled disconnectedAuthIndex w in
  match onConnectionLostCallback w2 with
  | Some callback =>
      if negb (default false (reconnectingAccounts w2 !! disconnectedAuthIndex)) then
        match callback disconnectedAuthIndex with
        | CbThrows reason =>
            recovery_threw disconnectedAuthIndex reason
              (recovery_called disconnectedAuthIndex w2)
        | CbPromise =>
            recovery_suspended disconnectedAuthIndex
              (recovery_called disconnectedAuthIndex w2)
        end
      else lost_finalized disconnectedAuthIndex w2
  | None => lost_finalized disconnectedAuthIndex w2
  end.

(** Source lines 176-182: the line logged when the race has settled, if
    one is. *)
Definition settlement_logged (disconnectedAuthIndex : Z) (how : Settlement) (w : World) :
    World :=
  match how with
  | Resolved => add_effect (Logged LInfo (ReconnectCompleted disconnectedAuthIndex)) w
  | Rejected reason =>
      match message_of reason with
      | inr message =>
          add_effect (Logged LError (ReconnectFailed disconnectedAuthIndex message)) w
      | inl _ => w
      end
  end.

(** Source lines 176-188: the race has settled, and the finally clause has
    cleared the timeout and the flag. *)
Definition attempt_closed (timeoutId : TimerId) (disconnectedAuthIndex : Z)
    (how : Settlement) (w : World) : World :=
  set_reconnectingAccounts (delete disconnectedAuthIndex)
    (set_timers (delete timeoutId)
       (settlement_logged disconnectedAuthIndex how
          (set_awaiting (delete timeoutId) w))).

(** The world the callback leaves once resumed (source lines 175-193): the
    end of the function is reached unless the catch clause failed. *)
Definition resumed (timeoutId : TimerId) (how : Settlement) (w : World) : World :=
  match awaiting w !! timeoutId with
  | None => w
  | Some disconnectedAuthIndex =>
      let w1 := attempt_closed timeoutId disconnectedAuthIndex how w in
      if rejected_nullish how then w1 else lost_finalized disconnectedAuthIndex w1
  end.

(** The timeout of the race, as a settlement. *)
Definition timed_out : Settlement := Rejected (WithMessage "Lightweight reconnect timed out").

(** The world a firing timer leaves. *)
Definition fired (id : TimerId) (w : World) : World :=
  match timers w !! id with
  | None => w
  | Some timer =>
      match task timer with
      | GraceExpiry disconnectedAuthIndex =>
          grace_expired disconnectedAuthIndex (set_timers (delete id) w)
      | ReconnectTimeout => resumed id timed_out (set_timers (delete id) w)
      end
  end.

(** ** How the grace-timer callback completes

    Normally, or by the TypeError of its catch clause.  The callback is an
    async function: the exception it ends by is the reason its promise is
    rejected with, and nothing in the registry handles that promise. *)

Definition catch_completion (reason : Reason) : Completion unit :=
  match message_of reason with
  | inl typeError => Thrown typeError
  | inr _ => Normal tt
  end.

Definition settlement_completion (how : Settlement) : Completion unit :=
  match how with
  | Resolved => Normal tt
  | Rejected reason => catch_completion reason
  end.

(** [graceTimerResume]: nothing happens, and nothing is thrown, when no
    callback is suspended under the identifier. *)
Definition resume_completion (timeoutId : TimerId) (how : Settlement) (w : World) :
    Completion unit :=
  match awaiting w !! timeoutId with
  | Some _ => settlement_completion how
  | None => Normal tt
  end.

(** [graceTimerCallback]: the catch clause is reached only when the recovery
    callback is called and throws at once. *)
Definition expiry_completion (disconnectedAuthIndex : Z) (w : World) : Completion unit :=
  match onConnectionLostCallback w with
  | Some callback =>
      if negb (default false (reconnectingAccounts w !! disconnectedAuthIndex)) then
        match callback disconnectedAuthIndex with
        | CbThrows reason => catch_completion reason
        | CbPromise => Normal tt
        end
      else Normal tt
  | None => Normal tt
  end.

(** [fire] *)
Definition fire_completion (id : TimerId) (w : World) : Completion unit :=
  match timers w !! id with
  | Some timer =>
      match task timer with
      | GraceExpiry disconnectedAuthIndex => expiry_completion disconnectedAuthIndex w
      | ReconnectTimeout => Normal tt
      end
  | None => Normal tt
  end.

(** The grace-timer callback for the account calls the recovery callback,
    which throws [undefined] or [null] at once. *)
Definition fails_at_once (disconnectedAuthIndex : Z) (w : World) : bool :=
  match onConnectionLostCallback w with
  | Some callback =>
      negb (default false (reconnectingAccounts w !! disconnectedAuthIndex))
      && match callback disconnectedAuthIndex with
         | CbThrows reason => nullish reason
         | CbPromise => false
         end
  | None => false
  end.

(** How a task of the event loop completes: the socket emitter throws an
    [error] event nobody listens for, a grace-timer callback may end by the
    exception of its catch clause, and everything else returns normally. *)
Definition completion_of (t : Task) (w : World) : Completion unit :=
  match t with
  | SocketEmits websocket event payload =>
      if unheard_error event (listeners_for event (listeners (socket websocket w)))
      then Thrown (Error payload)
      else Normal tt
  | TimerFires id => fire_completion id w
  | CallbackSettles timeoutId how => resume_completion timeoutId how w
  | _ => Normal tt
  end.

(** Source lines 134-198: a grace period starts. *)
Definition grace_started (a : Z) (w : World) : World :=
  let w1 := match reconnectGraceTimers w !! a with
            | Some timerId => set_timers (delete timerId) w
            | None => w
            end in
  set_reconnectGraceTimers <[a := nextTimerId w]>
    (set_nextTimerId (S (nextTimerId w))
       (set_timers <[nextTimerId w := mkTimer (GraceExpiry a) gracePeriodMs]>
          (add_effect (Logged LInfo (StartingGracePeriod a)) w1))).

(** Source lines 120-131: the page is gone, no grace period. *)
Definition reconnect_skipped (a : Z) (w : World) : World :=
  let w1 := add_effect (Logged LInfo (PageClosedSkipReconnect a)) w in
  match reconnectGraceTimers w !! a with
  | Some timerId => set_reconnectGraceTimers (delete a) (set_timers (delete timerId) w1)
  | None => w1
  end.

(** Source lines 118-120: a browser manager was supplied and reports the page
    of the account closed or missing. *)
Definition page_is_gone (a : Z) (w : World) : bool :=
  match browserManager w with
  | Some contexts => page_gone contexts a
  | None => false
  end.

(** The world [_removeConnection] leaves. *)
Definition removed (websocket : WsId) (w : World) : World :=
  match _authIndex (socket websocket w) with
  | Some a =>
      if (0 <=? a)%Z then
        let w1 := add_effect (Logged LInfo (ClientDisconnected (Some a)))
                    (connectionsByAuth_delete a w) in
        add_effect (Emitted (connectionRemoved websocket))
          (if page_is_gone a w then reconnect_skipped a w1 else grace_started a w1)
      else
        add_effect (Emitted (connectionRemoved websocket))
          (add_effect (Logged LInfo (ClientDisconnected None)) w)
  | None =>
      add_effect (Emitted (connectionRemoved websocket))
        (add_effect (Logged LInfo (ClientDisconnected None)) w)
  end.

(** The world [closeConnectionByAuth] leaves. *)
Definition closed_by_auth (a : Z) (w : World) : World :=
  match connectionsByAuth w !! a with
  | Some connection =>
      let s := socket connection w in
      let w1 :=
        set_sockets
          <[connection := mkWebSocket (_authIndex s) (listeners s)
                            (closeCalls s ++ [(None, None)]) (closeThrows s)]>
          (add_effect (Logged LInfo (ClosingConnection a)) w) in
      let w2 := match closeThrows s with
                | Some message => add_effect (Logged LWarn (ErrorClosingConnection a message)) w1
                | None => w1
                end in
      let w3 := connectionsByAuth_delete a w2 in
      match reconnectGraceTimers w !! a with
      | Some timerId => set_reconnectGraceTimers (delete a) (set_timers (delete timerId) w3)
      | None => w3
      end
  | None => add_effect (Logged LDebug (NoConnectionToClose a)) w
  end.

(** The worlds [createMessageQueue], [removeMessageQueue] and
    [getConnectionByAuth] leave. *)
Definition queue_created (requestId : string) (w : World) : World :=
  set_messageQueues <[requestId := nextQueueId w]>
    (set_nextQueueId (S (nextQueueId w)) (set_queues <[nextQueueId w := new_queue]> w)).

Definition queue_removed (requestId : string) (w : World) : World :=
  match messageQueues w !! requestId with
  | Some q =>
      set_messageQueues (delete requestId) (set_queues <[q := mq_close (queue q w)]> w)
  | None => w
  end.

Definition looked_up (a : Z) (w : World) : World :=
  match connectionsByAuth w !! a with
  | Some _ => add_effect (Logged LDebug (FoundConnection a)) w
  | None =>
      add_effect (Logged LDebug (NoConnectionFound a (connectionKeys w))) w
  end.

(** ** The part of the world the reconnect state machine lives in *)

(** The connection map, the grace-timer map, the reconnecting flags, the
    pending timers with the next timer identifier, and the suspended grace
    callbacks. *)
Record Core := mkCore {
  c_connections : gmap Z nat;
  c_graceTimers : gmap Z nat;
  c_reconnecting : gmap Z bool;
  c_timers : gmap nat Timer;
  c_nextTimer : nat;
  c_awaiting : gmap nat Z
}.

(** What every reachable world satisfies.  Timer identifiers in use are below
    the next one; a suspended callback is keyed by a timeout timer; the timer
    a grace-timer entry names is, while it is pending, the grace timer of that
    account; an account with an entry has no connection; the reconnecting
    flag of an account is set exactly while a callback is suspended for it,
    and at most one is. *)
Record Inv (c : Core) : Prop := mkInv {
  timers_bounded : forall t tm, c_timers c !! t = Some tm -> t < c_nextTimer c;
  awaiting_bounded : forall t a, c_awaiting c !! t = Some a -> t < c_nextTimer c;
  awaiting_timer : forall t a tm,
    c_awaiting c !! t = Some a -> c_timers c !! t = Some tm -> task tm = ReconnectTimeout;
  grace_bounded : forall a t, c_graceTimers c !! a = Some t -> t < c_nextTimer c;
  grace_pending : forall a t,
    c_graceTimers c !! a = Some t ->
    (exists d, c_timers c !! t = Some (mkTimer (GraceExpiry a) d))
    \/ c_timers c !! t = None;
  grace_disconnected : forall a t,
    c_graceTimers c !! a = Some t -> c_connections c !! a = None;
  flag_in_flight : forall a,
    c_reconnecting c !! a = Some true <-> exists tid, c_awaiting c !! tid = Some a;
  flag_true : forall a, c_reconnecting c !! a <> Some false;
  single_flight : forall t1 t2 a,
    c_awaiting c !! t1 = Some a -> c_awaiting c !! t2 = Some a -> t1 = t2
}.

(** The moves of the state machine on the core: entry and timer dropped;
    connection removed or stored; grace period started; callback suspended on
    a recovery attempt; attempt finished; timer dropped. *)
Definition clear_grace (a : Z) (t : nat) (c : Core) : Core :=
  mkCore (c_connections c) (delete a (c_graceTimers c)) (c_reconnecting c)
    (delete t (c_timers c)) (c_nextTimer c) (c_awaiting c).

Definition conn_delete (a : Z) (c : Core) : Core :=
  mkCore (delete a (c_connections c)) (c_graceTimers c) (c_reconnecting c)
    (c_timers c) (c_nextTimer c) (c_awaiting c).

Definition conn_insert (a : Z) (ws : nat) (c : Core) : Core :=
  mkCore (<[a := ws]> (c_connections c)) (c_graceTimers c) (c_reconnecting c)
    (c_timers c) (c_nextTimer c) (c_awaiting c).

Definition start_grace (a : Z) (c : Core) : Core :=
  mkCore (c_connections c) (<[a := c_nextTimer c]> (c_graceTimers c)) (c_reconnecting c)
    (<[c_nextTimer c := mkTimer (GraceExpiry a) gracePeriodMs]>
       (match c_graceTimers c !! a with
        | Some t => delete t (c_timers c)
        | None => c_timers c
        end))
    (S (c_nextTimer c)) (c_awaiting c).

Definition suspend (t : nat) (a : Z) (c : Core) : Core :=
  mkCore (c_connections c) (c_graceTimers c) (<[a := true]> (c_reconnecting c))
    (<[c_nextTimer c := mkTimer ReconnectTimeout lightweightReconnectTimeoutMs]>
       (delete t (c_timers c)))
    (S (c_nextTimer c)) (<[c_nextTimer c := a]> (c_awaiting c)).

Definition finish_attempt (tid : nat) (a : Z) (c : Core) : Core :=
  mkCore (c_connections c) (c_graceTimers c) (delete a (c_reconnecting c))
    (c_timers c) (c_nextTimer c) (delete tid (c_awaiting c)).

Definition timer_delete (t : nat) (c : Core) : Core :=
  mkCore (c_connections c) (c_graceTimers c) (c_reconnecting c)
    (delete t (c_timers c)) (c_nextTimer c) (c_awaiting c).

(** The core of a world. *)
Definition core (w : World) : Core :=
  mkCore (connectionsByAuth w) (reconnectGraceTimers w) (reconnectingAccounts w)
    (timers w) (nextTimerId w) (awaiting w).

(** The world [addConnection] leaves when the guard rejects the call. *)
Definition rejected (websocket : WsId) (n : option JsNumber) (w : World) : World :=
  let s := socket websocket w in
  set_sockets
    <[websocket := mkWebSocket (_authIndex s) (listeners s)
                     (closeCalls s ++ [(Some 1008%Z, Some "Invalid authIndex")])
                     (closeThrows s)]>
    (add_effect (Logged LError (RejectingInvalidAuthIndex n)) w).

(** ** Recovery attempts *)






(** ** Grace-timer entries *)

(** The loss of an account is not finalized yet: a grace timer for it is
    pending, or its grace callback is suspended on the recovery attempt. *)
Definition loss_pending (a : Z) (w : World) : Prop :=
  (exists timerId d, timers w !! timerId = Some (mkTimer (GraceExpiry a) d))
  \/ (exists timeoutId, awaiting w !! timeoutId = Some a).

(** C9 as the specification words it. *)
Definition C9_as_stated : Prop :=
  forall (JSON_parse : string -> option Json) (w : World) (a : Z),
    reachable JSON_parse w ->
    (is_Some (reconnectGraceTimers w !! a)
     <-> connectionsByAuth w !! a = None /\ loss_pending a w).

(** Account 0 loses socket 1, its grace timer fires and the callback suspends
    on the recovery attempt; socket 2 registers, which removes the entry, and
    is then closed on purpose by [closeConnectionByAuth]. *)
Definition closed_during_recovery : list Task :=
  [Accept 1 (client 0); SocketEmits 1 EvClose ""; TimerFires 0;
   Accept 2 (client 0); CloseByAuth 0].

(** ** Reconnection within the grace period *)

(** C5 as the specification words it: a registration that arrives while the
    grace timer of the account is pending cancels the timer, makes the
    account connected again, calls no recovery callback and closes no
    queue. *)
Definition C5_as_stated : Prop :=
  forall (websocket : WsId) (clientInfo : ClientInfo) (timerId : TimerId) (w : World),
    valid_authIndex (authIndex clientInfo) ->
    let a := integer_value (authIndex clientInfo) in
    reconnectGraceTimers w !! a = Some timerId ->
    timers w !! timerId = Some (mkTimer (GraceExpiry a) gracePeriodMs) ->
    (timerId < nextTimerId w)%nat ->
    let w' := exec (addConnection websocket clientInfo) w in
    timers w' !! timerId = None
    /\ reconnectGraceTimers w' !! a = None
    /\ connectionsByAuth w' !! a = Some websocket
    /\ (forall b, CallbackInvoked b ∈ trace w' -> CallbackInvoked b ∈ trace w)
    /\ messageQueues w' = messageQueues w
    /\ queues w' = queues w.

(** The current account 0 loses socket 1 while the queue of request [r1]
    exists, and socket 2 registers for it before the grace timer fires. *)
Definition reconnect_in_grace : World :=
  run no_parser [Accept 1 (client 0); CreateQueue "r1"; SocketEmits 1 EvClose ""]
    (new_registry (Some (fun _ => CbPromise)) (Some 0%Z) None).

(** ** More inputs for examples *)

(** A frame of request [r1] of the given kind. *)
Definition frame_of (kind : string) : Json :=
  JObject [("request_id", JString "r1"); ("event_type", JString kind)].

(** A stand-in for [JSON.parse] that knows three texts. *)
Definition demo_parser (messageData : string) : option Json :=
  if String.eqb messageData "chunk" then Some (frame_of "chunk")
  else if String.eqb messageData "close" then Some (frame_of "stream_close")
  else if String.eqb messageData "ping" then Some (frame_of "ping")
  else None.

(** A registry with a recovery callback, account 0 current, and no browser
    manager. *)
Definition fresh_registry : World :=
  new_registry (Some (fun _ => CbPromise)) (Some 0%Z) None.

(** From [w] to [w'] no timer became pending under an identifier that had
    been handed out already. *)
Definition timers_extend (w w' : World) : Prop :=
  (nextTimerId w <= nextTimerId w')%nat
  /\ forall t, (t < nextTimerId w)%nat -> timers w !! t = None -> timers w' !! t = None.

(** ** What an observer of the registry's own events sees *)

(** The events emitted by the registry, oldest first, picked out of a
    trace. *)
Fixpoint events (tr : list Effect) : list RegistryEvent :=
  match tr with
  | [] => []
  | Emitted e :: rest => e :: events rest
  | _ :: rest => events rest
  end.

Definition emitted (w : World) : list RegistryEvent := events (trace w).

(** The grace-timer callback for the account will call the recovery callback
    and suspend on the promise it returns (source lines 159-175): a callback
    was supplied, the account is not flagged as reconnecting, and the call
    does not throw. *)
Definition suspends (disconnectedAuthIndex : Z) (w : World) : bool :=
  match onConnectionLostCallback w with
  | Some callback =>
      negb (default false (reconnectingAccounts w !! disconnectedAuthIndex))
      && match callback disconnectedAuthIndex with
         | CbPromise => true
         | CbThrows _ => false
         end
  | None => false
  end.

(** ** What the registry is given and never changes *)

(** The constructor arguments: the recovery callback, what the accessor of
    the current account returns, and the browser manager's contexts. *)
Definition same_surroundings (w w' : World) : Prop :=
  onConnectionLostCallback w' = onConnectionLostCallback w
  /\ getCurrentAuthIndex w' = getCurrentAuthIndex w
  /\ browserManager w' = browserManager w.

(** [this.getCurrentAuthIndex ? this.getCurrentAuthIndex() : -1] *)
Definition current_account (w : World) : Z := default (-1)%Z (getCurrentAuthIndex w).

(** ** Properties kept by every task *)

(** [P] is kept by everything a task can do to a world that satisfies the
    invariant of the reconnect state machine: a line logged, a registration
    rejected or accepted, a teardown, a frame routed, an intentional close,
    a queue created or removed, all queues closed, a timer fired, a suspended
    callback resumed, and the surroundings changing.  [ok] restricts the
    timer tasks the property has to be kept by. *)
Record preserved (ok : Task -> World -> Prop) (P : World -> Prop) : Prop := mkPreserved {
  kept_logged : forall level line w,
    Inv (core w) -> P w -> P (add_effect (Logged level line) w);
  kept_rejected : forall websocket n w,
    Inv (core w) -> P w -> P (rejected websocket n w);
  kept_connected : forall websocket clientInfo w,
    valid_authIndex (authIndex clientInfo) ->
    Inv (core w) -> P w -> P (connected websocket clientInfo w);
  kept_removed : forall websocket w,
    Inv (core w) -> P w -> P (removed websocket w);
  kept_routed : forall frame requestId q w,
    messageQueues w !! requestId = Some q ->
    Inv (core w) -> P w -> P (routed frame q w);
  kept_closed_by_auth : forall a w,
    Inv (core w) -> P w -> P (closed_by_auth a w);
  kept_queue_created : forall requestId w,
    Inv (core w) -> P w -> P (queue_created requestId w);
  kept_queue_removed : forall requestId w,
    Inv (core w) -> P w -> P (queue_removed requestId w);
  kept_closed_all : forall w,
    Inv (core w) -> P w -> P (closed_all w);
  kept_fired : forall id w,
    ok (TimerFires id) w -> Inv (core w) -> P w -> P (fired id w);
  kept_resumed : forall timeoutId how w,
    ok (CallbackSettles timeoutId how) w -> Inv (core w) -> P w -> P (resumed timeoutId how w);
  kept_current : forall a w,
    Inv (core w) -> P w -> P (set_getCurrentAuthIndex (Some a) w);
  kept_contexts : forall contexts w,
    Inv (core w) -> P w -> P (set_browserManager (Some contexts) w)
}.

(** Every task. *)
Definition always : Task -> World -> Prop := fun _ _ => True.

(** The grace-timer callback the task runs or resumes, if it does, does not
    end by an exception. *)
Definition ends_quietly (t : Task) (w : World) : Prop :=
  match t with
  | TimerFires id => fire_completion id w = Normal tt
  | CallbackSettles timeoutId how => resume_completion timeoutId how w = Normal tt
  | _ => True
  end.

(** The worlds the registry can be in as long as no grace-timer callback has
    ended by an exception. *)
Inductive reachable_quietly (JSON_parse : string -> option Json) : World -> Prop :=
  | quietly_new callback current manager :
      reachable_quietly JSON_parse (new_registry callback current manager)
  | quietly_step w t :
      reachable_quietly JSON_parse w ->
      ends_quietly t w ->
      reachable_quietly JSON_parse (exec (step JSON_parse t) w).

(** ** The moves of the reconnect state machine, account by account *)

(** What the methods do to the core, each move on behalf of one account:
    its connection is removed or stored, its grace-timer entry is cleared
    together with the timer it names, a grace period starts for it, its
    grace timer expires without a recovery attempt, its grace callback
    suspends on a recovery attempt, the attempt finishes, and a reconnect
    timeout nobody waits for fires. *)
Inductive core_move (a : Z) (c : Core) : Core -> Prop :=
  | move_conn_delete :
      core_move a c (conn_delete a c)
  | move_conn_insert ws :
      c_graceTimers c !! a = None ->
      core_move a c (conn_insert a ws c)
  | move_clear_grace t :
      c_graceTimers c !! a = Some t ->
      core_move a c (clear_grace a t c)
  | move_start_grace :
      c_connections c !! a = None ->
      core_move a c (start_grace a c)
  | move_expire t d :
      c_timers c !! t = Some (mkTimer (GraceExpiry a) d) ->
      core_move a c (clear_grace a t c)
  | move_suspend t d :
      c_timers c !! t = Some (mkTimer (GraceExpiry a) d) ->
      c_reconnecting c !! a <> Some true ->
      core_move a c (suspend t a c)
  | move_finish t :
      c_awaiting c !! t = Some a ->
      core_move a c (finish_attempt t a (clear_grace a t c))
  | move_stray_timeout t d :
      c_timers c !! t = Some (mkTimer ReconnectTimeout d) ->
      c_awaiting c !! t = None ->
      core_move a c (timer_delete t c).

(** What a grace-timer callback that ends by the exception of its catch
    clause does to the core: the timer is gone, the flag and the timeout of
    the attempt are cleared, and the grace-timer entry is left behind. *)
Inductive core_slip (a : Z) (c : Core) : Core -> Prop :=
  | slip_at_expiry t d :
      c_timers c !! t = Some (mkTimer (GraceExpiry a) d) ->
      c_reconnecting c !! a = None ->
      core_slip a c (timer_delete t c)
  | slip_at_settlement t :
      c_awaiting c !! t = Some a ->
      core_slip a c (finish_attempt t a (timer_delete t c)).

Definition core_change (a : Z) (c c' : Core) : Prop :=
  core_move a c c' \/ core_slip a c c'.

Definition any_move (c c' : Core) : Prop := exists a, core_change a c c'.

Definition ordinary_move (c c' : Core) : Prop := exists a, core_move a c c'.

(** Every grace-timer entry belongs to a loss that is still being handled:
    the timer it names is pending, or has fired with its callback suspended
    on the recovery attempt. *)
Definition Pending (c : Core) : Prop :=
  forall a t,
    c_graceTimers c !! a = Some t ->
    (exists d, c_timers c !! t = Some (mkTimer (GraceExpiry a) d))
    \/ (c_timers c !! t = None /\ exists tid, c_awaiting c !! tid = Some a).

(** The account a teardown and a firing timer work for. *)
Definition stamped_account (websocket : WsId) (w : World) : Z :=
  default 0%Z (_authIndex (socket websocket w)).

Definition suspended_account (timeoutId : TimerId) (w : World) : Z :=
  default 0%Z (awaiting w !! timeoutId).

Definition timer_account (id : TimerId) (w : World) : Z :=
  match timers w !! id with
  | Some timer =>
      match task timer with
      | GraceExpiry a => a
      | ReconnectTimeout => suspended_account id w
      end
  | None => 0%Z
  end.

(** The core of a registry that has just been constructed. *)
Definition new_core : Core := mkCore ∅ ∅ ∅ ∅ 0 ∅.

(** Every pending timer is accounted for: it is a grace timer with the grace
    delay, or the reconnect timeout, with its delay, of a callback that is
    suspended; a suspended callback has its timeout pending; and no
    grace-timer entry names a reconnect timeout. *)
Record Accounted (c : Core) : Prop := mkAccounted {
  timers_known : forall t tm,
    c_timers c !! t = Some tm ->
    (exists a, tm = mkTimer (GraceExpiry a) gracePeriodMs)
    \/ (tm = mkTimer ReconnectTimeout lightweightReconnectTimeoutMs
        /\ is_Some (c_awaiting c !! t));
  awaiting_pending : forall t a,
    c_awaiting c !! t = Some a ->
    c_timers c !! t = Some (mkTimer ReconnectTimeout lightweightReconnectTimeoutMs);
  grace_not_timeout : forall a t,
    c_graceTimers c !! a = Some t -> c_awaiting c !! t = None
}.

(** What the registry holds about account [b] is the same in [c'] as in
    [c]: its connection, its grace-timer entry with the timer it names, and
    its reconnecting flag. *)
Definition untouched (b : Z) (c c' : Core) : Prop :=
  c_connections c' !! b = c_connections c !! b
  /\ c_graceTimers c' !! b = c_graceTimers c !! b
  /\ c_reconnecting c' !! b = c_reconnecting c !! b
  /\ forall t, c_graceTimers c !! b = Some t -> c_timers c' !! t = c_timers c !! t.

(** ** Sockets as registrations leave them *)

(** The listener table of a socket is the three listeners of
    [addConnection], once per accepted registration of the socket since it
    was last replaced; a stamp is a valid account index; and a socket that
    has listeners or is registered carries a stamp. *)
Record Wired (w : World) : Prop := mkWired {
  listeners_registered : forall websocket,
    exists k, listeners (socket websocket w) = concat (repeat (handlers websocket) k);
  stamps_valid : forall websocket a,
    _authIndex (socket websocket w) = Some a -> (0 <= a)%Z;
  listening_stamped : forall websocket,
    listeners (socket websocket w) <> [] -> is_Some (_authIndex (socket websocket w));
  registered_stamped : forall a websocket,
    connectionsByAuth w !! a = Some websocket -> is_Some (_authIndex (socket websocket w))
}.

(** From [w] to [w'] no listener and no stamp changed and no connection was
    registered. *)
Definition sockets_kept (w w' : World) : Prop :=
  (forall websocket, listeners (socket websocket w') = listeners (socket websocket w))
  /\ (forall websocket, _authIndex (socket websocket w') = _authIndex (socket websocket w))
  /\ (forall a websocket,
        connectionsByAuth w' !! a = Some websocket -> connectionsByAuth w !! a = Some websocket).

(** ** Queue objects *)

(** Queue objects are handed out under fresh identities: those registered
    and those that exist are below the next one, and no two request ids share
    a queue object. *)
Record QueuesFresh (w : World) : Prop := mkQueuesFresh {
  queue_ids_issued : forall requestId q,
    messageQueues w !! requestId = Some q -> q < nextQueueId w;
  queue_ids_distinct : forall r1 r2 q,
    messageQueues w !! r1 = Some q -> messageQueues w !! r2 = Some q -> r1 = r2;
  heap_issued : forall q x, queues w !! q = Some x -> q < nextQueueId w
}.

(** From [w] to [w'] no queue was created or registered. *)
Definition queues_kept (w w' : World) : Prop :=
  nextQueueId w' = nextQueueId w
  /\ (forall requestId q,
        messageQueues w' !! requestId = Some q -> messageQueues w !! requestId = Some q)
  /\ (forall q x,
        queues w' !! q = Some x ->
        is_Some (queues w !! q) \/ exists requestId, messageQueues w !! requestId = Some q).

(** From [w] to [w'] no queue was closed, removed or registered, and no
    item was taken out of a queue: the queue map is the same, and each queue
    object is as open or closed as it was and holds what it held, possibly
    followed by more. *)
Definition queues_grow (w w' : World) : Prop :=
  messageQueues w' = messageQueues w
  /\ nextQueueId w' = nextQueueId w
  /\ forall q,
       closed (queue q w') = closed (queue q w)
       /\ exists more, items (queue q w') = items (queue q w) ++ more.

(** * Helpers of the browser manager

    Two pure helpers of [src/core/BrowserManager.js]: the numeric seed that
    keeps the fingerprint of an account stable, and the context options
    resolved from the cache metadata of an account. *)

Module BrowserManager.

(** ** [_generateIdentitySeed] *)

(** [x | 0]: an integer-valued Number converted to a signed 32-bit
    integer. *)
Definition to_int32 (x : Z) : Z := ((x + 2 ^ 31) mod 2 ^ 32 - 2 ^ 31)%Z.

(** [x << n]: both operands are converted, the count is taken modulo 32, and
    the result is a signed 32-bit integer. *)
Definition shift_left (x n : Z) : Z :=
  to_int32 (Z.shiftl (to_int32 x) (Z.land n 31)).

(** One round of the loop (source lines 330-332):
    [hashValue = (hashValue << 5) - hashValue + charCode; hashValue |= 0].
    The subtraction and the addition are exact, the operands being far below
    2^53. *)
Definition seed_round (hashValue charCode : Z) : Z :=
  to_int32 (shift_left hashValue 5 - hashValue + charCode).

(** [_generateIdentitySeed(str)] (source lines 327-335).  The string is
    given by its UTF-16 code units, which is what [charCodeAt] reads. *)
Definition _generateIdentitySeed (str : list Z) : Z :=
  Z.abs (fold_left seed_round str 0%Z).

(** A string of the code: every unit is a 16-bit value. *)
Definition code_units (str : list Z) : Prop :=
  Forall (fun charCode => (0 <= charCode < 65536)%Z) str.

(** The value of the string read as a numeral in base 31, most significant
    unit first. *)
Definition base31 (str : list Z) : Z :=
  fold_left (fun value charCode => (31 * value + charCode)%Z) str 0%Z.

(** The code units of an ASCII text. *)
Definition units_of (text : string) : list Z :=
  map (fun c => Z.of_N (Ascii.N_of_ascii c)) (list_ascii_of_string text).

(** ** [_resolveContextOptions] *)

(** [typeof v === "number"] *)
Definition is_number (v : JsValue) : bool :=
  match v with
  | Some (JNumber _) => true
  | _ => false
  end.

(** [v.key] for a value that is neither [null] nor [undefined], and
    [undefined] for one that is, as [v?.key] gives: an object yields its
    member, the other values have no such property. *)
Definition member (v : JsValue) (key : string) : JsValue :=
  match v with
  | Some (JObject fields) => assoc key fields
  | _ => None
  end.

(** [v <= 0] for a value that is a Number *)
Definition le_zero (v : JsValue) : bool :=
  match v with
  | Some (JNumber (Finite q)) => (Qnum q <=? 0)%Z
  | Some (JNumber NegInfinity) => true
  | _ => false
  end.

(** [Math.floor(x)] for a finite Number *)
Definition Math_floor (x : Q) : Z := (Qnum x / Z.pos (Qden x))%Z.

(** The test of source lines 237-243 on the cached viewport. *)
Definition viewport_unusable (viewport : JsValue) : bool :=
  negb (truthy viewport)
  || negb (is_number (member viewport "width"))
  || negb (is_number (member viewport "height"))
  || le_zero (member viewport "width")
  || le_zero (member viewport "height").

(** [{ deviceScaleFactor, viewport }] *)
Record ContextOptions := mkContextOptions {
  deviceScaleFactor : Json;
  viewport : Json
}.

(** [_resolveContextOptions(authIndex)] (source lines 232-256), given what
    [_readCacheMeta(authIndex)] returned ([JNull] when there is no usable
    metadata file) and the values of the two products [Math.random() * 50],
    the one for the width first. *)
Definition _resolveContextOptions (cacheMeta : Json) (scaledWidth scaledHeight : Q) :
    Json * ContextOptions :=
  let cachedOptions :=
    let found := member (Some cacheMeta) "contextOptions" in
    if truthy found then found else Some (JObject []) in
  let cached := member cachedOptions "viewport" in
  let viewport :=
    if viewport_unusable cached then
      let randomWidth := (1920 + Math_floor scaledWidth)%Z in
      let randomHeight := (1080 + Math_floor scaledHeight)%Z in
      JObject [("height", JNumber (int_number randomHeight));
               ("width", JNumber (int_number randomWidth))]
    else default JNull cached in
  let scale := member cachedOptions "deviceScaleFactor" in
  (cacheMeta,
   {| deviceScaleFactor := if is_number scale then default JNull scale
                           else JNumber (int_number 1);
      viewport := viewport |}).

(** A value of [Math.random() * 50]: at least 0 and below 50. *)
Definition scaled_draw (x : Q) : Prop := (0 <= Qnum x < 50 * Z.pos (Qden x))%Z.

(** A viewport [_resolveContextOptions] may return: its width and height
    are Numbers and neither is zero or negative. *)
Definition usable_viewport (v : Json) : Prop :=
  is_number (member (Some v) "width") = true
  /\ is_number (member (Some v) "height") = true
  /\ le_zero (member (Some v) "width") = false
  /\ le_zero (member (Some v) "height") = false.

End BrowserManager.

(** * Numbering of authentication files

    The helper of [scripts/auth/saveAuth.js] that picks the index of the
    authentication file to create. *)

Module SaveAuth.

(** ** [getNextAuthIndex] *)

(** [s] without the prefix [p], when it starts with it. *)
Fixpoint strip_prefix (p s : string) : option string :=
  match p, s with
  | EmptyString, _ => Some s
  | String c p', String d s' => if Ascii.eqb c d then strip_prefix p' s' else None
  | String _ _, EmptyString => None
  end.

(** [s] without the suffix [p], when it ends with it. *)
Fixpoint strip_suffix (p s : string) : option string :=
  if String.eqb s p then Some EmptyString
  else match s with
       | EmptyString => None
       | String c s' => option_map (String c) (strip_suffix p s')
       end.

(** Every character is one of [0-9]. *)
Definition all_digits (s : string) : bool :=
  match NilEmpty.uint_of_string s with
  | Some _ => true
  | None => false
  end.

(** [file.match(/^auth-(\d+)\.json$/)]: the digits captured, when the name
    matches. *)
Definition auth_digits (file : string) : option string :=
  match strip_prefix "auth-" file with
  | Some rest =>
      match strip_suffix ".json" rest with
      | Some digits =>
          if negb (String.eqb digits "") && all_digits digits then Some digits else None
      | None => None
      end
  | None => None
  end.

(** [parseInt(digits, 10)] for a string of decimal digits; exact as long
    as the value is below 2^53. *)
Definition parseInt (digits : string) : Z :=
  match NilEmpty.uint_of_string digits with
  | Some u => Z.of_N (N.of_uint u)
  | None => 0%Z
  end.

(** [Math.max(...values)] for a list that is not empty. *)
Definition Math_max (values : list Z) : Z :=
  match values with
  | [] => 0%Z
  | first :: rest => fold_left Z.max rest first
  end.

(** [/^auth-\d+\.json$/.test(file)] *)
Definition is_auth_file (file : string) : bool :=
  match auth_digits file with
  | Some _ => true
  | None => false
  end.

(** [getNextAuthIndex()] (source lines 95-112), given the listing of the
    directory of authentication files, [None] when the directory does not
    exist. *)
Definition getNextAuthIndex (listing : option (list string)) : Z :=
  match listing with
  | None => 0%Z
  | Some files =>
      let authFiles := List.filter is_auth_file files in
      if (length authFiles =? 0)%nat then 0%Z
      else
        let indices :=
          map (fun file => parseInt (default EmptyString (auth_digits file))) authFiles in
        (Math_max indices + 1)%Z
  end.

(** [`auth-${newIndex}.json`] (source line 121) for an index that is a
    natural number. *)
Definition auth_file_name (index : Z) : string :=
  String.append "auth-"
    (String.append (NilEmpty.string_of_uint (N.to_uint (Z.to_N index))) ".json").

End SaveAuth.

(** * Further inputs for examples *)

(** A registry whose browser manager knows no context; account 0 connected
    on socket 1; the same after the socket has closed; and account 0 closed
    on purpose and registered again on socket 2 before the close event of
    socket 1 has arrived. *)
Definition managed_registry : World :=
  new_registry (Some (fun _ => CbPromise)) (Some 0%Z) (Some ∅).

Definition connected_world : World :=
  run no_parser [Accept 1 (client 0)] fresh_registry.

Definition disconnected_world : World :=
  run no_parser [Accept 1 (client 0); SocketEmits 1 EvClose ""] fresh_registry.

Definition reregistered_world : World :=
  run no_parser [Accept 1 (client 0); CloseByAuth 0; Accept 2 (client 0)] fresh_registry.

(** ** The order of the connection map *)

(** The keys without one of them, the others in their order. *)
Definition without (a : Z) (keys : list Z) : list Z :=
  List.filter (fun key => negb (key =? a)%Z) keys.

(** [keys()] lists each registered account once, and nothing else. *)
Record KeysListed (w : World) : Prop := mkKeysListed {
  keys_distinct : List.NoDup (connectionKeys w);
  keys_registered : forall a,
    In a (connectionKeys w) <-> is_Some (connectionsByAuth w !! a)
}.

(** From [w] to [w'] the connection map and the order of its keys did not
    change. *)
Definition same_order (w w' : World) : Prop :=
  connectionKeys w' = connectionKeys w /\ connectionsByAuth w' = connectionsByAuth w.

(** Accounts 1, 0 and 2 connect in this order, on sockets 1, 2 and 3. *)
Definition three_accounts : World :=
  run no_parser [Accept 1 (client 1); Accept 2 (client 0); Accept 3 (client 2)]
    fresh_registry.

(** ** Calls of the recovery callback *)

(** The accounts the recovery callback was called for, oldest first, picked
    out of a trace. *)
Fixpoint invocations (tr : list Effect) : list Z :=
  match tr with
  | [] => []
  | CallbackInvoked a :: rest => a :: invocations rest
  | _ :: rest => invocations rest
  end.

Definition invoked (w : World) : list Z := invocations (trace w).

(** The grace-timer callback for the account will call the recovery
    callback (source lines 159-160): one was supplied and the account is not
    flagged as reconnecting. *)
Definition attempts (disconnectedAuthIndex : Z) (w : World) : bool :=
  match onConnectionLostCallback w with
  | Some _ => negb (default false (reconnectingAccounts w !! disconnectedAuthIndex))
  | None => false
  end.

(** The calls of the recovery callback a task makes in a world. *)
Definition calls_of (t : Task) (w : World) : list Z :=
  match t with
  | TimerFires timerId =>
      match timers w !! timerId with
      | Some timer =>
          match task timer with
          | GraceExpiry a => if attempts a w then [a] else []
          | ReconnectTimeout => []
          end
      | None => []
      end
  | _ => []
  end.

(** * Proofs *)

(** ** Symbolic execution of method bodies *)

Ltac js_proj :=
  cbn beta iota zeta delta
    [fst snd
     connectionsByAuth_set connectionsByAuth_delete set_messageQueues set_reconnectGraceTimers
     set_reconnectingAccounts set_getCurrentAuthIndex set_browserManager set_sockets
     set_queues set_nextQueueId set_timers set_nextTimerId set_awaiting add_effect
     connectionsByAuth connectionKeys messageQueues reconnectGraceTimers reconnectingAccounts
     onConnectionLostCallback getCurrentAuthIndex browserManager sockets queues
     nextQueueId timers nextTimerId awaiting trace
     _authIndex listeners closeCalls closeThrows items closed task delayMs] in *.

Ltac js_unfold :=
  repeat progress
    unfold bind, ret, throw, try_catch, gets, modify, exec, log, emit, update_socket,
      update_queue, ws_close, ws_removeAllListeners, ws_on, ws_stamp, queue_enqueue,
      queue_close, setTimeout, clearTimeout, currentAuthIndex, invokeCallback,
      graceTimerEpilogue, try_finally, recoveryCatch, recoveryFinally in *.

Ltac js_simpl := js_unfold; js_proj.

(** Two worlds with the same fields are the same world. *)
Lemma world_ext (w w' : World) :
  connectionsByAuth w = connectionsByAuth w' ->
  connectionKeys w = connectionKeys w' ->
  messageQueues w = messageQueues w' ->
  reconnectGraceTimers w = reconnectGraceTimers w' ->
  reconnectingAccounts w = reconnectingAccounts w' ->
  onConnectionLostCallback w = onConnectionLostCallback w' ->
  getCurrentAuthIndex w = getCurrentAuthIndex w' ->
  browserManager w = browserManager w' ->
  sockets w = sockets w' ->
  queues w = queues w' ->
  nextQueueId w = nextQueueId w' ->
  timers w = timers w' ->
  nextTimerId w = nextTimerId w' ->
  awaiting w = awaiting w' ->
  trace w = trace w' ->
  w = w'.
Proof.
  destruct w, w'. cbn. intros. subst. reflexivity.
Qed.

(** ** Rejection of an invalid [authIndex] *)

Lemma invalid_authIndex_guard n :
  invalid_authIndex n ->
  is_undefined n || lt_zero n || negb (Number_isInteger n) = true.
Proof.
  rewrite !orb_true_iff, negb_true_iff.
  intros [H | [H | H]]; [rewrite H; auto | auto ..].
Qed.

(** C8. A call of [addConnection] whose [authIndex] is undefined, negative
    or not an integer closes the offered socket with code 1008 and returns
    normally; the four maps of the registry, the timers, the queues, and the
    listeners and stamp of every socket are as they were. *)
Theorem C8_invalid_authIndex_is_rejected_without_mutation
    (websocket : WsId) (clientInfo : ClientInfo) (w : World) :
  invalid_authIndex (authIndex clientInfo) ->
  exists w',
    addConnection websocket clientInfo w = (w', Normal tt)
    /\ closeCalls (socket websocket w')
       = closeCalls (socket websocket w) ++ [(Some 1008%Z, Some "Invalid authIndex")]
    /\ connectionsByAuth w' = connectionsByAuth w
    /\ messageQueues w' = messageQueues w
    /\ reconnectGraceTimers w' = reconnectGraceTimers w
    /\ reconnectingAccounts w' = reconnectingAccounts w
    /\ timers w' = timers w
    /\ awaiting w' = awaiting w
    /\ queues w' = queues w
    /\ (forall id, listeners (socket id w') = listeners (socket id w))
    /\ (forall id, _authIndex (socket id w') = _authIndex (socket id w))
    /\ (forall id, id <> websocket -> socket id w' = socket id w).
Proof.
  intros Hbad. unfold addConnection.
  rewrite (invalid_authIndex_guard _ Hbad). js_simpl.
  destruct (closeThrows (socket websocket w)) eqn:Hthrows;
    (eexists; split; [reflexivity |]);
    js_proj; rewrite lookup_insert_eq; cbn [default closeCalls];
    (repeat split; try reflexivity;
     [ intros id; destruct (decide (id = websocket)) as [-> | Hne];
       [ rewrite lookup_insert_eq | rewrite lookup_insert_ne by congruence ];
       reflexivity
     | intros id; destruct (decide (id = websocket)) as [-> | Hne];
       [ rewrite lookup_insert_eq | rewrite lookup_insert_ne by congruence ];
       reflexivity
     | intros id Hne; rewrite lookup_insert_ne by congruence; reflexivity ]).
Qed.

(** ** Routing of inbound frames *)

Lemma enqueue_all_app (xs ys : list Json) (q : MessageQueue) :
  enqueue_all (xs ++ ys) q = enqueue_all ys (enqueue_all xs q).
Proof. unfold enqueue_all. apply fold_left_app. Qed.

Lemma enqueue_all_open (delivered : list Json) (q : MessageQueue) :
  closed q = false ->
  enqueue_all delivered q = mkQueue (items q ++ delivered) false.
Proof.
  revert q. induction delivered as [| item rest IH]; intros q Hopen;
    unfold enqueue_all in *; cbn [fold_left].
  - rewrite app_nil_r. destruct q; cbn in *; congruence.
  - assert (mq_enqueue item q = mkQueue (items q ++ [item]) false) as ->
      by (unfold mq_enqueue; now rewrite Hopen).
    rewrite IH by reflexivity. cbn [items]. now rewrite <- app_assoc.
Qed.

(** A stream-close frame carries an [event_type] member, the marker does
    not: the two are never the same object. *)
Lemma stream_close_is_not_the_marker (frame : Json) :
  event_kind frame = Some "stream_close" -> STREAM_END <> frame.
Proof.
  intros Hkind <-. discriminate Hkind.
Qed.

Lemma routeMessage_routed (frame : Json) (q : QueueId) (w : World) :
  (exists v, get_property frame "event_type" = inr v) ->
  _routeMessage frame q w = (routed frame q w, Normal tt).
Proof.
  intros [v Hv]. unfold _routeMessage, routed, spec_delivery, event_kind.
  rewrite Hv.
  destruct v as [[| | | kind | |] |]; try reflexivity.
  destruct (String.eqb kind "response_headers"); [reflexivity |].
  destruct (String.eqb kind "chunk"); [reflexivity |].
  destruct (String.eqb kind "error"); [reflexivity |].
  destruct (String.eqb kind "stream_close"); reflexivity.
Qed.

Lemma routed_queue (frame : Json) (q : QueueId) (w : World) :
  queue q (routed frame q w) = enqueue_all (spec_delivery frame) (queue q w).
Proof.
  unfold routed.
  destruct (spec_delivery frame) as [| item rest] eqn:Hd.
  - destruct (get_property frame "event_type"); reflexivity.
  - js_simpl. now rewrite lookup_insert_eq.
Qed.

Lemma routed_other_queue (frame : Json) (q q' : QueueId) (w : World) :
  q' <> q -> queue q' (routed frame q w) = queue q' w.
Proof.
  intros Hne. unfold routed.
  destruct (spec_delivery frame) as [| item rest] eqn:Hd.
  - destruct (get_property frame "event_type"); reflexivity.
  - js_simpl. now rewrite lookup_insert_ne by congruence.
Qed.

Lemma routed_trace (frame : Json) (q : QueueId) (w : World) :
  trace (routed frame q w) = trace w ++ spec_warning frame.
Proof.
  unfold routed, spec_warning.
  destruct (spec_delivery frame) as [| item rest] eqn:Hd.
  - destruct (get_property frame "event_type"); cbn; [now rewrite app_nil_r | reflexivity].
  - js_simpl. destruct (get_property frame "event_type"); now rewrite app_nil_r.
Qed.

Lemma same_registry_refl (w : World) : same_registry w w.
Proof. repeat split. Qed.

Lemma same_registry_trans (w1 w2 w3 : World) :
  same_registry w1 w2 -> same_registry w2 w3 -> same_registry w1 w3.
Proof.
  unfold same_registry. intros H12 H23.
  repeat match goal with H : _ /\ _ |- _ => destruct H as [? H] end.
  repeat split; congruence.
Qed.

Lemma routed_same_registry (frame : Json) (q : QueueId) (w : World) :
  same_registry w (routed frame q w).
Proof.
  unfold routed.
  destruct (spec_delivery frame); [destruct (get_property frame "event_type") |];
    repeat split.
Qed.

Lemma delivery_by_kind (frame : Json) :
  (exists v, get_property frame "event_type" = inr v) -> delivery_cases frame.
Proof.
  intros [v Hv].
  assert (Hmarker : event_kind frame = Some "stream_close" -> STREAM_END <> frame)
    by apply stream_close_is_not_the_marker.
  unfold delivery_cases, spec_warning, spec_delivery, event_kind in *.
  rewrite Hv in *.
  split; [| split].
  - intros [H | [H | H]]; destruct v as [[] |]; try discriminate;
      injection H as ->; reflexivity.
  - intros H. split; [| exact (Hmarker H)].
    destruct v as [[] |]; try discriminate. injection H as ->. reflexivity.
  - intros H1 H2 H3 H4.
    destruct v as [[| b | n | kind | l | l] |];
      try (split; [reflexivity | eexists; reflexivity]).
    destruct (String.eqb_spec kind "response_headers") as [-> | _]; [congruence |].
    destruct (String.eqb_spec kind "chunk") as [-> | _]; [congruence |].
    destruct (String.eqb_spec kind "error") as [-> | _]; [congruence |].
    destruct (String.eqb_spec kind "stream_close") as [-> | _]; [congruence |].
    split; [reflexivity | eexists; reflexivity].
Qed.

Section Routing.

Variable JSON_parse : string -> option Json.

(** A frame that parses, names its request by a non-empty string and finds
    the queue registered: it is handed to [_routeMessage]. *)
Lemma handleIncomingMessage_routed
    (messageData : string) (frame : Json) (requestId : string) (q : QueueId) (w : World) :
  JSON_parse messageData = Some frame ->
  get_property frame "request_id" = inr (Some (JString requestId)) ->
  requestId <> "" ->
  messageQueues w !! requestId = Some q ->
  _handleIncomingMessage JSON_parse messageData w = (routed frame q w, Normal tt).
Proof.
  intros Hparse Hid Hne Hq. unfold _handleIncomingMessage.
  rewrite Hparse, Hid. cbn [truthy].
  destruct (String.eqb_spec requestId "") as [-> | _]; [congruence |].
  cbn [negb default id]. unfold try_catch, bind, gets. cbn [lookup_queue].
  rewrite Hq.
  rewrite routeMessage_routed; [reflexivity |].
  destruct frame; cbn in Hid |- *; try discriminate; eauto.
Qed.

(** C3. [_handleIncomingMessage] returns normally on every input.  A frame
    that does not parse, or parses to [null], leaves one error line in the
    log; a frame without a truthy [request_id] leaves one warning; a frame
    whose request has no registered queue leaves one warning.  In each of
    these cases nothing but the log changes: no queue is created and no map
    of the registry is touched. *)
Theorem C3_handleIncomingMessage_never_raises (messageData : string) (w : World) :
  exists w',
    _handleIncomingMessage JSON_parse messageData w = (w', Normal tt)
    /\ (JSON_parse messageData = None \/ JSON_parse messageData = Some JNull ->
        w' = add_effect (Logged LError FailedToParse) w)
    /\ (forall frame requestId,
          JSON_parse messageData = Some frame ->
          get_property frame "request_id" = inr requestId ->
          truthy requestId = false ->
          w' = add_effect (Logged LWarn MissingRequestId) w)
    /\ (forall frame requestId,
          JSON_parse messageData = Some frame ->
          get_property frame "request_id" = inr (Some requestId) ->
          truthy (Some requestId) = true ->
          lookup_queue requestId w = None ->
          w' = add_effect (Logged LWarn (UnknownRequestId requestId)) w
          /\ messageQueues w' = messageQueues w
          /\ queues w' = queues w
          /\ nextQueueId w' = nextQueueId w
          /\ same_registry w w').
Proof.
  unfold _handleIncomingMessage.
  destruct (JSON_parse messageData) as [frame |] eqn:Hparse.
  2:{ eexists. split; [reflexivity |]. split; [reflexivity |].
      split; intros; discriminate. }
  destruct (get_property frame "request_id") as [e | requestId] eqn:Hid.
  { eexists. split; [reflexivity |]. split; [reflexivity |].
    split; intros ? ? [= <-]; congruence. }
  assert (Hnotnull : frame <> JNull) by (intros ->; discriminate Hid).
  destruct (truthy requestId) eqn:Htruthy; cbn [negb].
  2:{ eexists. split; [reflexivity |].
      split; [intros [? | ?]; congruence |].
      split; [reflexivity |].
      intros ? ? [= <-] Hid'. rewrite Hid in Hid'. injection Hid' as ->.
      congruence. }
  destruct requestId as [requestId |]; [| discriminate Htruthy].
  cbn [default id]. unfold try_catch, bind, gets.
  destruct (lookup_queue requestId w) as [q |] eqn:Hq.
  - rewrite routeMessage_routed.
    2:{ destruct frame; cbn in Hid |- *; try discriminate; eauto. }
    eexists. split; [reflexivity |].
    split; [intros [? | ?]; congruence |].
    split.
    + intros ? ? [= <-] Hid'. rewrite Hid in Hid'. injection Hid' as <-. congruence.
    + intros ? ? [= <-] Hid'. rewrite Hid in Hid'. injection Hid' as <-. congruence.
  - eexists. split; [reflexivity |].
    split; [intros [? | ?]; congruence |].
    split.
    + intros ? ? [= <-] Hid'. rewrite Hid in Hid'. injection Hid' as <-. congruence.
    + intros ? ? [= <-] Hid'. rewrite Hid in Hid'. injection Hid' as <-.
      intros _ _. repeat split.
Qed.

(** C2. Frames of one request arriving while its queue is registered: the
    queue receives, in arrival order, each headers, chunk and error frame
    verbatim and one end-of-stream marker per stream-close frame (never the
    stream-close frame itself); a frame of another kind only leaves a warning
    in the log.  Nothing else changes. *)
Theorem C2_routing_preserves_order_and_translates_stream_close
    (requestId : string) (q : QueueId) (raw : list string) (frames : list Json) (w : World) :
  requestId <> "" ->
  messageQueues w !! requestId = Some q ->
  frames_of JSON_parse requestId raw frames ->
  exists w',
    for_each (_handleIncomingMessage JSON_parse) raw w = (w', Normal tt)
    /\ queue q w' = enqueue_all (flat_map spec_delivery frames) (queue q w)
    /\ (closed (queue q w) = false ->
        items (queue q w') = items (queue q w) ++ flat_map spec_delivery frames)
    /\ Forall delivery_cases frames
    /\ trace w' = trace w ++ flat_map spec_warning frames
    /\ (forall q', q' <> q -> queue q' w' = queue q' w)
    /\ same_registry w w'.
Proof.
  intros Hne Hq Hframes. revert w Hq.
  induction Hframes as [| messageData frame raw frames [Hparse Hid] Hrest IH]; intros w Hq.
  - exists w. cbn [for_each flat_map]. rewrite !app_nil_r.
    split; [reflexivity |]. split; [reflexivity |]. split; [reflexivity |].
    split; [constructor |]. split; [reflexivity |]. split; [reflexivity |].
    apply same_registry_refl.
  - cbn [for_each flat_map]. unfold bind at 1.
    rewrite (handleIncomingMessage_routed _ _ _ _ _ Hparse Hid Hne Hq).
    destruct (IH (routed frame q w)) as (w' & Hrun & Hqueue & _ & Hkinds & Htrace & Hother & Hsame).
    { destruct (routed_same_registry frame q w) as (_ & -> & _). exact Hq. }
    exists w'. split; [exact Hrun |].
    assert (Hall : queue q w' = enqueue_all (spec_delivery frame ++ flat_map spec_delivery frames) (queue q w)).
    { rewrite Hqueue, routed_queue, enqueue_all_app. reflexivity. }
    split; [exact Hall |].
    split.
    { intros Hopen. rewrite Hall, enqueue_all_open by exact Hopen. reflexivity. }
    split.
    { constructor; [| exact Hkinds].
      apply delivery_by_kind.
      destruct frame; cbn in Hid |- *; try discriminate; eauto. }
    split.
    { rewrite Htrace, routed_trace, <- app_assoc. reflexivity. }
    split.
    { intros q' Hq'. rewrite Hother by exact Hq'. now apply routed_other_queue. }
    eapply same_registry_trans; [apply routed_same_registry | exact Hsame].
Qed.

End Routing.

(** ** Force-closing the queues *)

Lemma world_eta (w : World) :
  mkWorld (connectionsByAuth w) (connectionKeys w) (messageQueues w) (reconnectGraceTimers w)
    (reconnectingAccounts w) (onConnectionLostCallback w) (getCurrentAuthIndex w)
    (browserManager w) (sockets w) (queues w) (nextQueueId w) (timers w)
    (nextTimerId w) (awaiting w) (trace w) = w.
Proof. reflexivity. Qed.

Lemma for_each_close (ids : list QueueId) (w : World) :
  for_each (fun q => try_catch (queue_close q) (fun _ => ret tt)) ids w
  = (set_queues (close_each ids) w, Normal tt).
Proof.
  revert w. induction ids as [| q rest IH]; intros w.
  - reflexivity.
  - cbn [for_each]. unfold bind at 1. js_simpl.
    rewrite IH. reflexivity.
Qed.

Lemma closeAllMessageQueues_eq (w : World) :
  closeAllMessageQueues w = (closed_all w, Normal tt).
Proof.
  unfold closeAllMessageQueues, closed_all.
  unfold bind at 1. unfold gets at 1.
  destruct (0 <? size (messageQueues w))%nat; [| reflexivity].
  unfold bind at 1. unfold log at 1, modify at 1.
  unfold bind at 1. unfold gets at 1.
  unfold bind at 1. rewrite for_each_close. reflexivity.
Qed.

Lemma close_each_closed (ids : list QueueId) (heap : gmap QueueId MessageQueue) (q : QueueId) :
  q ∈ ids -> closed (default new_queue (close_each ids heap !! q)) = true.
Proof.
  revert heap. induction ids as [| q0 rest IH] using rev_ind; intros heap Hin.
  - inversion Hin.
  - unfold close_each in *. rewrite fold_left_app. cbn [fold_left].
    unfold close_one at 1.
    destruct (decide (q = q0)) as [-> | Hne].
    + now rewrite lookup_insert_eq.
    + rewrite lookup_insert_ne by congruence. apply IH.
      apply elem_of_app in Hin as [Hin | Hin]; [exact Hin |].
      apply list_elem_of_singleton in Hin. congruence.
Qed.

Lemma close_each_other (ids : list QueueId) (heap : gmap QueueId MessageQueue) (q : QueueId) :
  q ∉ ids -> close_each ids heap !! q = heap !! q.
Proof.
  revert heap. induction ids as [| q0 rest IH]; intros heap Hnotin; [reflexivity |].
  unfold close_each in *. cbn [fold_left].
  rewrite IH by (intros Hin; apply Hnotin; now right).
  unfold close_one. apply lookup_insert_ne.
  intros ->. apply Hnotin. now left.
Qed.

Lemma close_each_items (ids : list QueueId) (heap : gmap QueueId MessageQueue) (q : QueueId) :
  items (default new_queue (close_each ids heap !! q)) = items (default new_queue (heap !! q)).
Proof.
  revert heap. induction ids as [| q0 rest IH]; intros heap; [reflexivity |].
  unfold close_each in *. cbn [fold_left]. rewrite IH.
  unfold close_one.
  destruct (decide (q = q0)) as [-> | Hne].
  - now rewrite lookup_insert_eq.
  - now rewrite lookup_insert_ne by congruence.
Qed.

(** After [closeAllMessageQueues] no queue is registered, every queue that
    was registered is closed, and the others are as before. *)
Lemma closed_all_messageQueues (w : World) : messageQueues (closed_all w) = ∅.
Proof.
  unfold closed_all.
  destruct (0 <? size (messageQueues w))%nat eqn:Hsize; [reflexivity |].
  apply Nat.ltb_ge in Hsize. apply map_size_empty_iff. lia.
Qed.

Lemma closed_all_closes (w : World) (requestId : string) (q : QueueId) :
  messageQueues w !! requestId = Some q -> closed (queue q (closed_all w)) = true.
Proof.
  intros Hq. unfold closed_all.
  destruct (0 <? size (messageQueues w))%nat eqn:Hsize.
  - js_simpl. apply close_each_closed.
    apply list_elem_of_fmap. exists (requestId, q). split; [reflexivity |].
    now apply elem_of_map_to_list.
  - apply Nat.ltb_ge in Hsize.
    assert (messageQueues w = ∅) as Hempty by (apply map_size_empty_iff; lia).
    rewrite Hempty in Hq. rewrite lookup_empty in Hq. discriminate.
Qed.

Lemma closed_all_other (w : World) (q : QueueId) :
  (forall requestId, messageQueues w !! requestId <> Some q) ->
  queue q (closed_all w) = queue q w.
Proof.
  intros Hfree. unfold closed_all.
  destruct (0 <? size (messageQueues w))%nat; [| reflexivity].
  js_simpl. rewrite close_each_other; [reflexivity |].
  intros Hin. apply list_elem_of_fmap in Hin as [[requestId q'] [-> Hin]].
  apply elem_of_map_to_list in Hin. now apply (Hfree requestId).
Qed.

Lemma closed_all_items (w : World) (q : QueueId) :
  items (queue q (closed_all w)) = items (queue q w).
Proof.
  unfold closed_all.
  destruct (0 <? size (messageQueues w))%nat; [| reflexivity].
  js_simpl. apply close_each_items.
Qed.

Lemma closed_all_same_connections (w : World) : same_connections w (closed_all w).
Proof.
  unfold closed_all. destruct (0 <? size (messageQueues w))%nat; repeat split.
Qed.

Lemma closed_all_no_callback (w : World) (a : Z) :
  CallbackInvoked a ∈ trace (closed_all w) -> CallbackInvoked a ∈ trace w.
Proof.
  unfold closed_all. destruct (0 <? size (messageQueues w))%nat; [| auto].
  js_simpl. intros Hin. apply elem_of_app in Hin as [Hin | Hin]; [exact Hin |].
  apply list_elem_of_singleton in Hin. discriminate.
Qed.

(** ** [addConnection] with a valid [authIndex], statement by statement *)

Lemma closeExisting_eq (websocket : WsId) (authIndex : Z) (w : World) :
  closeExisting websocket authIndex w = (existing_closed websocket authIndex w, Normal tt).
Proof.
  unfold closeExisting, existing_closed. js_simpl.
  destruct (connectionsByAuth w !! authIndex) as [existing |]; [| reflexivity].
  destruct (negb (existing =? websocket)%nat); [| reflexivity].
  js_simpl. rewrite lookup_insert_eq. cbn [default closeThrows _authIndex listeners closeCalls].
  destruct (closeThrows (socket existing w)); reflexivity.
Qed.

Lemma clearGraceTimer_eq (authIndex : Z) (w : World) :
  clearGraceTimer authIndex w = (grace_cleared authIndex w, Normal tt).
Proof.
  unfold clearGraceTimer, grace_cleared. js_simpl.
  destruct (reconnectGraceTimers w !! authIndex) as [timerId |]; [| reflexivity].
  js_simpl.
  destruct ((authIndex =? default (-1)%Z (getCurrentAuthIndex w))%Z
            && (0 <? size (messageQueues w))%nat); [| reflexivity].
  js_simpl. rewrite closeAllMessageQueues_eq. reflexivity.
Qed.

Lemma storeConnection_eq (websocket : WsId) (authIndex : Z) (address : string) (w : World) :
  storeConnection websocket authIndex address w
  = (connection_stored websocket authIndex address w, Normal tt).
Proof.
  unfold storeConnection, connection_stored, wired. js_simpl.
  repeat (rewrite lookup_insert_eq;
          cbn [default id _authIndex listeners closeCalls closeThrows]).
  f_equal. apply world_ext; js_proj; try reflexivity.
  rewrite !insert_insert_eq. rewrite <- !app_assoc. reflexivity.
Qed.

Lemma addConnection_valid (websocket : WsId) (clientInfo : ClientInfo) (w : World) :
  valid_authIndex (authIndex clientInfo) ->
  addConnection websocket clientInfo w = (connected websocket clientInfo w, Normal tt).
Proof.
  intros Hvalid. unfold addConnection. rewrite Hvalid.
  set (a := integer_value (authIndex clientInfo)).
  pose proof (closeExisting_eq websocket a w) as H1.
  pose proof (clearGraceTimer_eq a (existing_closed websocket a w)) as H2.
  pose proof (storeConnection_eq websocket a (address clientInfo)
                (grace_cleared a (existing_closed websocket a w))) as H3.
  unfold closeExisting in H1. unfold clearGraceTimer in H2. unfold storeConnection in H3.
  unfold connected. fold a.
  unfold bind at 1. unfold gets at 1.
  unfold bind at 1 in H1. unfold gets at 1 in H1.
  unfold bind at 1. rewrite H1.
  unfold bind at 1. unfold gets at 1.
  unfold bind at 1 in H2. unfold gets at 1 in H2.
  unfold bind at 1. rewrite H2.
  exact H3.
Qed.

Lemma grace_cleared_same (authIndex : Z) (w : World) :
  connectionsByAuth (grace_cleared authIndex w) = connectionsByAuth w
  /\ sockets (grace_cleared authIndex w) = sockets w
  /\ reconnectingAccounts (grace_cleared authIndex w) = reconnectingAccounts w
  /\ awaiting (grace_cleared authIndex w) = awaiting w
  /\ nextTimerId (grace_cleared authIndex w) = nextTimerId w
  /\ reconnectGraceTimers (grace_cleared authIndex w) = delete authIndex (reconnectGraceTimers w)
  /\ timers (grace_cleared authIndex w)
     = match reconnectGraceTimers w !! authIndex with
       | Some timerId => delete timerId (timers w)
       | None => timers w
       end.
Proof.
  unfold grace_cleared.
  destruct (reconnectGraceTimers w !! authIndex) as [timerId |] eqn:Hgrace.
  - destruct ((authIndex =? default (-1)%Z (getCurrentAuthIndex w))%Z
              && (0 <? size (messageQueues w))%nat).
    + match goal with |- context [closed_all ?w0] =>
        destruct (closed_all_same_connections w0) as (-> & -> & -> & -> & -> & -> & -> & _)
      end.
      repeat split.
    + repeat split.
  - repeat split. symmetry. now apply delete_id.
Qed.

Lemma existing_closed_same (websocket : WsId) (authIndex : Z) (w : World) :
  connectionsByAuth (existing_closed websocket authIndex w) = connectionsByAuth w
  /\ messageQueues (existing_closed websocket authIndex w) = messageQueues w
  /\ reconnectGraceTimers (existing_closed websocket authIndex w) = reconnectGraceTimers w
  /\ reconnectingAccounts (existing_closed websocket authIndex w) = reconnectingAccounts w
  /\ timers (existing_closed websocket authIndex w) = timers w
  /\ nextTimerId (existing_closed websocket authIndex w) = nextTimerId w
  /\ awaiting (existing_closed websocket authIndex w) = awaiting w
  /\ queues (existing_closed websocket authIndex w) = queues w
  /\ getCurrentAuthIndex (existing_closed websocket authIndex w) = getCurrentAuthIndex w
  /\ socket websocket (existing_closed websocket authIndex w) = socket websocket w.
Proof.
  unfold existing_closed.
  destruct (connectionsByAuth w !! authIndex) as [existing |]; [| repeat split].
  destruct (Nat.eqb_spec existing websocket) as [-> | Hne]; cbn [negb]; [repeat split |].
  destruct (closeThrows (socket existing w)); js_simpl;
    rewrite !lookup_insert_ne by congruence; repeat split.
Qed.

(** The connection being replaced, when the new one is about to be stored:
    still registered, without listeners, and closed as replaced. *)
Lemma existing_closed_old (websocket old : WsId) (authIndex : Z) (w : World) :
  connectionsByAuth w !! authIndex = Some old ->
  old <> websocket ->
  let mid := existing_closed websocket authIndex w in
  connectionsByAuth mid !! authIndex = Some old
  /\ listeners (socket old mid) = []
  /\ closeCalls (socket old mid)
     = closeCalls (socket old w) ++ [(Some 1000%Z, Some "Replaced by new connection")].
Proof.
  intros Hold Hne. cbn zeta.
  destruct (existing_closed_same websocket authIndex w) as (-> & _).
  split; [exact Hold |].
  unfold existing_closed. rewrite Hold.
  destruct (Nat.eqb_spec old websocket) as [-> | _]; [congruence |]. cbn [negb].
  destruct (closeThrows (socket old w)); js_simpl;
    rewrite !lookup_insert_eq; split; reflexivity.
Qed.

(** C1. In a series of [addConnection] calls for one valid account, after
    each call the lookup for the account yields the handle just added; and a
    different handle registered before the call is, at the point where the
    new one is stored, still the registered one, stripped of its listeners
    and closed with code 1000 "Replaced by new connection", and stays so
    through the end of the call. *)
Theorem C1_one_connection_per_account
    (n : option JsNumber) (calls : list (WsId * ClientInfo)) (w : World)
    (before after : list (WsId * ClientInfo)) (websocket : WsId) (clientInfo : ClientInfo) :
  valid_authIndex n ->
  Forall (fun call => authIndex call.2 = n) calls ->
  calls = before ++ (websocket, clientInfo) :: after ->
  let a := integer_value n in
  let w0 := register_all before w in
  let w1 := register_all (before ++ [(websocket, clientInfo)]) w in
  addConnection websocket clientInfo w0 = (w1, Normal tt)
  /\ connectionsByAuth w1 !! a = Some websocket
  /\ fst (getConnectionByAuth a w1) = add_effect (Logged LDebug (FoundConnection a)) w1
  /\ snd (getConnectionByAuth a w1) = Normal (Some websocket)
  /\ forall old,
       connectionsByAuth w0 !! a = Some old ->
       old <> websocket ->
       exists mid,
         w1 = connection_stored websocket a (address clientInfo) (grace_cleared a mid)
         /\ connectionsByAuth mid !! a = Some old
         /\ listeners (socket old mid) = []
         /\ closeCalls (socket old mid)
            = closeCalls (socket old w0) ++ [(Some 1000%Z, Some "Replaced by new connection")]
         /\ listeners (socket old w1) = []
         /\ closeCalls (socket old w1) = closeCalls (socket old mid).
Proof.
  intros Hvalid Hsame Hsplit a w0 w1.
  assert (Hn : authIndex clientInfo = n).
  { subst calls. apply Forall_app in Hsame as [_ Hsame].
    apply Forall_cons in Hsame as [Hsame _]. exact Hsame. }
  assert (Hw1 : w1 = connected websocket clientInfo w0).
  { subst w1 w0. unfold register_all. rewrite fold_left_app. cbn [fold_left fst snd].
    unfold exec. rewrite addConnection_valid by (rewrite Hn; exact Hvalid). reflexivity. }
  assert (Hlookup : connectionsByAuth w1 !! a = Some websocket).
  { rewrite Hw1. unfold connected, connection_stored. js_simpl.
    rewrite Hn. apply lookup_insert_eq. }
  split.
  { rewrite Hw1. apply addConnection_valid. rewrite Hn. exact Hvalid. }
  split; [exact Hlookup |].
  split; [unfold getConnectionByAuth; js_simpl; rewrite Hlookup; reflexivity |].
  split; [unfold getConnectionByAuth; js_simpl; rewrite Hlookup; reflexivity |].
  intros old Hold Hne.
  exists (existing_closed websocket a w0).
  destruct (existing_closed_old websocket old a w0 Hold Hne) as (Hmid & Hlisteners & Hcalls).
  split; [rewrite Hw1; unfold connected; rewrite Hn; reflexivity |].
  split; [exact Hmid |]. split; [exact Hlisteners |]. split; [exact Hcalls |].
  assert (Hsocket : socket old w1 = socket old (existing_closed websocket a w0)).
  { rewrite Hw1. unfold connected, connection_stored. js_simpl. rewrite Hn. fold a.
    rewrite lookup_insert_ne by congruence.
    destruct (grace_cleared_same a (existing_closed websocket a w0)) as (_ & -> & _).
    reflexivity. }
  rewrite Hsocket. split; [exact Hlisteners | reflexivity].
Qed.

(** ** Registering the same socket again *)

Lemma concat_repeat_snoc {A} (l : list A) (k : nat) :
  concat (repeat l k) ++ l = concat (repeat l (S k)).
Proof.
  induction k as [| k IH]; cbn [repeat concat] in *.
  - now rewrite app_nil_r.
  - rewrite <- app_assoc. now rewrite IH.
Qed.

Lemma listeners_for_app (event : WsEvent) (xs ys : list (WsEvent * Listener)) :
  listeners_for event (xs ++ ys) = listeners_for event xs ++ listeners_for event ys.
Proof.
  induction xs as [| [e l] xs IH]; [reflexivity |].
  cbn [app listeners_for]. destruct (ws_event_eqb e event); cbn [app]; now rewrite IH.
Qed.

Lemma listeners_for_registrations (websocket : WsId) (k : nat) :
  listeners_for EvMessage (concat (repeat (handlers websocket) k)) = repeat OnMessage k
  /\ listeners_for EvClose (concat (repeat (handlers websocket) k))
     = repeat (OnClose websocket) k.
Proof.
  induction k as [| k [IHm IHc]]; [split; reflexivity |].
  cbn [repeat concat]. rewrite !listeners_for_app, IHm, IHc. split; reflexivity.
Qed.

Lemma for_each_repeat {A} (f : A -> JS unit) (x : A) (n : nat) (w : World) :
  for_each f (repeat x n) w = times n (f x) w.
Proof.
  revert w. unfold times. induction n as [| n IH]; intros w; [reflexivity |].
  cbn [repeat for_each]. unfold bind.
  destruct (f x w) as [w' [[] | e]]; [apply IH | reflexivity].
Qed.

Section Registration.

Variable JSON_parse : string -> option Json.

Lemma times_routed (n : nat) (messageData : string) (frame : Json) (requestId : string)
    (q : QueueId) (w : World) :
  JSON_parse messageData = Some frame ->
  get_property frame "request_id" = inr (Some (JString requestId)) ->
  requestId <> "" ->
  messageQueues w !! requestId = Some q ->
  queue q (exec (times n (_handleIncomingMessage JSON_parse messageData)) w)
  = enqueue_all (concat (repeat (spec_delivery frame) n)) (queue q w).
Proof.
  intros Hparse Hid Hne. revert w.
  induction n as [| n IH]; intros w Hq; [reflexivity |].
  unfold times, exec in *. cbn [repeat for_each concat]. unfold bind.
  rewrite (handleIncomingMessage_routed _ _ _ _ _ _ Hparse Hid Hne Hq).
  rewrite IH.
  - rewrite routed_queue, enqueue_all_app. reflexivity.
  - destruct (routed_same_registry frame q w) as (_ & -> & _). exact Hq.
Qed.

(** C10. [addConnection] called with the socket that is already registered
    for its account: the socket is not closed and stays registered, and one
    more set of message, close and error listeners is attached to it.  From
    then on a [message] event runs [_handleIncomingMessage] once per
    registration, so a routed frame reaches its queue that many times, and
    the [close] event runs [_removeConnection] once per registration. *)
Theorem C10_same_socket_registered_again
    (websocket : WsId) (clientInfo : ClientInfo) (k : nat) (w : World) :
  valid_authIndex (authIndex clientInfo) ->
  connectionsByAuth w !! integer_value (authIndex clientInfo) = Some websocket ->
  listeners (socket websocket w) = concat (repeat (handlers websocket) k) ->
  let a := integer_value (authIndex clientInfo) in
  let w1 := connected websocket clientInfo w in
  addConnection websocket clientInfo w = (w1, Normal tt)
  /\ closeCalls (socket websocket w1) = closeCalls (socket websocket w)
  /\ connectionsByAuth w1 !! a = Some websocket
  /\ listeners (socket websocket w1) = concat (repeat (handlers websocket) (S k))
  /\ (forall payload,
        ws_emit JSON_parse websocket EvMessage payload w1
        = times (S k) (_handleIncomingMessage JSON_parse payload) w1)
  /\ (forall payload,
        ws_emit JSON_parse websocket EvClose payload w1
        = times (S k) (_removeConnection websocket) w1)
  /\ (forall payload frame requestId q,
        JSON_parse payload = Some frame ->
        get_property frame "request_id" = inr (Some (JString requestId)) ->
        requestId <> "" ->
        messageQueues w1 !! requestId = Some q ->
        queue q (exec (ws_emit JSON_parse websocket EvMessage payload) w1)
        = enqueue_all (concat (repeat (spec_delivery frame) (S k))) (queue q w1)).
Proof.
  intros Hvalid Hreg Hlisteners a w1.
  assert (Hsock : socket websocket w1 = wired websocket a (socket websocket w)).
  { subst w1. unfold connected, connection_stored. js_simpl. fold a.
    rewrite lookup_insert_eq. cbn [default id].
    destruct (grace_cleared_same a (existing_closed websocket a w)) as (_ & -> & _).
    destruct (existing_closed_same websocket a w) as (_ & _ & _ & _ & _ & _ & _ & _ & _ & ->).
    reflexivity. }
  assert (Hl1 : listeners (socket websocket w1) = concat (repeat (handlers websocket) (S k))).
  { rewrite Hsock. unfold wired. cbn [listeners]. rewrite Hlisteners.
    apply concat_repeat_snoc. }
  destruct (listeners_for_registrations websocket (S k)) as [Hmsg Hclose].
  assert (Hemit_message : forall payload,
            ws_emit JSON_parse websocket EvMessage payload w1
            = times (S k) (_handleIncomingMessage JSON_parse payload) w1).
  { intros payload. unfold ws_emit. unfold bind, gets.
    rewrite Hl1, Hmsg. apply (for_each_repeat (run_listener JSON_parse payload)). }
  split; [apply addConnection_valid; exact Hvalid |].
  split; [rewrite Hsock; reflexivity |].
  split.
  { subst w1. unfold connected, connection_stored. js_simpl. apply lookup_insert_eq. }
  split; [exact Hl1 |].
  split; [exact Hemit_message |].
  split.
  { intros payload. unfold ws_emit. unfold bind, gets.
    rewrite Hl1, Hclose. apply (for_each_repeat (run_listener JSON_parse payload)). }
  intros payload frame requestId q Hparse Hid Hne Hq.
  unfold exec. rewrite Hemit_message.
  apply (times_routed (S k) payload frame requestId q w1 Hparse Hid Hne Hq).
Qed.

End Registration.

(** ** Queues at registration *)

Lemma grace_cleared_closes (authIndex : Z) (timerId : TimerId) (w : World) :
  reconnectGraceTimers w !! authIndex = Some timerId ->
  getCurrentAuthIndex w = Some authIndex ->
  (0 < size (messageQueues w))%nat ->
  messageQueues (grace_cleared authIndex w) = ∅
  /\ forall requestId q,
       messageQueues w !! requestId = Some q ->
       closed (queue q (grace_cleared authIndex w)) = true.
Proof.
  intros Hgrace Hcurrent Hsize. unfold grace_cleared.
  rewrite Hgrace, Hcurrent. cbn [default id].
  rewrite Z.eqb_refl. apply Nat.ltb_lt in Hsize. rewrite Hsize. cbn [andb].
  split; [apply closed_all_messageQueues |].
  intros requestId q Hq. now apply (closed_all_closes _ requestId).
Qed.

Lemma grace_cleared_keeps (authIndex : Z) (w : World) :
  reconnectGraceTimers w !! authIndex = None
  \/ default (-1)%Z (getCurrentAuthIndex w) <> authIndex
  \/ messageQueues w = ∅ ->
  messageQueues (grace_cleared authIndex w) = messageQueues w
  /\ queues (grace_cleared authIndex w) = queues w.
Proof.
  intros Hcase. unfold grace_cleared.
  destruct (reconnectGraceTimers w !! authIndex) as [timerId |]; [| split; reflexivity].
  destruct Hcase as [Hcase | [Hcase | Hcase]]; [discriminate | |].
  - destruct (Z.eqb_spec authIndex (default (-1)%Z (getCurrentAuthIndex w)));
      [congruence | split; reflexivity].
  - replace (0 <? size (messageQueues w))%nat with false
      by (now rewrite Hcase, map_size_empty).
    rewrite andb_false_r. split; reflexivity.
Qed.

Lemma connection_stored_queues (websocket : WsId) (authIndex : Z) (address : string)
    (w : World) :
  messageQueues (connection_stored websocket authIndex address w) = messageQueues w
  /\ queues (connection_stored websocket authIndex address w) = queues w.
Proof. split; reflexivity. Qed.

(** C7 as worded fails when account 0, which is current, connects for the
    first time while the queue of request [r1] exists: the queue stays
    open. *)
Lemma C7_first_registration_keeps_queues : ~ C7_as_stated.
Proof.
  intros Hclaim.
  specialize (Hclaim 1 (client 0)
                (run no_parser [CreateQueue "r1"] (new_registry None (Some 0%Z) None))).
  specialize (Hclaim eq_refl eq_refl).
  assert (Hsize : (0 < size (messageQueues
             (run no_parser [CreateQueue "r1"] (new_registry None (Some 0%Z) None))))%nat)
    by (vm_compute; lia).
  specialize (Hclaim Hsize "r1" 0 eq_refl).
  vm_compute in Hclaim. discriminate Hclaim.
Qed.

(** C7, amended. [addConnection] for the current account while queues exist
    closes every queue and empties the queue map when the account has a
    grace-timer entry, that is, when it reconnects within its grace period;
    without such an entry the queues and the queue map are left as they
    are. *)
Theorem C7_reconnect_of_current_account_closes_queues
    (websocket : WsId) (clientInfo : ClientInfo) (w : World) :
  valid_authIndex (authIndex clientInfo) ->
  getCurrentAuthIndex w = Some (integer_value (authIndex clientInfo)) ->
  (0 < size (messageQueues w))%nat ->
  let a := integer_value (authIndex clientInfo) in
  let w' := connected websocket clientInfo w in
  addConnection websocket clientInfo w = (w', Normal tt)
  /\ (forall timerId,
        reconnectGraceTimers w !! a = Some timerId ->
        messageQueues w' = ∅
        /\ forall requestId q,
             messageQueues w !! requestId = Some q -> closed (queue q w') = true)
  /\ (reconnectGraceTimers w !! a = None ->
      messageQueues w' = messageQueues w /\ queues w' = queues w).
Proof.
  intros Hvalid Hcurrent Hsize a w'.
  split; [now apply addConnection_valid |].
  destruct (existing_closed_same websocket a w)
    as (_ & Hmq & Hgrace & _ & _ & _ & _ & Hqueues & Hcur & _).
  subst w'. unfold connected. fold a.
  destruct (connection_stored_queues websocket a (address clientInfo)
              (grace_cleared a (existing_closed websocket a w))) as [-> ->].
  split.
  - intros timerId Hentry.
    destruct (grace_cleared_closes a timerId (existing_closed websocket a w)) as [Hempty Hall].
    + now rewrite Hgrace.
    + now rewrite Hcur.
    + now rewrite Hmq.
    + split; [exact Hempty |].
      intros requestId q Hq. apply (Hall requestId). now rewrite Hmq.
  - intros Hnone.
    destruct (grace_cleared_keeps a (existing_closed websocket a w)) as [-> ->].
    + left. now rewrite Hgrace.
    + split; assumption.
Qed.

(** ** Registration calls no recovery callback *)

Ltac not_a_callback :=
  repeat match goal with
    | H : _ ∈ _ ++ [_] |- _ =>
        apply elem_of_app in H as [H | H];
        [| apply list_elem_of_singleton in H; discriminate H]
    end.

Lemma existing_closed_no_callback (websocket : WsId) (authIndex b : Z) (w : World) :
  CallbackInvoked b ∈ trace (existing_closed websocket authIndex w) ->
  CallbackInvoked b ∈ trace w.
Proof.
  unfold existing_closed.
  destruct (connectionsByAuth w !! authIndex) as [existing |]; [| auto].
  destruct (negb (existing =? websocket)%nat); [| auto].
  destruct (closeThrows (socket existing w)); js_simpl; intros Hin;
    not_a_callback; exact Hin.
Qed.

Lemma grace_cleared_no_callback (authIndex b : Z) (w : World) :
  CallbackInvoked b ∈ trace (grace_cleared authIndex w) -> CallbackInvoked b ∈ trace w.
Proof.
  unfold grace_cleared.
  destruct (reconnectGraceTimers w !! authIndex) as [timerId |]; [| auto].
  destruct ((authIndex =? default (-1)%Z (getCurrentAuthIndex w))%Z
            && (0 <? size (messageQueues w))%nat).
  - intros Hin. apply closed_all_no_callback in Hin. js_simpl.
    not_a_callback. exact Hin.
  - js_simpl. intros Hin. not_a_callback. exact Hin.
Qed.

Lemma connected_no_callback (websocket : WsId) (clientInfo : ClientInfo) (b : Z) (w : World) :
  CallbackInvoked b ∈ trace (connected websocket clientInfo w) -> CallbackInvoked b ∈ trace w.
Proof.
  unfold connected, connection_stored. js_simpl. intros Hin. not_a_callback.
  apply grace_cleared_no_callback in Hin.
  now apply existing_closed_no_callback in Hin.
Qed.

(** ** Teardown and the grace timer, in closed form *)

Lemma queues_settled_same (a : Z) (w : World) :
  same_connections w (queues_settled a w).
Proof.
  unfold queues_settled.
  destruct (a =? default (-1)%Z (getCurrentAuthIndex w))%Z; [| repeat split].
  apply (closed_all_same_connections (add_effect (Logged LInfo (GracePeriodEnded a)) w)).
Qed.

Lemma graceTimerCallback_eq (a : Z) (w : World) :
  graceTimerCallback a w = (grace_expired a w, expiry_completion a w).
Proof.
  destruct (queues_settled_same a w) as (_ & _ & Hflag & _ & _ & _ & _ & _ & Hcb & _).
  unfold graceTimerCallback, grace_expired, expiry_completion, catch_completion,
    recovery_threw, recovery_suspended, recovery_called, marked_reconnecting, lost_finalized.
  rewrite <- Hcb, <- Hflag. clear Hcb Hflag.
  unfold queues_settled. js_simpl.
  destruct (a =? default (-1)%Z (getCurrentAuthIndex w))%Z.
  - rewrite closeAllMessageQueues_eq.
    set (w2 := closed_all (add_effect (Logged LInfo (GracePeriodEnded a)) w)).
    js_proj.
    destruct (onConnectionLostCallback w2) as [callback |]; [| reflexivity].
    destruct (negb (default false (reconnectingAccounts w2 !! a))); [| reflexivity].
    js_proj. destruct (callback a) as [[| | message] |]; reflexivity.
  - js_proj.
    destruct (onConnectionLostCallback w) as [callback |]; [| reflexivity].
    destruct (negb (default false (reconnectingAccounts w !! a))); [| reflexivity].
    js_proj. destruct (callback a) as [[| | message] |]; reflexivity.
Qed.

Lemma graceTimerResume_eq (timeoutId : TimerId) (how : Settlement) (w : World) :
  graceTimerResume timeoutId how w
  = (resumed timeoutId how w, resume_completion timeoutId how w).
Proof.
  unfold graceTimerResume, resumed, resume_completion, settlement_completion,
    catch_completion, attempt_closed, lost_finalized, settlement_logged.
  js_simpl.
  destruct (awaiting w !! timeoutId) as [a |]; [| reflexivity].
  destruct how as [| [| | message]]; reflexivity.
Qed.

Lemma fire_eq (id : TimerId) (w : World) : fire id w = (fired id w, fire_completion id w).
Proof.
  unfold fire, fired, fire_completion. js_simpl.
  destruct (timers w !! id) as [timer |]; [| reflexivity].
  destruct (task timer) as [a |].
  - rewrite graceTimerCallback_eq. reflexivity.
  - rewrite graceTimerResume_eq. unfold resume_completion. js_proj.
    destruct (awaiting w !! id); reflexivity.
Qed.

(** The cases of [resumed]: how the race ended, and with which reason. *)
Ltac resumed_cases how :=
  unfold resumed, attempt_closed, settlement_logged, lost_finalized;
  destruct how as [| [| | ?message]];
  cbn [rejected_nullish nullish message_of].

Lemma fire_grace_eq (id : TimerId) (a d : Z) (w : World) :
  timers w !! id = Some (mkTimer (GraceExpiry a) d) ->
  fire id w = (grace_expired a (set_timers (delete id) w), expiry_completion a w).
Proof.
  intros Hpending. rewrite fire_eq. unfold fired, fire_completion.
  now rewrite Hpending.
Qed.


Lemma expiry_completion_normal (a : Z) (w : World) :
  fails_at_once a w = false -> expiry_completion a w = Normal tt.
Proof.
  unfold fails_at_once, expiry_completion, catch_completion.
  destruct (onConnectionLostCallback w) as [callback |]; [| reflexivity].
  destruct (negb (default false (reconnectingAccounts w !! a))); [| reflexivity].
  destruct (callback a) as [[| | message] |]; cbn; congruence.
Qed.

Lemma expiry_completion_thrown (a : Z) (w : World) :
  fails_at_once a w = true -> exists e, expiry_completion a w = Thrown e.
Proof.
  unfold fails_at_once, expiry_completion, catch_completion.
  destruct (onConnectionLostCallback w) as [callback |]; [| discriminate].
  destruct (negb (default false (reconnectingAccounts w !! a))); [| discriminate].
  destruct (callback a) as [[| | message] |]; cbn; try discriminate; eauto.
Qed.


Lemma settlement_completion_thrown (how : Settlement) :
  rejected_nullish how = true -> exists e, settlement_completion how = Thrown e.
Proof. destruct how as [| [| | message]]; cbn; try discriminate; eauto. Qed.

Lemma removeConnection_eq (websocket : WsId) (w : World) :
  _removeConnection websocket w = (removed websocket w, Normal tt).
Proof.
  unfold _removeConnection, removed, page_is_gone, reconnect_skipped, grace_started.
  js_simpl.
  destruct (_authIndex (socket websocket w)) as [a |]; [| reflexivity].
  destruct (0 <=? a)%Z; [| reflexivity].
  js_proj.
  destruct (match browserManager w with
            | Some contexts => page_gone contexts a
            | None => false
            end); js_proj;
    destruct (reconnectGraceTimers w !! a) as [timerId |]; reflexivity.
Qed.

Lemma closeConnectionByAuth_eq (a : Z) (w : World) :
  closeConnectionByAuth a w = (closed_by_auth a w, Normal tt).
Proof.
  unfold closeConnectionByAuth, closed_by_auth. js_simpl.
  destruct (connectionsByAuth w !! a) as [connection |]; [| reflexivity].
  js_proj.
  destruct (closeThrows (socket connection w)); js_proj;
    destruct (reconnectGraceTimers w !! a) as [timerId |]; reflexivity.
Qed.

Lemma createMessageQueue_eq (requestId : string) (w : World) :
  createMessageQueue requestId w = (queue_created requestId w, Normal (nextQueueId w)).
Proof. reflexivity. Qed.

Lemma removeMessageQueue_eq (requestId : string) (w : World) :
  removeMessageQueue requestId w = (queue_removed requestId w, Normal tt).
Proof.
  unfold removeMessageQueue, queue_removed. js_simpl.
  destruct (messageQueues w !! requestId); reflexivity.
Qed.

Lemma getConnectionByAuth_eq (a : Z) (w : World) :
  getConnectionByAuth a w = (looked_up a w, Normal (connectionsByAuth w !! a)).
Proof.
  unfold getConnectionByAuth, looked_up. js_simpl.
  destruct (connectionsByAuth w !! a); reflexivity.
Qed.

(** ** The part of the world the reconnect state machine lives in *)

Ltac core_simpl :=
  unfold clear_grace, conn_delete, conn_insert, start_grace, suspend, finish_attempt,
    timer_delete in *;
  cbn [c_connections c_graceTimers c_reconnecting c_timers c_nextTimer c_awaiting] in *.

Ltac in_delete H :=
  match type of H with
  | delete ?i _ !! ?j = _ =>
      destruct (decide (i = j)) as [<- | ?];
      [rewrite lookup_delete_eq in H; discriminate H
      | rewrite lookup_delete_ne in H by assumption]
  end.

Ltac in_insert H :=
  match type of H with
  | <[?i := _]> _ !! ?j = _ =>
      destruct (decide (i = j)) as [<- | ?];
      [rewrite lookup_insert_eq in H
      | rewrite lookup_insert_ne in H by assumption]
  end.

Lemma delete_lookup_None {K A} `{Countable K} (m : gmap K A) (i j : K) :
  m !! j = None -> delete i m !! j = None.
Proof. intros Hj. apply lookup_delete_None. now right. Qed.

Lemma inv_drop a t c : Inv c -> Inv (clear_grace a t c).
Proof.
  intros [I1 I2 I3 I4 I5 I6 I7 I8 I9].
  constructor; core_simpl; try assumption.
  - intros t' tm H. in_delete H. eauto.
  - intros t' b tm H1 H2. in_delete H2. eauto.
  - intros b t' H. in_delete H. eauto.
  - intros b t' H. in_delete H.
    destruct (decide (t = t')) as [<- | Hne]; [right; apply lookup_delete_eq |].
    rewrite lookup_delete_ne by exact Hne. eauto.
  - intros b t' H. in_delete H. eauto.
Qed.

Lemma inv_timer_delete t c : Inv c -> Inv (timer_delete t c).
Proof.
  intros [I1 I2 I3 I4 I5 I6 I7 I8 I9].
  constructor; core_simpl; try assumption.
  - intros t' tm H. in_delete H. eauto.
  - intros t' b tm H1 H2. in_delete H2. eauto.
  - intros b t' H.
    destruct (decide (t = t')) as [<- | Hne]; [right; apply lookup_delete_eq |].
    rewrite lookup_delete_ne by exact Hne. eauto.
Qed.

Lemma inv_suspend t a d c :
  Inv c ->
  c_timers c !! t = Some (mkTimer (GraceExpiry a) d) ->
  c_reconnecting c !! a <> Some true ->
  Inv (suspend t a c).
Proof.
  intros [I1 I2 I3 I4 I5 I6 I7 I8 I9] Ht Hflag.
  assert (Hnone : forall tid, c_awaiting c !! tid <> Some a).
  { intros tid Htid. apply Hflag. apply I7. eauto. }
  pose proof (I1 _ _ Ht) as Htlt.
  constructor; core_simpl; try assumption.
  - intros t' tm H. in_insert H; [lia |]. in_delete H. apply I1 in H. lia.
  - intros t' b H. in_insert H; [lia |]. apply I2 in H. lia.
  - intros t' b tm H1 H2. in_insert H2; [now injection H2 as <- |].
    in_delete H2. rewrite lookup_insert_ne in H1 by assumption. eauto.
  - intros b t' H. apply I4 in H. lia.
  - intros b t' H. pose proof (I4 _ _ H) as Hlt.
    rewrite lookup_insert_ne by lia.
    destruct (decide (t = t')) as [<- | Hne]; [right; apply lookup_delete_eq |].
    rewrite lookup_delete_ne by exact Hne. eauto.
  - intros b. destruct (decide (a = b)) as [<- | Hne].
    + rewrite lookup_insert_eq. split; [| reflexivity].
      intros _. exists (c_nextTimer c). apply lookup_insert_eq.
    + rewrite lookup_insert_ne by assumption. rewrite I7.
      split; intros [tid Htid].
      * exists tid. rewrite lookup_insert_ne; [assumption |]. apply I2 in Htid. lia.
      * in_insert Htid; [congruence | eauto].
  - intros b. destruct (decide (a = b)) as [<- | Hne].
    + rewrite lookup_insert_eq. discriminate.
    + rewrite lookup_insert_ne by assumption. apply I8.
  - intros t1 t2 b H1 H2.
    in_insert H1; in_insert H2; try reflexivity.
    + injection H1 as <-. now destruct (Hnone t2).
    + injection H2 as <-. now destruct (Hnone t1).
    + eauto.
Qed.

Lemma inv_finish_attempt tid a c :
  Inv c ->
  c_awaiting c !! tid = Some a ->
  Inv (finish_attempt tid a c).
Proof.
  intros [I1 I2 I3 I4 I5 I6 I7 I8 I9] Htid.
  constructor; core_simpl; try assumption.
  - intros t' b H. in_delete H. eauto.
  - intros t' b tm H1 H2. in_delete H1. eauto.
  - intros b. destruct (decide (a = b)) as [<- | Hne].
    + rewrite lookup_delete_eq. split; [discriminate |].
      intros [tid' Htid']. in_delete Htid'.
      specialize (I9 _ _ _ Htid Htid'). congruence.
    + rewrite lookup_delete_ne by assumption. rewrite I7.
      split; intros [tid' Htid'].
      * exists tid'. rewrite lookup_delete_ne; [assumption |]. intros <-. congruence.
      * in_delete Htid'. eauto.
  - intros b. destruct (decide (a = b)) as [<- | Hne].
    + rewrite lookup_delete_eq. discriminate.
    + rewrite lookup_delete_ne by assumption. apply I8.
  - intros t1 t2 b H1 H2. in_delete H1. in_delete H2. eauto.
Qed.

Lemma inv_conn_delete a c : Inv c -> Inv (conn_delete a c).
Proof.
  intros [I1 I2 I3 I4 I5 I6 I7 I8 I9].
  constructor; core_simpl; try assumption.
  intros b t' H. apply delete_lookup_None. eauto.
Qed.

Lemma inv_conn_insert a ws c : Inv c -> c_graceTimers c !! a = None -> Inv (conn_insert a ws c).
Proof.
  intros [I1 I2 I3 I4 I5 I6 I7 I8 I9] Ha.
  constructor; core_simpl; try assumption.
  intros b t' H. rewrite lookup_insert_ne; [eauto | congruence].
Qed.

Lemma inv_start_grace a c : Inv c -> c_connections c !! a = None -> Inv (start_grace a c).
Proof.
  intros [I1 I2 I3 I4 I5 I6 I7 I8 I9] Ha.
  assert (Hold : forall t tm,
            match c_graceTimers c !! a with
            | Some t0 => delete t0 (c_timers c)
            | None => c_timers c
            end !! t = Some tm -> c_timers c !! t = Some tm).
  { intros t tm. destruct (c_graceTimers c !! a); [| auto].
    intros H. in_delete H. assumption. }
  constructor; core_simpl; try assumption.
  - intros t tm H. in_insert H; [lia |]. apply Hold in H. apply I1 in H. lia.
  - intros t b H. apply I2 in H. lia.
  - intros t b tm H1 H2. in_insert H2.
    + apply I2 in H1. lia.
    + apply Hold in H2. eauto.
  - intros b t H. in_insert H; [injection H as <-; lia |]. apply I4 in H. lia.
  - intros b t H. in_insert H.
    + injection H as <-. left. exists gracePeriodMs. now rewrite lookup_insert_eq.
    + pose proof (I4 _ _ H) as Hlt.
      rewrite lookup_insert_ne by lia.
      destruct (c_graceTimers c !! a) as [t0 |] eqn:E; [| eauto].
      destruct (decide (t0 = t)) as [<- | Hne]; [right; apply lookup_delete_eq |].
      rewrite lookup_delete_ne by exact Hne. eauto.
  - intros b t H. in_insert H; [assumption | eauto].
Qed.

Lemma core_same_connections (w w' : World) :
  same_connections w w' -> core w' = core w.
Proof.
  intros (H1 & H2 & H3 & H4 & H5 & H6 & _). unfold core. congruence.
Qed.

Lemma core_same_registry (w w' : World) :
  same_registry w w' -> core w' = core w.
Proof.
  intros (H1 & _ & H2 & H3 & H4 & H5 & H6 & _). unfold core. congruence.
Qed.

Lemma inv_new_registry callback current manager :
  Inv (core (new_registry callback current manager)).
Proof.
  constructor; cbn; intros;
    repeat match goal with
      | H : ∅ !! _ = Some _ |- _ => rewrite lookup_empty in H; discriminate H
      end.
  - split; [intros H | intros [tid H]]; rewrite lookup_empty in H; discriminate H.
  - rewrite lookup_empty. discriminate.
Qed.

(** *** [addConnection] *)

Lemma addConnection_invalid (websocket : WsId) (clientInfo : ClientInfo) (w : World) :
  is_undefined (authIndex clientInfo) || lt_zero (authIndex clientInfo)
  || negb (Number_isInteger (authIndex clientInfo)) = true ->
  addConnection websocket clientInfo w
  = (rejected websocket (authIndex clientInfo) w, Normal tt).
Proof.
  intros Hbad. unfold addConnection, rejected. rewrite Hbad. js_simpl.
  destruct (closeThrows (socket websocket w)); reflexivity.
Qed.

Lemma addConnection_total (websocket : WsId) (clientInfo : ClientInfo) (w : World) :
  addConnection websocket clientInfo w
  = (if is_undefined (authIndex clientInfo) || lt_zero (authIndex clientInfo)
        || negb (Number_isInteger (authIndex clientInfo))
     then rejected websocket (authIndex clientInfo) w
     else connected websocket clientInfo w, Normal tt).
Proof.
  destruct (is_undefined (authIndex clientInfo) || lt_zero (authIndex clientInfo)
            || negb (Number_isInteger (authIndex clientInfo))) eqn:Hguard.
  - now apply addConnection_invalid.
  - now apply addConnection_valid.
Qed.

Lemma core_existing_closed (websocket : WsId) (a : Z) (w : World) :
  core (existing_closed websocket a w) = core w.
Proof.
  destruct (existing_closed_same websocket a w)
    as (H1 & _ & H2 & H3 & H4 & H5 & H6 & _).
  unfold core. congruence.
Qed.

Lemma core_grace_cleared (a : Z) (w : World) :
  core (grace_cleared a w)
  = match reconnectGraceTimers w !! a with
    | Some timerId => clear_grace a timerId (core w)
    | None => core w
    end.
Proof.
  destruct (grace_cleared_same a w) as (H1 & _ & H3 & H4 & H5 & H6 & H7).
  unfold core, clear_grace. cbn [c_connections c_graceTimers c_reconnecting c_timers
                                   c_nextTimer c_awaiting].
  rewrite H1, H3, H4, H5, H6, H7.
  destruct (reconnectGraceTimers w !! a) eqn:Hentry; [reflexivity |].
  now rewrite delete_id.
Qed.

Lemma inv_connected (websocket : WsId) (clientInfo : ClientInfo) (w : World) :
  Inv (core w) -> Inv (core (connected websocket clientInfo w)).
Proof.
  intros I. unfold connected.
  set (a := integer_value (authIndex clientInfo)).
  set (w1 := existing_closed websocket a w).
  assert (I1 : Inv (core w1)) by (subst w1; now rewrite core_existing_closed).
  assert (I2 : Inv (core (grace_cleared a w1))).
  { rewrite core_grace_cleared.
    destruct (reconnectGraceTimers w1 !! a) as [timerId |] eqn:Hentry; [| exact I1].
    now apply inv_drop. }
  change (core (connection_stored websocket a (address clientInfo) (grace_cleared a w1)))
    with (conn_insert a websocket (core (grace_cleared a w1))).
  apply inv_conn_insert; [exact I2 |].
  destruct (grace_cleared_same a w1) as (_ & _ & _ & _ & _ & H6 & _).
  cbn [core c_graceTimers]. rewrite H6. apply lookup_delete_eq.
Qed.

Lemma inv_addConnection (websocket : WsId) (clientInfo : ClientInfo) (w : World) :
  Inv (core w) -> Inv (core (exec (addConnection websocket clientInfo) w)).
Proof.
  intros I. unfold exec. rewrite addConnection_total. cbn [fst].
  destruct (is_undefined (authIndex clientInfo) || lt_zero (authIndex clientInfo)
            || negb (Number_isInteger (authIndex clientInfo))).
  - exact I.
  - now apply inv_connected.
Qed.

(** *** [_removeConnection] and [closeConnectionByAuth] *)

Lemma core_grace_started (a : Z) (w : World) :
  core (grace_started a w) = start_grace a (core w).
Proof.
  unfold grace_started, start_grace, core. js_proj.
  cbn [c_connections c_graceTimers c_reconnecting c_timers c_nextTimer c_awaiting].
  destruct (reconnectGraceTimers w !! a); reflexivity.
Qed.

Lemma inv_removed (websocket : WsId) (w : World) :
  Inv (core w) -> Inv (core (removed websocket w)).
Proof.
  intros I. unfold removed.
  destruct (_authIndex (socket websocket w)) as [a |]; [| exact I].
  destruct (0 <=? a)%Z; [| exact I].
  pose proof (inv_conn_delete a _ I) as I1.
  destruct (page_is_gone a w).
  - unfold reconnect_skipped. js_proj.
    destruct (reconnectGraceTimers w !! a) as [timerId |] eqn:Hentry; [| exact I1].
    change (Inv (clear_grace a timerId (conn_delete a (core w)))).
    apply inv_drop. exact I1.
  - change (Inv (core (grace_started a
                         (add_effect (Logged LInfo (ClientDisconnected (Some a)))
                            (connectionsByAuth_delete a w))))).
    rewrite core_grace_started.
    apply inv_start_grace; [exact I1 |].
    cbn [core c_connections]. js_proj. apply lookup_delete_eq.
Qed.

Lemma inv_closed_by_auth (a : Z) (w : World) :
  Inv (core w) -> Inv (core (closed_by_auth a w)).
Proof.
  intros I. unfold closed_by_auth.
  destruct (connectionsByAuth w !! a) as [connection |]; [| exact I].
  pose proof (inv_conn_delete a _ I) as I1.
  destruct (closeThrows (socket connection w));
    (destruct (reconnectGraceTimers w !! a) as [timerId |] eqn:Hentry; [| exact I1];
     change (Inv (clear_grace a timerId (conn_delete a (core w))));
     apply inv_drop; exact I1).
Qed.

(** *** The grace timer *)

Lemma core_resumed (timeoutId : TimerId) (how : Settlement) (w : World) :
  core (resumed timeoutId how w)
  = match awaiting w !! timeoutId with
    | Some a =>
        if rejected_nullish how
        then finish_attempt timeoutId a (timer_delete timeoutId (core w))
        else finish_attempt timeoutId a (clear_grace a timeoutId (core w))
    | None => core w
    end.
Proof.
  unfold resumed, attempt_closed, settlement_logged.
  destruct (awaiting w !! timeoutId); [| reflexivity].
  destruct how as [| [| | message]]; reflexivity.
Qed.

Lemma inv_resumed (timeoutId : TimerId) (how : Settlement) (w : World) :
  Inv (core w) -> Inv (core (resumed timeoutId how w)).
Proof.
  intros I. rewrite core_resumed.
  destruct (awaiting w !! timeoutId) as [a |] eqn:Hawait; [| exact I].
  destruct (rejected_nullish how); apply inv_finish_attempt; try exact Hawait.
  - now apply inv_timer_delete.
  - now apply inv_drop.
Qed.

Lemma core_queues_settled (a : Z) (w : World) : core (queues_settled a w) = core w.
Proof. apply core_same_connections, queues_settled_same. Qed.

(** The core the grace-timer callback leaves, case by case. *)
Lemma core_grace_expired (timerId : TimerId) (a : Z) (w : World) :
  reconnectingAccounts w !! a <> Some false ->
  let c := core w in
  core (grace_expired a (set_timers (delete timerId) w))
  = match onConnectionLostCallback w with
    | Some callback =>
        if negb (default false (reconnectingAccounts w !! a)) then
          match callback a with
          | CbThrows reason => if nullish reason then timer_delete timerId c
                               else clear_grace a timerId c
          | CbPromise => suspend timerId a c
          end
        else clear_grace a timerId c
    | None => clear_grace a timerId c
    end.
Proof.
  intros Hnf. cbv zeta. unfold grace_expired.
  set (w1 := set_timers (delete timerId) w).
  destruct (queues_settled_same a w1) as (_ & _ & Hflag & _ & _ & _ & _ & _ & Hcb & _).
  pose proof (core_queues_settled a w1) as Hcore.
  set (w2 := queues_settled a w1) in *.
  change (onConnectionLostCallback w1) with (onConnectionLostCallback w) in Hcb.
  change (reconnectingAccounts w1) with (reconnectingAccounts w) in Hflag.
  rewrite Hcb, Hflag.
  assert (Hfinal : core (lost_finalized a w2) = clear_grace a timerId (core w)).
  { change (core (lost_finalized a w2))
      with (mkCore (c_connections (core w2)) (delete a (c_graceTimers (core w2)))
              (c_reconnecting (core w2)) (c_timers (core w2)) (c_nextTimer (core w2))
              (c_awaiting (core w2))).
    rewrite Hcore. reflexivity. }
  destruct (onConnectionLostCallback w) as [callback |]; [| exact Hfinal].
  destruct (negb (default false (reconnectingAccounts w !! a))) eqn:Hnot; [| exact Hfinal].
  assert (Hunflagged : reconnectingAccounts w !! a = None).
  { destruct (reconnectingAccounts w !! a) as [[|] |]; [discriminate | congruence | reflexivity]. }
  destruct (callback a) as [reason |].
  - unfold recovery_threw. destruct reason as [| | message]; cbn [message_of nullish].
    + change (core (set_reconnectingAccounts (delete a) (recovery_called a w2)))
        with (mkCore (c_connections (core w2)) (c_graceTimers (core w2))
                (delete a (<[a := true]> (c_reconnecting (core w2))))
                (c_timers (core w2)) (c_nextTimer (core w2)) (c_awaiting (core w2))).
      rewrite Hcore. unfold timer_delete, core. subst w1. js_proj.
      cbn [c_connections c_graceTimers c_reconnecting c_timers c_nextTimer c_awaiting].
      now rewrite delete_insert_id by exact Hunflagged.
    + change (core (set_reconnectingAccounts (delete a) (recovery_called a w2)))
        with (mkCore (c_connections (core w2)) (c_graceTimers (core w2))
                (delete a (<[a := true]> (c_reconnecting (core w2))))
                (c_timers (core w2)) (c_nextTimer (core w2)) (c_awaiting (core w2))).
      rewrite Hcore. unfold timer_delete, core. subst w1. js_proj.
      cbn [c_connections c_graceTimers c_reconnecting c_timers c_nextTimer c_awaiting].
      now rewrite delete_insert_id by exact Hunflagged.
    + change (core (lost_finalized a
                      (set_reconnectingAccounts (delete a)
                         (add_effect (Logged LError (ReconnectFailed a message))
                            (recovery_called a w2)))))
        with (mkCore (c_connections (core w2)) (delete a (c_graceTimers (core w2)))
                (delete a (<[a := true]> (c_reconnecting (core w2))))
                (c_timers (core w2)) (c_nextTimer (core w2)) (c_awaiting (core w2))).
      rewrite Hcore. unfold clear_grace, core. subst w1. js_proj.
      cbn [c_connections c_graceTimers c_reconnecting c_timers c_nextTimer c_awaiting].
      now rewrite delete_insert_id by exact Hunflagged.
  - change (core (recovery_suspended a (recovery_called a w2)))
      with (mkCore (c_connections (core w2)) (c_graceTimers (core w2))
              (<[a := true]> (c_reconnecting (core w2)))
              (<[c_nextTimer (core w2)
                 := mkTimer ReconnectTimeout lightweightReconnectTimeoutMs]>
                 (c_timers (core w2)))
              (S (c_nextTimer (core w2)))
              (<[c_nextTimer (core w2) := a]> (c_awaiting (core w2)))).
    rewrite Hcore. reflexivity.
Qed.

Lemma unflagged (a : Z) (w : World) :
  Inv (core w) ->
  negb (default false (reconnectingAccounts w !! a)) = true ->
  reconnectingAccounts w !! a = None.
Proof.
  intros I Hnot. pose proof (flag_true _ I a) as Hnf. cbn [core c_reconnecting] in Hnf.
  destruct (reconnectingAccounts w !! a) as [[|] |]; [discriminate | congruence | reflexivity].
Qed.

Lemma inv_grace_expired (timerId : TimerId) (a d : Z) (w : World) :
  Inv (core w) ->
  timers w !! timerId = Some (mkTimer (GraceExpiry a) d) ->
  Inv (core (grace_expired a (set_timers (delete timerId) w))).
Proof.
  intros I Hpending.
  rewrite core_grace_expired by exact (flag_true _ I a).
  destruct (onConnectionLostCallback w) as [callback |]; [| now apply inv_drop].
  destruct (negb (default false (reconnectingAccounts w !! a))) eqn:Hnot;
    [| now apply inv_drop].
  destruct (callback a) as [reason |].
  - destruct (nullish reason); [now apply inv_timer_delete | now apply inv_drop].
  - apply (inv_suspend timerId a d (core w)); [exact I | exact Hpending |].
    cbn [core c_reconnecting]. rewrite (unflagged a w I Hnot). discriminate.
Qed.

Lemma inv_fired (id : TimerId) (w : World) : Inv (core w) -> Inv (core (fired id w)).
Proof.
  intros I. unfold fired.
  destruct (timers w !! id) as [[[a |] d] |] eqn:Hpending; cbn [task]; [| | exact I].
  - now apply (inv_grace_expired id a d).
  - apply inv_resumed. now apply (inv_timer_delete id (core w)).
Qed.

(** *** Queues and frames *)

Lemma core_closed_all (w : World) : core (closed_all w) = core w.
Proof. apply core_same_connections, closed_all_same_connections. Qed.

Lemma core_routed (frame : Json) (q : QueueId) (w : World) : core (routed frame q w) = core w.
Proof. apply core_same_registry, routed_same_registry. Qed.

Section Reachability.

Variable JSON_parse : string -> option Json.

(** [_handleIncomingMessage] returns normally and touches nothing but the
    queue objects and the log. *)
Lemma handleIncomingMessage_total (messageData : string) (w : World) :
  exists w',
    _handleIncomingMessage JSON_parse messageData w = (w', Normal tt)
    /\ same_registry w w'.
Proof.
  unfold _handleIncomingMessage.
  destruct (JSON_parse messageData) as [frame |];
    [| eexists; split; [reflexivity | repeat split]].
  destruct (get_property frame "request_id") as [e | requestId] eqn:Hid;
    [eexists; split; [reflexivity | repeat split] |].
  destruct (negb (truthy requestId));
    [eexists; split; [reflexivity | repeat split] |].
  unfold try_catch, bind, gets.
  destruct (lookup_queue (default JNull requestId) w) as [q |].
  - rewrite routeMessage_routed.
    + eexists. split; [reflexivity | apply routed_same_registry].
    + destruct frame; cbn in Hid |- *; try discriminate; eauto.
  - eexists. split; [reflexivity | repeat split].
Qed.

Lemma run_listener_total (payload : string) (l : Listener) (w : World) :
  Inv (core w) ->
  exists w', run_listener JSON_parse payload l w = (w', Normal tt) /\ Inv (core w').
Proof.
  intros I. destruct l as [| websocket |]; cbn [run_listener].
  - destruct (handleIncomingMessage_total payload w) as (w' & Hrun & Hsame).
    exists w'. split; [exact Hrun |]. now rewrite (core_same_registry _ _ Hsame).
  - rewrite removeConnection_eq. eexists. split; [reflexivity |]. now apply inv_removed.
  - eexists. split; [reflexivity | exact I].
Qed.

Lemma for_each_total {A} (f : A -> JS unit) (P : World -> Prop) (l : list A) (w : World) :
  (forall x w0, P w0 -> exists w', f x w0 = (w', Normal tt) /\ P w') ->
  P w ->
  exists w', for_each f l w = (w', Normal tt) /\ P w'.
Proof.
  intros Hf. revert w. induction l as [| x rest IH]; intros w Hw.
  - exists w. split; [reflexivity | exact Hw].
  - destruct (Hf x w Hw) as (w1 & Hrun & Hw1).
    destruct (IH w1 Hw1) as (w2 & Hrest & Hw2).
    exists w2. split; [| exact Hw2].
    cbn [for_each]. unfold bind. now rewrite Hrun.
Qed.

(** [ws_emit] runs the listeners, unless it throws an [error] event nobody
    listens for, which leaves the world as it is. *)
Lemma ws_emit_total (P : World -> Prop)
    (websocket : WsId) (event : WsEvent) (payload : string) (w : World) :
  (forall l w0, P w0 -> exists w', run_listener JSON_parse payload l w0 = (w', Normal tt) /\ P w') ->
  P w ->
  exists w',
    ws_emit JSON_parse websocket event payload w
    = (w', if unheard_error event (listeners_for event (listeners (socket websocket w)))
           then Thrown (Error payload) else Normal tt)
    /\ P w'.
Proof.
  intros Hf Hw. unfold ws_emit, bind, gets.
  destruct (unheard_error event (listeners_for event (listeners (socket websocket w)))).
  - exists w. split; [reflexivity | exact Hw].
  - now apply for_each_total.
Qed.

(** Each task of the event loop keeps the invariant, and completes as
    [completion_of] says. *)
Lemma step_total (t : Task) (w : World) :
  Inv (core w) ->
  exists w', step JSON_parse t w = (w', completion_of t w) /\ Inv (core w').
Proof.
  intros I. destruct t; cbn [step completion_of].
  - rewrite addConnection_total. eexists. split; [reflexivity |].
    apply (inv_addConnection websocket clientInfo) in I.
    unfold exec in I. rewrite addConnection_total in I. exact I.
  - apply (ws_emit_total (fun w0 => Inv (core w0))); [| exact I].
    intros l w0. apply run_listener_total.
  - rewrite closeConnectionByAuth_eq. eexists. split; [reflexivity |].
    now apply inv_closed_by_auth.
  - unfold bind. rewrite getConnectionByAuth_eq. eexists. split; [reflexivity |].
    unfold looked_up. destruct (connectionsByAuth w !! authIndex0); exact I.
  - eexists. split; [reflexivity | exact I].
  - rewrite removeMessageQueue_eq. eexists. split; [reflexivity |].
    unfold queue_removed. destruct (messageQueues w !! requestId); exact I.
  - rewrite closeAllMessageQueues_eq. eexists. split; [reflexivity |].
    now rewrite core_closed_all.
  - rewrite fire_eq. eexists. split; [reflexivity |]. now apply inv_fired.
  - rewrite graceTimerResume_eq. eexists. split; [reflexivity |]. now apply inv_resumed.
  - eexists. split; [reflexivity |]. cbn [fst]. destruct (getCurrentAuthIndex w); exact I.
  - eexists. split; [reflexivity |]. cbn [fst]. destruct (browserManager w); exact I.
Qed.

Lemma reachable_inv (w : World) : reachable JSON_parse w -> Inv (core w).
Proof.
  induction 1 as [callback current manager | w t Hreach IH].
  - apply inv_new_registry.
  - destruct (step_total t w IH) as (w' & Hstep & I').
    unfold exec. rewrite Hstep. exact I'.
Qed.

Lemma run_reachable (tasks : list Task) (w : World) :
  reachable JSON_parse w -> reachable JSON_parse (run JSON_parse tasks w).
Proof.
  revert w. induction tasks as [| t rest IH]; intros w Hw; [exact Hw |].
  cbn [run]. apply IH. now constructor.
Qed.

End Reachability.

(** ** Expiry of the grace period *)

Lemma queues_settled_current (a : Z) (w : World) :
  default (-1)%Z (getCurrentAuthIndex w) = a ->
  messageQueues (queues_settled a w) = ∅
  /\ forall requestId q,
       messageQueues w !! requestId = Some q -> closed (queue q (queues_settled a w)) = true.
Proof.
  intros Hcurrent. unfold queues_settled. rewrite Hcurrent, Z.eqb_refl.
  split; [apply closed_all_messageQueues |].
  intros requestId q Hq. now apply (closed_all_closes _ requestId).
Qed.

Lemma queues_settled_other (a : Z) (w : World) :
  default (-1)%Z (getCurrentAuthIndex w) <> a ->
  messageQueues (queues_settled a w) = messageQueues w
  /\ queues (queues_settled a w) = queues w.
Proof.
  intros Hother. unfold queues_settled.
  destruct (Z.eqb_spec a (default (-1)%Z (getCurrentAuthIndex w))); [congruence |].
  split; reflexivity.
Qed.

Lemma grace_expired_queues (a : Z) (w : World) :
  messageQueues (grace_expired a w) = messageQueues (queues_settled a w)
  /\ queues (grace_expired a w) = queues (queues_settled a w).
Proof.
  unfold grace_expired.
  destruct (onConnectionLostCallback (queues_settled a w)) as [callback |];
    [| split; reflexivity].
  destruct (negb (default false (reconnectingAccounts (queues_settled a w) !! a)));
    [| split; reflexivity].
  destruct (callback a) as [[| | message] |]; split; reflexivity.
Qed.

Lemma resumed_queues (timeoutId : TimerId) (how : Settlement) (w : World) :
  messageQueues (resumed timeoutId how w) = messageQueues w
  /\ queues (resumed timeoutId how w) = queues w.
Proof.
  destruct (awaiting w !! timeoutId) eqn:Hawait;
    resumed_cases how; rewrite Hawait; split; reflexivity.
Qed.

(** C4. When the grace timer of an account fires, every registered queue is
    closed and the queue map is emptied if the account is the current one at
    that moment; if it is not, the queue map and every queue object are
    exactly as before.  So a queue that was open is closed by the expiry if
    and only if the account is current.  The rest of the callback, resumed
    after the recovery settles, does not touch the queues either way.  (The
    timer callback returns normally unless the recovery callback throws
    [undefined] or [null] at once, which happens after the queues have been
    dealt with.) *)
Theorem C4_expiry_closes_queues_iff_current
    (timerId : TimerId) (a d : Z) (w : World) :
  timers w !! timerId = Some (mkTimer (GraceExpiry a) d) ->
  let current := default (-1)%Z (getCurrentAuthIndex w) in
  let w' := fired timerId w in
  fire timerId w = (w', expiry_completion a w)
  /\ (fails_at_once a w = false -> expiry_completion a w = Normal tt)
  /\ (current = a ->
      messageQueues w' = ∅
      /\ forall requestId q,
           messageQueues w !! requestId = Some q -> closed (queue q w') = true)
  /\ (current <> a -> messageQueues w' = messageQueues w /\ queues w' = queues w)
  /\ (forall requestId q,
        messageQueues w !! requestId = Some q ->
        closed (queue q w) = false ->
        (closed (queue q w') = true <-> current = a))
  /\ (forall timeoutId how,
        messageQueues (resumed timeoutId how w') = messageQueues w'
        /\ queues (resumed timeoutId how w') = queues w').
Proof.
  intros Hpending current w'.
  assert (Hw' : w' = grace_expired a (set_timers (delete timerId) w)).
  { subst w'. unfold fired. rewrite Hpending. reflexivity. }
  destruct (grace_expired_queues a (set_timers (delete timerId) w)) as [Hmq Hqs].
  assert (Hcur : current = a ->
            messageQueues w' = ∅
            /\ forall requestId q,
                 messageQueues w !! requestId = Some q -> closed (queue q w') = true).
  { intros Hcurrent. rewrite Hw', Hmq, Hqs.
    assert (Hcurrent' :
      default (-1)%Z (getCurrentAuthIndex (set_timers (delete timerId) w)) = a)
      by (js_proj; exact Hcurrent).
    destruct (queues_settled_current a (set_timers (delete timerId) w) Hcurrent')
      as [Hempty Hall].
    split; [exact Hempty | exact Hall]. }
  assert (Hoth : current <> a -> messageQueues w' = messageQueues w /\ queues w' = queues w).
  { intros Hother. rewrite Hw', Hmq, Hqs.
    assert (Hother' :
      default (-1)%Z (getCurrentAuthIndex (set_timers (delete timerId) w)) <> a)
      by (js_proj; exact Hother).
    destruct (queues_settled_other a (set_timers (delete timerId) w) Hother')
      as [Hsame1 Hsame2].
    split; [exact Hsame1 | exact Hsame2]. }
  split; [rewrite Hw'; now apply (fire_grace_eq timerId a d) |].
  split; [apply expiry_completion_normal |].
  split; [exact Hcur |].
  split; [exact Hoth |].
  split.
  - intros requestId q Hq Hopen. split.
    + intros Hclosed. destruct (decide (current = a)) as [Heq | Hne]; [exact Heq |].
      destruct (Hoth Hne) as [_ Hsame]. rewrite Hsame in Hclosed. congruence.
    + intros Heq. destruct (Hcur Heq) as [_ Hall]. now apply (Hall requestId).
  - intros timeoutId how. apply resumed_queues.
Qed.

(** ** One recovery attempt at a time *)





(** C6, at the input where the code departs from it.  Account 0 loses its
    socket, its grace timer fires and the recovery callback is called; the
    promise it returned is then rejected without a reason ([undefined]).  The
    catch clause fails on [error.message]: the TypeError leaves the timer
    callback, nothing is logged, [connectionLost] is not emitted and the
    grace-timer entry of the account stays.  The finally clause has run all
    the same: the flag and the timeout are cleared. *)
Theorem C6_rejection_without_a_reason_escapes_the_timer_callback :
  let w := run no_parser
             [Accept 1 (client 0); SocketEmits 1 EvClose ""; TimerFires 0]
             fresh_registry in
  let w' := exec (graceTimerResume 1 (Rejected Undefined)) w in
  awaiting w !! 1 = Some 0%Z
  /\ reconnectingAccounts w !! 0%Z = Some true
  /\ graceTimerResume 1 (Rejected Undefined) w
     = (w', Thrown (Error "Cannot read properties of undefined (reading 'message')"))
  /\ trace w' = trace w
  /\ reconnectGraceTimers w' !! 0%Z = Some 0
  /\ reconnectingAccounts w' !! 0%Z = None
  /\ timers w' !! 1 = None
  /\ awaiting w' !! 1 = None.
Proof.
  vm_compute. repeat split.
Qed.


(** ** Grace-timer entries *)

(** C9 as worded fails in the world [closed_during_recovery] leads to:
    account 0 has no registered connection and its grace callback has not
    completed, yet it has no grace-timer entry. *)
Lemma C9_no_entry_while_callback_suspended : ~ C9_as_stated.
Proof.
  intros Hclaim.
  pose (w0 := new_registry (Some (fun _ => CbPromise)) None None).
  assert (Hreach : reachable no_parser (run no_parser closed_during_recovery w0))
    by (apply run_reachable; constructor).
  destruct (Hclaim no_parser _ 0%Z Hreach) as [_ Hback].
  destruct Hback as [timerId Hentry].
  - split; [reflexivity |]. right. exists 1. reflexivity.
  - vm_compute in Hentry. discriminate Hentry.
Qed.

(** The same invariant also fails the other way round when two losses of
    one account overlap: the first callback, resumed, deletes the entry of the
    second timer, which stays pending and later fires although socket 3 has
    registered in between. *)
Example overlapping_losses_leave_an_untracked_timer :
  let w := run no_parser
             [Accept 1 (client 0); SocketEmits 1 EvClose ""; TimerFires 0;
              Accept 2 (client 0); SocketEmits 2 EvClose "";
              CallbackSettles 1 Resolved; Accept 3 (client 0)]
             (new_registry (Some (fun _ => CbPromise)) (Some 0%Z) None) in
  timers w !! 2 = Some (mkTimer (GraceExpiry 0) gracePeriodMs)
  /\ reconnectGraceTimers w !! 0%Z = None
  /\ connectionsByAuth w !! 0%Z = Some 3
  /\ CallbackInvoked 0 ∈ drop (length (trace w)) (trace (fired 2 w)).
Proof.
  vm_compute. repeat split. repeat constructor.
Qed.

(** ** A cancelled timer stays cancelled

    Timer identifiers are never reused: whatever the registry does, a timer
    can only become pending under an identifier that was not handed out
    before. *)

Lemma timers_extend_refl (w : World) : timers_extend w w.
Proof. split; [lia | auto]. Qed.

Lemma timers_extend_trans (w1 w2 w3 : World) :
  timers_extend w1 w2 -> timers_extend w2 w3 -> timers_extend w1 w3.
Proof.
  intros [Hle12 H12] [Hle23 H23]. split; [lia |].
  intros t Hlt Hnone. apply H23; [lia |]. now apply H12.
Qed.

Lemma timers_extend_same (w w' : World) :
  timers w' = timers w -> nextTimerId w' = nextTimerId w -> timers_extend w w'.
Proof. intros Ht Hn. unfold timers_extend. rewrite Ht, Hn. split; [lia | auto]. Qed.

Ltac timers_grow :=
  split; js_proj;
  [ lia
  | let t := fresh "t" in
    let Hlt := fresh "Hlt" in
    let Hnone := fresh "Hnone" in
    intros t Hlt Hnone;
    repeat first [ rewrite lookup_insert_ne by lia | apply delete_lookup_None ];
    exact Hnone ].

Lemma timers_extend_connected (websocket : WsId) (clientInfo : ClientInfo) (w : World) :
  timers_extend w (connected websocket clientInfo w).
Proof.
  unfold connected.
  set (a := integer_value (authIndex clientInfo)).
  destruct (existing_closed_same websocket a w)
    as (_ & _ & _ & _ & Htimers & Hnext & _).
  destruct (grace_cleared_same a (existing_closed websocket a w))
    as (_ & _ & _ & _ & Gnext & _ & Gtimers).
  unfold timers_extend, connection_stored. js_proj.
  rewrite Gnext, Hnext, Gtimers, Htimers.
  split; [lia |]. intros t Hlt Hnone.
  destruct (reconnectGraceTimers (existing_closed websocket a w) !! a);
    [now apply delete_lookup_None | exact Hnone].
Qed.

Lemma timers_extend_removed (websocket : WsId) (w : World) :
  timers_extend w (removed websocket w).
Proof.
  unfold removed.
  destruct (_authIndex (socket websocket w)) as [a |]; [| (apply timers_extend_same; reflexivity)].
  destruct (0 <=? a)%Z; [| (apply timers_extend_same; reflexivity)].
  destruct (page_is_gone a w).
  - unfold reconnect_skipped. js_proj.
    destruct (reconnectGraceTimers w !! a); timers_grow.
  - unfold grace_started. js_proj.
    destruct (reconnectGraceTimers w !! a); timers_grow.
Qed.

Lemma timers_extend_closed_by_auth (a : Z) (w : World) :
  timers_extend w (closed_by_auth a w).
Proof.
  unfold closed_by_auth.
  destruct (connectionsByAuth w !! a) as [connection |]; [| (apply timers_extend_same; reflexivity)].
  destruct (closeThrows (socket connection w));
    destruct (reconnectGraceTimers w !! a); timers_grow.
Qed.

Lemma timers_extend_resumed (timeoutId : TimerId) (how : Settlement) (w : World) :
  timers_extend w (resumed timeoutId how w).
Proof.
  destruct (awaiting w !! timeoutId) eqn:Hawait;
    resumed_cases how; rewrite Hawait;
    first [timers_grow | apply timers_extend_same; reflexivity].
Qed.

Lemma timers_extend_grace_expired (a : Z) (w : World) :
  timers_extend w (grace_expired a w).
Proof.
  unfold grace_expired.
  destruct (queues_settled_same a w) as (_ & _ & _ & Htimers & Hnext & _).
  set (w2 := queues_settled a w) in *.
  assert (Hfinal : timers_extend w (lost_finalized a w2)).
  { unfold lost_finalized, timers_extend. js_proj. rewrite Htimers, Hnext.
    split; [lia | auto]. }
  destruct (onConnectionLostCallback w2) as [callback |]; [| exact Hfinal].
  destruct (negb (default false (reconnectingAccounts w2 !! a))); [| exact Hfinal].
  destruct (callback a) as [[| | message] |].
  1-3: unfold recovery_threw, lost_finalized, recovery_called, marked_reconnecting,
      timers_extend; cbn [message_of]; js_proj; rewrite Htimers, Hnext; split; [lia | auto].
  - unfold recovery_suspended, recovery_called, marked_reconnecting, timers_extend.
    js_proj. rewrite Htimers, Hnext. split; [lia |].
    intros t Hlt Hnone. now rewrite lookup_insert_ne by lia.
Qed.

Lemma timers_extend_fired (id : TimerId) (w : World) : timers_extend w (fired id w).
Proof.
  unfold fired.
  destruct (timers w !! id) as [timer |]; [| (apply timers_extend_same; reflexivity)].
  assert (Hcleared : timers_extend w (set_timers (delete id) w)) by timers_grow.
  destruct (task timer) as [a |];
    (eapply timers_extend_trans; [exact Hcleared |]);
    [apply timers_extend_grace_expired | apply timers_extend_resumed].
Qed.

Section Continuations.

Variable JSON_parse : string -> option Json.

Lemma timers_extend_step (t : Task) (w : World) :
  timers_extend w (exec (step JSON_parse t) w).
Proof.
  unfold exec. destruct t; cbn [step].
  - rewrite addConnection_total. cbn [fst].
    destruct (is_undefined (authIndex clientInfo) || lt_zero (authIndex clientInfo)
              || negb (Number_isInteger (authIndex clientInfo)));
      [(apply timers_extend_same; reflexivity) | apply timers_extend_connected].
  - destruct (ws_emit_total JSON_parse (timers_extend w) websocket event payload w)
      as (w' & Hrun & Hext); [| (apply timers_extend_same; reflexivity) | now rewrite Hrun].
    intros l w0 Hw0. destruct l as [| websocket0 |]; cbn [run_listener].
    + destruct (handleIncomingMessage_total JSON_parse payload w0) as (w1 & Hrun & Hsame).
      exists w1. split; [exact Hrun |].
      eapply timers_extend_trans; [exact Hw0 |].
      destruct Hsame as (_ & _ & _ & _ & Htimers & Hnext & _).
      now apply timers_extend_same.
    + rewrite removeConnection_eq. eexists. split; [reflexivity |].
      eapply timers_extend_trans; [exact Hw0 | apply timers_extend_removed].
    + eexists. split; [reflexivity | exact Hw0].
  - rewrite closeConnectionByAuth_eq. apply timers_extend_closed_by_auth.
  - unfold bind. rewrite getConnectionByAuth_eq. cbn [fst]. unfold looked_up.
    destruct (connectionsByAuth w !! authIndex0); (apply timers_extend_same; reflexivity).
  - (apply timers_extend_same; reflexivity).
  - rewrite removeMessageQueue_eq. cbn [fst]. unfold queue_removed.
    destruct (messageQueues w !! requestId); (apply timers_extend_same; reflexivity).
  - rewrite closeAllMessageQueues_eq. cbn [fst].
    destruct (closed_all_same_connections w) as (_ & _ & _ & Htimers & Hnext & _).
    now apply timers_extend_same.
  - rewrite fire_eq. apply timers_extend_fired.
  - rewrite graceTimerResume_eq. apply timers_extend_resumed.
  - unfold modify. cbn [fst].
    destruct (getCurrentAuthIndex w); (apply timers_extend_same; reflexivity).
  - unfold modify. cbn [fst].
    destruct (browserManager w); (apply timers_extend_same; reflexivity).
Qed.

Lemma timers_extend_run (tasks : list Task) (w : World) :
  timers_extend w (run JSON_parse tasks w).
Proof.
  revert w. induction tasks as [| t rest IH]; intros w; [(apply timers_extend_same; reflexivity) |].
  cbn [run]. eapply timers_extend_trans; [apply timers_extend_step | apply IH].
Qed.

End Continuations.

(** ** Reconnection within the grace period *)

(** C5 as worded fails in the world [reconnect_in_grace]: socket 2
    registers for the current account before the grace timer fires, and the
    queue of request [r1] is closed and unregistered by that registration. *)
Lemma C5_reconnect_closes_queues_of_current_account : ~ C5_as_stated.
Proof.
  intros Hclaim.
  specialize (Hclaim 2 (client 0) 0 reconnect_in_grace eq_refl eq_refl eq_refl).
  assert (Hissued : (0 < nextTimerId reconnect_in_grace)%nat) by (vm_compute; lia).
  specialize (Hclaim Hissued).
  destruct Hclaim as (_ & _ & _ & _ & Hmq & _).
  apply (f_equal (fun m => m !! "r1")) in Hmq.
  vm_compute in Hmq. discriminate Hmq.
Qed.

(** C5, amended. A registration for an account whose grace-timer entry is
    pending cancels that timer for good (it is no longer pending, and whatever
    happens afterwards it never is again, so its callback never runs), removes
    the entry, registers the new socket, calls no recovery callback and starts
    no recovery attempt.  The queues are left as they are unless the account
    is the current one and queues exist: then the registration itself closes
    every queue and empties the queue map. *)
Theorem C5_reconnect_within_grace_cancels_timer
    (websocket : WsId) (clientInfo : ClientInfo) (timerId : TimerId) (w : World) :
  valid_authIndex (authIndex clientInfo) ->
  reconnectGraceTimers w !! integer_value (authIndex clientInfo) = Some timerId ->
  timers w !! timerId
  = Some (mkTimer (GraceExpiry (integer_value (authIndex clientInfo))) gracePeriodMs) ->
  (timerId < nextTimerId w)%nat ->
  let a := integer_value (authIndex clientInfo) in
  let w' := connected websocket clientInfo w in
  addConnection websocket clientInfo w = (w', Normal tt)
  /\ timers w' !! timerId = None
  /\ (forall JSON_parse tasks,
        timers (run JSON_parse tasks w') !! timerId = None
        /\ fire timerId (run JSON_parse tasks w') = (run JSON_parse tasks w', Normal tt))
  /\ reconnectGraceTimers w' !! a = None
  /\ connectionsByAuth w' !! a = Some websocket
  /\ (forall b, CallbackInvoked b ∈ trace w' -> CallbackInvoked b ∈ trace w)
  /\ reconnectingAccounts w' = reconnectingAccounts w
  /\ awaiting w' = awaiting w
  /\ (default (-1)%Z (getCurrentAuthIndex w) <> a \/ messageQueues w = ∅ ->
      messageQueues w' = messageQueues w /\ queues w' = queues w)
  /\ (getCurrentAuthIndex w = Some a -> (0 < size (messageQueues w))%nat ->
      messageQueues w' = ∅
      /\ forall requestId q,
           messageQueues w !! requestId = Some q -> closed (queue q w') = true).
Proof.
  intros Hvalid Hentry Hpending Hissued a w'.
  destruct (existing_closed_same websocket a w)
    as (Hconn & Hmq & Hgrace & Hrecon & Htimers & Hnext & Hawait & Hqueues & Hcur & _).
  destruct (grace_cleared_same a (existing_closed websocket a w))
    as (Gconn & Gsock & Grecon & Gawait & Gnext & Ggrace & Gtimers).
  assert (Htimer : timers w' !! timerId = None).
  { subst w'. unfold connected, connection_stored. js_simpl. fold a.
    rewrite Gtimers, Hgrace. fold a in Hentry. rewrite Hentry.
    apply lookup_delete_eq. }
  assert (Hnext' : nextTimerId w' = nextTimerId w).
  { subst w'. unfold connected, connection_stored. js_simpl. fold a.
    now rewrite Gnext, Hnext. }
  split; [now apply addConnection_valid |].
  split; [exact Htimer |].
  split.
  { intros JSON_parse tasks.
    destruct (timers_extend_run JSON_parse tasks w') as [_ Hkeep].
    assert (Hlater : timers (run JSON_parse tasks w') !! timerId = None)
      by (apply Hkeep; [rewrite Hnext'; exact Hissued | exact Htimer]).
    split; [exact Hlater |].
    rewrite fire_eq. unfold fired, fire_completion. now rewrite Hlater. }
  subst w'. unfold connected. fold a.
  split.
  { unfold connection_stored. js_simpl. rewrite Ggrace. apply lookup_delete_eq. }
  split.
  { unfold connection_stored. js_simpl. apply lookup_insert_eq. }
  split.
  { intros b. apply (connected_no_callback websocket clientInfo b w). }
  split.
  { unfold connection_stored. js_simpl. now rewrite Grecon, Hrecon. }
  split.
  { unfold connection_stored. js_simpl. now rewrite Gawait, Hawait. }
  destruct (connection_stored_queues websocket a (address clientInfo)
              (grace_cleared a (existing_closed websocket a w))) as [-> ->].
  split.
  - intros Hcase.
    destruct (grace_cleared_keeps a (existing_closed websocket a w)) as [-> ->].
    + right. rewrite Hcur, Hmq. exact Hcase.
    + split; assumption.
  - intros Hcurrent Hsize.
    destruct (grace_cleared_closes a timerId (existing_closed websocket a w)) as [Hempty Hall].
    + now rewrite Hgrace.
    + now rewrite Hcur.
    + now rewrite Hmq.
    + split; [exact Hempty |].
      intros requestId q Hq. apply (Hall requestId). now rewrite Hmq.
Qed.

(** ** The theorems at concrete inputs *)

Lemma C1_witness :
  valid_authIndex (Some (int_number 0))
  /\ connectionsByAuth (register_all [(1, client 0); (2, client 0)] fresh_registry) !! 0%Z
     = Some 2
  /\ listeners (socket 1 (register_all [(1, client 0); (2, client 0)] fresh_registry)) = [].
Proof.
  split; [reflexivity |].
  pose proof (C1_one_connection_per_account (Some (int_number 0))
                [(1, client 0); (2, client 0)] fresh_registry
                [(1, client 0)] [] 2 (client 0) eq_refl) as H.
  destruct H as (_ & Hlookup & _ & _ & Hold).
  - repeat constructor.
  - reflexivity.
  - split; [exact Hlookup |].
    destruct (Hold 1) as (mid & _ & _ & _ & _ & Hlisteners & _).
    + reflexivity.
    + lia.
    + exact Hlisteners.
Defined.

Lemma C2_witness :
  let w := run demo_parser [Accept 1 (client 0); CreateQueue "r1"] fresh_registry in
  messageQueues w !! "r1" = Some 0
  /\ exists w',
       for_each (_handleIncomingMessage demo_parser) ["chunk"; "ping"; "chunk"; "close"] w
       = (w', Normal tt)
       /\ items (queue 0 w') = [frame_of "chunk"; frame_of "chunk"; STREAM_END].
Proof.
  cbv zeta. split; [reflexivity |].
  destruct (C2_routing_preserves_order_and_translates_stream_close demo_parser
              "r1" 0 ["chunk"; "ping"; "chunk"; "close"]
              [frame_of "chunk"; frame_of "ping"; frame_of "chunk"; frame_of "stream_close"]
              (run demo_parser [Accept 1 (client 0); CreateQueue "r1"] fresh_registry))
    as (w' & Hrun & _ & Hitems & _).
  - discriminate.
  - reflexivity.
  - repeat constructor.
  - exists w'. split; [exact Hrun |]. now apply Hitems.
Defined.

Lemma C4_witness :
  let w := run no_parser
             [Accept 1 (client 0); CreateQueue "r1"; SocketEmits 1 EvClose ""]
             fresh_registry in
  timers w !! 0 = Some (mkTimer (GraceExpiry 0) gracePeriodMs)
  /\ closed (queue 0 w) = false
  /\ closed (queue 0 (fired 0 w)) = true
  /\ messageQueues (fired 0 w) = ∅.
Proof.
  cbv zeta. split; [reflexivity |]. split; [reflexivity |].
  destruct (C4_expiry_closes_queues_iff_current 0 0 gracePeriodMs
              (run no_parser
                 [Accept 1 (client 0); CreateQueue "r1"; SocketEmits 1 EvClose ""]
                 fresh_registry) eq_refl) as (_ & _ & Hcurrent & _).
  destruct (Hcurrent eq_refl) as [Hempty Hall].
  split; [apply (Hall "r1"); reflexivity | exact Hempty].
Defined.

Lemma C5_witness :
  let w := run no_parser [Accept 1 (client 1); SocketEmits 1 EvClose ""] fresh_registry in
  valid_authIndex (authIndex (client 1))
  /\ reconnectGraceTimers w !! 1%Z = Some 0
  /\ timers w !! 0 = Some (mkTimer (GraceExpiry 1) gracePeriodMs)
  /\ (0 < nextTimerId w)%nat
  /\ timers (connected 2 (client 1) w) !! 0 = None
  /\ connectionsByAuth (connected 2 (client 1) w) !! 1%Z = Some 2.
Proof.
  cbv zeta. split; [reflexivity |]. split; [reflexivity |]. split; [reflexivity |].
  assert (Hissued : (0 < nextTimerId
            (run no_parser [Accept 1 (client 1); SocketEmits 1 EvClose ""] fresh_registry))%nat)
    by (vm_compute; lia).
  split; [exact Hissued |].
  destruct (C5_reconnect_within_grace_cancels_timer 2 (client 1) 0
              (run no_parser [Accept 1 (client 1); SocketEmits 1 EvClose ""] fresh_registry)
              eq_refl eq_refl eq_refl Hissued)
    as (_ & Hcancelled & _ & _ & Hconnected & _).
  split; [exact Hcancelled | exact Hconnected].
Defined.

Lemma C7_witness :
  let w := run no_parser
             [Accept 1 (client 0); CreateQueue "r1"; SocketEmits 1 EvClose ""]
             fresh_registry in
  valid_authIndex (authIndex (client 0))
  /\ getCurrentAuthIndex w = Some 0%Z
  /\ (0 < size (messageQueues w))%nat
  /\ closed (queue 0 (connected 2 (client 0) w)) = true.
Proof.
  cbv zeta. split; [reflexivity |]. split; [reflexivity |].
  assert (Hsize : (0 < size (messageQueues
            (run no_parser
               [Accept 1 (client 0); CreateQueue "r1"; SocketEmits 1 EvClose ""]
               fresh_registry)))%nat) by (vm_compute; lia).
  split; [exact Hsize |].
  destruct (C7_reconnect_of_current_account_closes_queues 2 (client 0)
              (run no_parser
                 [Accept 1 (client 0); CreateQueue "r1"; SocketEmits 1 EvClose ""]
                 fresh_registry) eq_refl eq_refl Hsize) as (_ & Hreconnect & _).
  destruct (Hreconnect 0 eq_refl) as [_ Hall].
  apply (Hall "r1"). reflexivity.
Defined.

Lemma C8_witness :
  invalid_authIndex (Some (int_number (-1)))
  /\ exists w',
       addConnection 1 (mkClientInfo (Some (int_number (-1))) "127.0.0.1") fresh_registry
       = (w', Normal tt)
       /\ connectionsByAuth w' = connectionsByAuth fresh_registry
       /\ closeCalls (socket 1 w') = [(Some 1008%Z, Some "Invalid authIndex")].
Proof.
  assert (Hbad : invalid_authIndex (Some (int_number (-1)))) by (right; left; reflexivity).
  split; [exact Hbad |].
  destruct (C8_invalid_authIndex_is_rejected_without_mutation 1
              (mkClientInfo (Some (int_number (-1))) "127.0.0.1") fresh_registry Hbad)
    as (w' & Hrun & Hclose & Hconn & _).
  exists w'. split; [exact Hrun |]. split; [exact Hconn | exact Hclose].
Defined.

Lemma C10_witness :
  let w := run demo_parser [Accept 1 (client 0); CreateQueue "r1"] fresh_registry in
  valid_authIndex (authIndex (client 0))
  /\ connectionsByAuth w !! 0%Z = Some 1
  /\ listeners (socket 1 w) = concat (repeat (handlers 1) 1)
  /\ closeCalls (socket 1 (connected 1 (client 0) w)) = []
  /\ items (queue 0 (exec (ws_emit demo_parser 1 EvMessage "chunk") (connected 1 (client 0) w)))
     = [frame_of "chunk"; frame_of "chunk"].
Proof.
  cbv zeta. split; [reflexivity |]. split; [reflexivity |]. split; [reflexivity |].
  destruct (C10_same_socket_registered_again demo_parser 1 (client 0) 1
              (run demo_parser [Accept 1 (client 0); CreateQueue "r1"] fresh_registry)
              eq_refl eq_refl eq_refl) as (_ & Hclose & _ & _ & _ & _ & Hrouted).
  split; [exact Hclose |].
  rewrite (Hrouted "chunk" (frame_of "chunk") "r1" 0 eq_refl eq_refl);
    [reflexivity | discriminate | reflexivity].
Defined.

(** * Further properties of the registry *)

(** ** Queue bookkeeping *)

(** [removeMessageQueue]: an id that is not registered leaves the world
    exactly as it is; a registered one has its queue closed and its entry
    removed, the other entries and queue objects stay as they are, and a
    second removal changes nothing. *)
Theorem removeMessageQueue_closes_and_forgets (requestId : string) (w : World) :
  let w' := queue_removed requestId w in
  removeMessageQueue requestId w = (w', Normal tt)
  /\ messageQueues w' = delete requestId (messageQueues w)
  /\ (messageQueues w !! requestId = None -> w' = w)
  /\ (forall q,
        messageQueues w !! requestId = Some q ->
        queue q w' = mq_close (queue q w)
        /\ forall q', q' <> q -> queue q' w' = queue q' w)
  /\ removeMessageQueue requestId w' = (w', Normal tt).
Proof.
  cbv zeta.
  split; [apply removeMessageQueue_eq |].
  assert (Hmap : messageQueues (queue_removed requestId w)
                 = delete requestId (messageQueues w)).
  { unfold queue_removed.
    destruct (messageQueues w !! requestId) eqn:Hq; [reflexivity |].
    symmetry. now apply delete_id. }
  split; [exact Hmap |].
  split; [unfold queue_removed; now intros -> |].
  split.
  - intros q Hq. unfold queue_removed. rewrite Hq. js_proj.
    split; [now rewrite lookup_insert_eq |].
    intros q' Hne. now rewrite lookup_insert_ne by congruence.
  - rewrite removeMessageQueue_eq. f_equal.
    unfold queue_removed at 1. rewrite Hmap, lookup_delete_eq. reflexivity.
Qed.

(** A frame handled while no queue is registered only leaves a line in the
    log. *)
Lemma handleIncomingMessage_without_queues
    (JSON_parse : string -> option Json) (messageData : string) (w : World) :
  messageQueues w = ∅ ->
  exists level line,
    _handleIncomingMessage JSON_parse messageData w
    = (add_effect (Logged level line) w, Normal tt).
Proof.
  intros Hempty. unfold _handleIncomingMessage.
  destruct (JSON_parse messageData) as [frame |]; [| do 2 eexists; reflexivity].
  destruct (get_property frame "request_id") as [e | requestId];
    [do 2 eexists; reflexivity |].
  destruct (negb (truthy requestId)); [do 2 eexists; reflexivity |].
  unfold try_catch, bind, gets.
  assert (Hnone : lookup_queue (default JNull requestId) w = None).
  { unfold lookup_queue. destruct (default JNull requestId); try reflexivity.
    rewrite Hempty. apply lookup_empty. }
  rewrite Hnone. do 2 eexists. reflexivity.
Qed.

(** [closeAllMessageQueues] empties the queue map and closes every queue
    that was registered; with no queue registered it does nothing at all,
    not even log; a second call right after the first changes nothing; and
    a frame that arrives afterwards, for whatever request, is dropped with a
    log line without bringing any queue back. *)
Theorem closeAllMessageQueues_is_final
    (JSON_parse : string -> option Json) (w : World) :
  let w' := closed_all w in
  closeAllMessageQueues w = (w', Normal tt)
  /\ messageQueues w' = ∅
  /\ (forall requestId q,
        messageQueues w !! requestId = Some q -> closed (queue q w') = true)
  /\ (messageQueues w = ∅ -> w' = w)
  /\ closeAllMessageQueues w' = (w', Normal tt)
  /\ (forall messageData,
        exists level line,
          _handleIncomingMessage JSON_parse messageData w'
          = (add_effect (Logged level line) w', Normal tt)).
Proof.
  cbv zeta.
  split; [apply closeAllMessageQueues_eq |].
  split; [apply closed_all_messageQueues |].
  split; [apply closed_all_closes |].
  split.
  { intros Hempty. unfold closed_all. now rewrite Hempty, map_size_empty. }
  split.
  { rewrite closeAllMessageQueues_eq. f_equal.
    unfold closed_all at 1. now rewrite closed_all_messageQueues, map_size_empty. }
  intros messageData. apply handleIncomingMessage_without_queues.
  apply closed_all_messageQueues.
Qed.

(** ** Teardown *)

(** [_removeConnection] removes the entry of the account the closing socket
    is stamped with, whichever socket is registered there: when another
    socket holds the entry, that socket is unregistered although nothing has
    closed it, and (the page being alive) a grace period starts for the
    account. *)
Theorem stale_teardown_unregisters_the_newer_socket
    (websocket other : WsId) (a : Z) (w : World) :
  _authIndex (socket websocket w) = Some a ->
  (0 <= a)%Z ->
  connectionsByAuth w !! a = Some other ->
  other <> websocket ->
  let w' := removed websocket w in
  _removeConnection websocket w = (w', Normal tt)
  /\ connectionsByAuth w' !! a = None
  /\ socket other w' = socket other w
  /\ (page_is_gone a w = false ->
      reconnectGraceTimers w' !! a = Some (nextTimerId w)
      /\ timers w' !! nextTimerId w = Some (mkTimer (GraceExpiry a) gracePeriodMs)).
Proof.
  intros Hstamp Hvalid Hother Hne. cbv zeta.
  split; [apply removeConnection_eq |].
  unfold removed. rewrite Hstamp.
  apply Z.leb_le in Hvalid. rewrite Hvalid.
  destruct (page_is_gone a w).
  - unfold reconnect_skipped. js_proj.
    destruct (reconnectGraceTimers w !! a); js_proj;
      (split; [apply lookup_delete_eq |]; split; [reflexivity | discriminate]).
  - unfold grace_started. js_proj.
    destruct (reconnectGraceTimers w !! a); js_proj;
      (split; [apply lookup_delete_eq |]; split; [reflexivity |];
       intros _; split; apply lookup_insert_eq).
Qed.

(** [_removeConnection] when the browser manager reports the page of the
    account closed or missing: the account is unregistered, its grace-timer
    entry is removed and the timer it names is cancelled, no other timer is
    touched and none is started; flags, suspended callbacks and queues are
    not touched. *)
Theorem teardown_with_page_gone_starts_no_grace_period
    (websocket : WsId) (a : Z) (w : World) :
  _authIndex (socket websocket w) = Some a ->
  (0 <= a)%Z ->
  page_is_gone a w = true ->
  let w' := removed websocket w in
  _removeConnection websocket w = (w', Normal tt)
  /\ connectionsByAuth w' !! a = None
  /\ reconnectGraceTimers w' !! a = None
  /\ timers w' = match reconnectGraceTimers w !! a with
                 | Some timerId => delete timerId (timers w)
                 | None => timers w
                 end
  /\ nextTimerId w' = nextTimerId w
  /\ reconnectingAccounts w' = reconnectingAccounts w
  /\ awaiting w' = awaiting w
  /\ messageQueues w' = messageQueues w
  /\ queues w' = queues w.
Proof.
  intros Hstamp Hvalid Hgone. cbv zeta.
  split; [apply removeConnection_eq |].
  unfold removed. rewrite Hstamp.
  apply Z.leb_le in Hvalid. rewrite Hvalid, Hgone.
  unfold reconnect_skipped. js_proj.
  destruct (reconnectGraceTimers w !! a) as [timerId |] eqn:Hentry; js_proj.
  - split; [apply lookup_delete_eq |].
    split; [apply lookup_delete_eq | repeat split].
  - split; [apply lookup_delete_eq |].
    split; [exact Hentry | repeat split].
Qed.

(** [closeConnectionByAuth] (source lines 265-285).  With no connection
    registered for the account it only writes a debug line.  Otherwise
    [close()] is called on the registered socket without code or reason, an
    error it raises is logged and swallowed, and the entry is removed at once;
    the socket keeps its listeners and its stamp, no other socket is touched,
    nothing is emitted, and queues, flags and suspended callbacks stay as
    they are. *)
Theorem closeConnectionByAuth_closes_and_unregisters (a : Z) (w : World) :
  let w' := closed_by_auth a w in
  closeConnectionByAuth a w = (w', Normal tt)
  /\ connectionsByAuth w' = delete a (connectionsByAuth w)
  /\ messageQueues w' = messageQueues w
  /\ queues w' = queues w
  /\ reconnectingAccounts w' = reconnectingAccounts w
  /\ awaiting w' = awaiting w
  /\ (connectionsByAuth w !! a = None ->
      w' = add_effect (Logged LDebug (NoConnectionToClose a)) w)
  /\ (forall connection,
        connectionsByAuth w !! a = Some connection ->
        closeCalls (socket connection w') = closeCalls (socket connection w) ++ [(None, None)]
        /\ listeners (socket connection w') = listeners (socket connection w)
        /\ _authIndex (socket connection w') = _authIndex (socket connection w)
        /\ (forall other, other <> connection -> socket other w' = socket other w)
        /\ reconnectGraceTimers w' = delete a (reconnectGraceTimers w)).
Proof.
  cbv zeta.
  split; [apply closeConnectionByAuth_eq |].
  unfold closed_by_auth.
  destruct (connectionsByAuth w !! a) as [connection |] eqn:Hconn.
  - destruct (closeThrows (socket connection w));
      destruct (reconnectGraceTimers w !! a) as [timerId |] eqn:Hentry; js_proj;
      (do 5 (split; [reflexivity |]); split; [discriminate |];
       intros ? [= <-]; rewrite lookup_insert_eq; cbn [default id closeCalls listeners _authIndex];
       do 3 (split; [reflexivity |]);
       split; [intros other Hne; now rewrite lookup_insert_ne by congruence |];
       try reflexivity; symmetry; now apply delete_id).
  - js_proj. split; [symmetry; now apply delete_id |].
    do 4 (split; [reflexivity |]). split; [reflexivity | discriminate].
Qed.

(** ** Events *)

Lemma events_app (xs ys : list Effect) : events (xs ++ ys) = events xs ++ events ys.
Proof.
  induction xs as [| [level line | event | b] rest IH]; cbn [events app];
    [reflexivity | exact IH | now rewrite IH | exact IH].
Qed.

Lemma events_closed_all (w : World) : events (trace (closed_all w)) = events (trace w).
Proof.
  unfold closed_all. destruct (0 <? size (messageQueues w))%nat; [| reflexivity].
  js_proj. rewrite events_app. apply app_nil_r.
Qed.

Ltac events_simpl :=
  unfold emitted;
  repeat progress (js_proj; rewrite ?events_app, ?events_closed_all);
  cbn [events app]; rewrite ?app_nil_r.

Lemma emitted_existing_closed (websocket : WsId) (a : Z) (w : World) :
  emitted (existing_closed websocket a w) = emitted w.
Proof.
  unfold existing_closed.
  destruct (connectionsByAuth w !! a) as [existing |]; [| reflexivity].
  destruct (negb (existing =? websocket)%nat); [| reflexivity].
  destruct (closeThrows (socket existing w)); events_simpl; reflexivity.
Qed.

Lemma emitted_grace_cleared (a : Z) (w : World) :
  emitted (grace_cleared a w) = emitted w.
Proof.
  unfold grace_cleared.
  destruct (reconnectGraceTimers w !! a) as [timerId |]; [| reflexivity].
  destruct ((a =? default (-1)%Z (getCurrentAuthIndex w))%Z
            && (0 <? size (messageQueues w))%nat); events_simpl; reflexivity.
Qed.

Lemma emitted_connected (websocket : WsId) (clientInfo : ClientInfo) (w : World) :
  emitted (connected websocket clientInfo w) = emitted w ++ [connectionAdded websocket].
Proof.
  unfold connected, connection_stored. events_simpl.
  fold (emitted (grace_cleared (integer_value (authIndex clientInfo))
                   (existing_closed websocket (integer_value (authIndex clientInfo)) w))).
  now rewrite emitted_grace_cleared, emitted_existing_closed.
Qed.

Lemma emitted_removed (websocket : WsId) (w : World) :
  emitted (removed websocket w) = emitted w ++ [connectionRemoved websocket].
Proof.
  unfold removed.
  destruct (_authIndex (socket websocket w)) as [a |]; [| events_simpl; reflexivity].
  destruct (0 <=? a)%Z; [| events_simpl; reflexivity].
  destruct (page_is_gone a w).
  - unfold reconnect_skipped. js_proj.
    destruct (reconnectGraceTimers w !! a); events_simpl; reflexivity.
  - unfold grace_started. js_proj.
    destruct (reconnectGraceTimers w !! a); events_simpl; reflexivity.
Qed.

Lemma emitted_closed_by_auth (a : Z) (w : World) :
  emitted (closed_by_auth a w) = emitted w.
Proof.
  unfold closed_by_auth.
  destruct (connectionsByAuth w !! a) as [connection |]; [| events_simpl; reflexivity].
  destruct (closeThrows (socket connection w));
    destruct (reconnectGraceTimers w !! a); events_simpl; reflexivity.
Qed.




(** What the registry emits about connections.  [addConnection] emits
    [connectionAdded] once when it accepts the socket and nothing when it
    rejects it; [_removeConnection] emits [connectionRemoved] once on every
    path, the early returns included; [closeConnectionByAuth] emits nothing
    itself. *)
Theorem connection_events
    (websocket : WsId) (clientInfo : ClientInfo) (a : Z) (w : World) :
  emitted (exec (addConnection websocket clientInfo) w)
  = emitted w ++ (if is_undefined (authIndex clientInfo) || lt_zero (authIndex clientInfo)
                     || negb (Number_isInteger (authIndex clientInfo))
                  then [] else [connectionAdded websocket])
  /\ emitted (exec (_removeConnection websocket) w)
     = emitted w ++ [connectionRemoved websocket]
  /\ emitted (exec (closeConnectionByAuth a) w) = emitted w.
Proof.
  unfold exec.
  rewrite addConnection_total, removeConnection_eq, closeConnectionByAuth_eq. cbn [fst].
  split; [| split; [apply emitted_removed | apply emitted_closed_by_auth]].
  destruct (is_undefined (authIndex clientInfo) || lt_zero (authIndex clientInfo)
            || negb (Number_isInteger (authIndex clientInfo))).
  - unfold rejected. events_simpl. reflexivity.
  - apply emitted_connected.
Qed.

Lemma suspended_awaiting (timerId : TimerId) (a : Z) (w : World) :
  awaiting (grace_expired a (set_timers (delete timerId) w))
  = if suspends a w then <[nextTimerId w := a]> (awaiting w) else awaiting w.
Proof.
  set (w1 := set_timers (delete timerId) w).
  unfold grace_expired, suspends.
  destruct (queues_settled_same a w1)
    as (_ & _ & Hflag & _ & Hnext & Haw & _ & _ & Hcb & _).
  rewrite Hcb, Hflag. change (onConnectionLostCallback w1) with (onConnectionLostCallback w).
  change (reconnectingAccounts w1) with (reconnectingAccounts w).
  destruct (onConnectionLostCallback w) as [callback |]; [| exact Haw].
  destruct (negb (default false (reconnectingAccounts w !! a))); cbn [andb]; [| exact Haw].
  destruct (callback a) as [[| | message] |]; [exact Haw .. |].
  unfold recovery_suspended, recovery_called, marked_reconnecting. js_proj.
  now rewrite Hnext, Haw.
Qed.

Lemma suspends_or_fails (a : Z) (w : World) :
  suspends a w = true -> fails_at_once a w = false.
Proof.
  unfold suspends, fails_at_once.
  destruct (onConnectionLostCallback w) as [callback |]; [| reflexivity].
  destruct (negb (default false (reconnectingAccounts w !! a))); [| reflexivity].
  destruct (callback a); [discriminate | reflexivity].
Qed.


(** ** What the registry is given and never changes *)

Lemma surroundings_trans (w1 w2 w3 : World) :
  same_surroundings w1 w2 -> same_surroundings w2 w3 -> same_surroundings w1 w3.
Proof.
  intros (H1 & H2 & H3) (G1 & G2 & G3). unfold same_surroundings.
  rewrite G1, G2, G3. exact (conj H1 (conj H2 H3)).
Qed.

Lemma surroundings_closed_all (w : World) : same_surroundings w (closed_all w).
Proof. unfold closed_all. destruct (0 <? size (messageQueues w))%nat; repeat split. Qed.

Lemma surroundings_existing_closed (websocket : WsId) (a : Z) (w : World) :
  same_surroundings w (existing_closed websocket a w).
Proof.
  unfold existing_closed.
  destruct (connectionsByAuth w !! a) as [existing |]; [| repeat split].
  destruct (negb (existing =? websocket)%nat); [| repeat split].
  destruct (closeThrows (socket existing w)); repeat split.
Qed.

Lemma surroundings_grace_cleared (a : Z) (w : World) :
  same_surroundings w (grace_cleared a w).
Proof.
  unfold grace_cleared.
  destruct (reconnectGraceTimers w !! a) as [timerId |]; [| repeat split].
  destruct ((a =? default (-1)%Z (getCurrentAuthIndex w))%Z
            && (0 <? size (messageQueues w))%nat); [| repeat split].
  match goal with |- context [closed_all ?w0] =>
    destruct (surroundings_closed_all w0) as (H1 & H2 & H3)
  end.
  unfold same_surroundings. rewrite H1, H2, H3. repeat split.
Qed.

Lemma surroundings_connected (websocket : WsId) (clientInfo : ClientInfo) (w : World) :
  same_surroundings w (connected websocket clientInfo w).
Proof.
  unfold connected.
  set (a := integer_value (authIndex clientInfo)).
  destruct (surroundings_existing_closed websocket a w) as (H1 & H2 & H3).
  destruct (surroundings_grace_cleared a (existing_closed websocket a w)) as (G1 & G2 & G3).
  unfold same_surroundings, connection_stored. js_proj.
  rewrite G1, G2, G3, H1, H2, H3. repeat split.
Qed.

Lemma surroundings_removed (websocket : WsId) (w : World) :
  same_surroundings w (removed websocket w).
Proof.
  unfold removed.
  destruct (_authIndex (socket websocket w)) as [a |]; [| repeat split].
  destruct (0 <=? a)%Z; [| repeat split].
  destruct (page_is_gone a w).
  - unfold reconnect_skipped. js_proj. destruct (reconnectGraceTimers w !! a); repeat split.
  - unfold grace_started. js_proj. destruct (reconnectGraceTimers w !! a); repeat split.
Qed.

Lemma surroundings_closed_by_auth (a : Z) (w : World) :
  same_surroundings w (closed_by_auth a w).
Proof.
  unfold closed_by_auth.
  destruct (connectionsByAuth w !! a) as [connection |]; [| repeat split].
  destruct (closeThrows (socket connection w));
    destruct (reconnectGraceTimers w !! a); repeat split.
Qed.

Lemma surroundings_queues_settled (a : Z) (w : World) :
  same_surroundings w (queues_settled a w).
Proof.
  destruct (queues_settled_same a w) as (_ & _ & _ & _ & _ & _ & _ & _ & H1 & H2 & H3).
  exact (conj H1 (conj H2 H3)).
Qed.

Lemma surroundings_grace_expired (a : Z) (w : World) :
  same_surroundings w (grace_expired a w).
Proof.
  apply (surroundings_trans w (queues_settled a w)); [apply surroundings_queues_settled |].
  unfold grace_expired.
  set (w2 := queues_settled a w).
  destruct (onConnectionLostCallback w2) as [callback |] eqn:Hcb; [| repeat split].
  destruct (negb (default false (reconnectingAccounts w2 !! a))); [| repeat split].
  destruct (callback a) as [[| | message] |]; repeat split.
Qed.

Lemma surroundings_resumed (timeoutId : TimerId) (how : Settlement) (w : World) :
  same_surroundings w (resumed timeoutId how w).
Proof.
  destruct (awaiting w !! timeoutId) eqn:Hawait;
    resumed_cases how; rewrite Hawait; repeat split.
Qed.

Lemma surroundings_fired (id : TimerId) (w : World) : same_surroundings w (fired id w).
Proof.
  unfold fired.
  destruct (timers w !! id) as [[[a |] d] |]; cbn [task]; [| | repeat split].
  - apply (surroundings_grace_expired a (set_timers (delete id) w)).
  - apply (surroundings_resumed id _ (set_timers (delete id) w)).
Qed.

(** ** The grace period as [isInGracePeriod] reports it *)

Lemma isInGracePeriod_deleted (a : Z) (w w' : World) :
  getCurrentAuthIndex w' = getCurrentAuthIndex w ->
  reconnectGraceTimers w' = delete a (reconnectGraceTimers w) ->
  isInGracePeriod w' = if (a =? current_account w)%Z then false else isInGracePeriod w.
Proof.
  intros Hcur Hgrace. unfold isInGracePeriod, current_account. rewrite Hcur, Hgrace.
  destruct (Z.eqb_spec a (default (-1)%Z (getCurrentAuthIndex w))) as [<- | Hne].
  - rewrite lookup_delete_eq.
    rewrite bool_decide_eq_false_2 by (intros [? ?]; discriminate).
    apply andb_false_r.
  - now rewrite lookup_delete_ne.
Qed.

Lemma isInGracePeriod_inserted (a : Z) (timerId : TimerId) (w w' : World) :
  (0 <= a)%Z ->
  getCurrentAuthIndex w' = getCurrentAuthIndex w ->
  reconnectGraceTimers w' = <[a := timerId]> (reconnectGraceTimers w) ->
  isInGracePeriod w' = if (a =? current_account w)%Z then true else isInGracePeriod w.
Proof.
  intros Hvalid Hcur Hgrace. unfold isInGracePeriod, current_account. rewrite Hcur, Hgrace.
  destruct (Z.eqb_spec a (default (-1)%Z (getCurrentAuthIndex w))) as [<- | Hne].
  - rewrite lookup_insert_eq.
    rewrite bool_decide_eq_true_2 by eauto.
    apply Z.leb_le in Hvalid. now rewrite Hvalid.
  - now rewrite lookup_insert_ne.
Qed.

Lemma isInGracePeriod_kept (w w' : World) :
  getCurrentAuthIndex w' = getCurrentAuthIndex w ->
  reconnectGraceTimers w' = reconnectGraceTimers w ->
  isInGracePeriod w' = isInGracePeriod w.
Proof. intros Hcur Hgrace. unfold isInGracePeriod. now rewrite Hcur, Hgrace. Qed.

Lemma removed_graceTimers (websocket : WsId) (a : Z) (w : World) :
  _authIndex (socket websocket w) = Some a ->
  (0 <= a)%Z ->
  reconnectGraceTimers (removed websocket w)
  = if page_is_gone a w then delete a (reconnectGraceTimers w)
    else <[a := nextTimerId w]> (reconnectGraceTimers w).
Proof.
  intros Hstamp Hvalid. unfold removed. rewrite Hstamp.
  apply Z.leb_le in Hvalid. rewrite Hvalid.
  destruct (page_is_gone a w).
  - unfold reconnect_skipped. js_proj.
    destruct (reconnectGraceTimers w !! a) eqn:Hentry; js_proj; [reflexivity |].
    symmetry. now apply delete_id.
  - unfold grace_started. js_proj.
    destruct (reconnectGraceTimers w !! a); reflexivity.
Qed.

Lemma connected_graceTimers (websocket : WsId) (clientInfo : ClientInfo) (w : World) :
  reconnectGraceTimers (connected websocket clientInfo w)
  = delete (integer_value (authIndex clientInfo)) (reconnectGraceTimers w).
Proof.
  unfold connected.
  set (a := integer_value (authIndex clientInfo)).
  destruct (grace_cleared_same a (existing_closed websocket a w)) as (_ & _ & _ & _ & _ & H & _).
  destruct (existing_closed_same websocket a w) as (_ & _ & H' & _).
  unfold connection_stored. js_proj. now rewrite H, H'.
Qed.

Lemma valid_authIndex_nonneg (n : option JsNumber) :
  valid_authIndex n -> (0 <= integer_value n)%Z.
Proof.
  unfold valid_authIndex. rewrite !orb_false_iff, negb_false_iff.
  intros [[_ Hlt] Hint].
  destruct n as [[q | | |] |]; try discriminate.
  cbn in *. apply Z.ltb_ge in Hlt.
  apply Z.div_pos; lia.
Qed.

(** [isInGracePeriod] speaks about the current account only.  Without an
    accessor for the current account it is always false.  The teardown of a
    socket stamped with the current account makes it true, unless the
    browser manager reports the page gone, in which case it becomes false;
    the teardown of a socket of any other account, or of one that carries no
    stamp, leaves it as it is.  An accepted registration of the current
    account, on whatever socket, makes it false; that of any other account,
    and a rejected registration, leave it as it is. *)
Theorem isInGracePeriod_follows_the_current_account
    (websocket : WsId) (clientInfo : ClientInfo) (w : World) :
  (getCurrentAuthIndex w = None -> isInGracePeriod w = false)
  /\ (forall a,
        _authIndex (socket websocket w) = Some a ->
        (0 <= a)%Z ->
        isInGracePeriod (exec (_removeConnection websocket) w)
        = (if (a =? current_account w)%Z then negb (page_is_gone a w)
           else isInGracePeriod w))
  /\ (_authIndex (socket websocket w) = None ->
      isInGracePeriod (exec (_removeConnection websocket) w) = isInGracePeriod w)
  /\ (valid_authIndex (authIndex clientInfo) ->
      isInGracePeriod (exec (addConnection websocket clientInfo) w)
      = (if (integer_value (authIndex clientInfo) =? current_account w)%Z then false
         else isInGracePeriod w))
  /\ (invalid_authIndex (authIndex clientInfo) ->
      isInGracePeriod (exec (addConnection websocket clientInfo) w) = isInGracePeriod w).
Proof.
  split; [| split; [| split; [| split]]].
  - intros Hnone. unfold isInGracePeriod. now rewrite Hnone.
  - intros a Hstamp Hvalid.
    unfold exec. rewrite removeConnection_eq. cbn [fst].
    destruct (surroundings_removed websocket w) as (_ & Hcur & _).
    pose proof (removed_graceTimers websocket a w Hstamp Hvalid) as Hgrace.
    destruct (page_is_gone a w); cbn [negb].
    + now apply isInGracePeriod_deleted.
    + now apply (isInGracePeriod_inserted a (nextTimerId w)).
  - intros Hstamp. unfold exec. rewrite removeConnection_eq. cbn [fst].
    unfold removed. rewrite Hstamp. reflexivity.
  - intros Hguard. unfold exec. rewrite addConnection_valid by exact Hguard. cbn [fst].
    destruct (surroundings_connected websocket clientInfo w) as (_ & Hcur & _).
    apply isInGracePeriod_deleted; [exact Hcur | apply connected_graceTimers].
  - intros Hbad. unfold exec.
    rewrite addConnection_invalid by (now apply invalid_authIndex_guard). reflexivity.
Qed.

Lemma grace_expired_graceTimers (a : Z) (w : World) :
  reconnectGraceTimers (grace_expired a w)
  = if suspends a w || fails_at_once a w then reconnectGraceTimers w
    else delete a (reconnectGraceTimers w).
Proof.
  unfold grace_expired, suspends, fails_at_once.
  destruct (queues_settled_same a w) as (_ & Hgrace & Hflag & _ & _ & _ & _ & _ & Hcb & _).
  rewrite Hcb, Hflag.
  destruct (onConnectionLostCallback w) as [callback |];
    [| unfold lost_finalized; js_proj; now rewrite Hgrace].
  destruct (negb (default false (reconnectingAccounts w !! a))); cbn [andb orb];
    [| unfold lost_finalized; js_proj; now rewrite Hgrace].
  destruct (callback a) as [[| | message] |];
    unfold recovery_threw, recovery_suspended, recovery_called, marked_reconnecting,
      lost_finalized; cbn [message_of nullish orb]; js_proj; now rewrite Hgrace.
Qed.

Lemma resumed_graceTimers (timeoutId : TimerId) (a : Z) (how : Settlement) (w : World) :
  awaiting w !! timeoutId = Some a ->
  reconnectGraceTimers (resumed timeoutId how w)
  = if rejected_nullish how then reconnectGraceTimers w
    else delete a (reconnectGraceTimers w).
Proof.
  intros Hawait. resumed_cases how; rewrite Hawait; reflexivity.
Qed.

(** The grace period of the current account, as [isInGracePeriod] reports
    it, does not end when the grace timer fires but when the timer's callback
    reaches its end (source line 193): while the callback waits for the
    recovery attempt the answer stays what it was, and it becomes false for
    the current account once the callback has finished, at once or after
    being resumed.  A callback whose recovery attempt fails with [undefined]
    or [null] does not get there, its catch clause throws: the entry stays
    and the answer remains what it was. *)
Theorem isInGracePeriod_lasts_until_the_grace_callback_ends
    (timerId : TimerId) (a d : Z) (w : World) :
  timers w !! timerId = Some (mkTimer (GraceExpiry a) d) ->
  let w' := exec (fire timerId) w in
  let ended := if (a =? current_account w)%Z then false else isInGracePeriod w in
  if suspends a w
  then isInGracePeriod w' = isInGracePeriod w
       /\ forall how,
            isInGracePeriod (exec (graceTimerResume (nextTimerId w) how) w')
            = if rejected_nullish how then isInGracePeriod w else ended
  else isInGracePeriod w' = if fails_at_once a w then isInGracePeriod w else ended.
Proof.
  intros Hpending. cbv zeta.
  set (w1 := set_timers (delete timerId) w).
  assert (Hfire : exec (fire timerId) w = grace_expired a w1).
  { unfold exec. rewrite (fire_grace_eq timerId a d) by exact Hpending. reflexivity. }
  rewrite Hfire. clear Hfire.
  destruct (surroundings_grace_expired a w1) as (_ & Hcur & _).
  pose proof (grace_expired_graceTimers a w1) as Hgrace.
  change (suspends a w1) with (suspends a w) in Hgrace.
  change (fails_at_once a w1) with (fails_at_once a w) in Hgrace.
  change (getCurrentAuthIndex w1) with (getCurrentAuthIndex w) in Hcur.
  change (reconnectGraceTimers w1) with (reconnectGraceTimers w) in Hgrace.
  destruct (suspends a w) eqn:Hsusp; cbn [orb] in Hgrace.
  - split; [now apply isInGracePeriod_kept |].
    intros how. unfold exec. rewrite graceTimerResume_eq. cbn [fst].
    assert (Hawait : awaiting (grace_expired a w1) !! nextTimerId w = Some a).
    { subst w1. rewrite suspended_awaiting, Hsusp. apply lookup_insert_eq. }
    destruct (surroundings_resumed (nextTimerId w) how (grace_expired a w1)) as (_ & Hcur' & _).
    pose proof (resumed_graceTimers (nextTimerId w) a how _ Hawait) as Hgrace'.
    destruct (rejected_nullish how).
    + apply isInGracePeriod_kept; congruence.
    + apply (isInGracePeriod_deleted a w); congruence.
  - destruct (fails_at_once a w).
    + now apply isInGracePeriod_kept.
    + apply (isInGracePeriod_deleted a w); assumption.
Qed.

(** ** Exceptions *)




(** ** Properties kept by every task *)

Section Preservation.

Variable JSON_parse : string -> option Json.
Variable ok : Task -> World -> Prop.
Variable P : World -> Prop.
Hypothesis HP : preserved ok P.

Lemma preserved_handleIncomingMessage (messageData : string) (w : World) :
  Inv (core w) -> P w ->
  exists w',
    _handleIncomingMessage JSON_parse messageData w = (w', Normal tt)
    /\ Inv (core w') /\ P w'.
Proof.
  intros I Hw. unfold _handleIncomingMessage.
  destruct (JSON_parse messageData) as [frame |];
    [| eexists; split; [reflexivity | split; [exact I | now apply (kept_logged ok P HP)]]].
  destruct (get_property frame "request_id") as [e | requestId] eqn:Hid;
    [eexists; split; [reflexivity | split; [exact I | now apply (kept_logged ok P HP)]] |].
  destruct (negb (truthy requestId));
    [eexists; split; [reflexivity | split; [exact I | now apply (kept_logged ok P HP)]] |].
  unfold try_catch, bind, gets.
  destruct (lookup_queue (default JNull requestId) w) as [q |] eqn:Hq.
  - rewrite routeMessage_routed.
    + eexists. split; [reflexivity |].
      split; [now rewrite core_routed |].
      unfold lookup_queue in Hq.
      destruct (default JNull requestId) as [| | | key | |]; try discriminate.
      now apply (kept_routed ok P HP frame key).
    + destruct frame; cbn in Hid |- *; try discriminate; eauto.
  - eexists. split; [reflexivity | split; [exact I | now apply (kept_logged ok P HP)]].
Qed.

Lemma preserved_run_listener (payload : string) (l : Listener) (w : World) :
  Inv (core w) /\ P w ->
  exists w', run_listener JSON_parse payload l w = (w', Normal tt) /\ Inv (core w') /\ P w'.
Proof.
  intros [I Hw]. destruct l as [| websocket |]; cbn [run_listener].
  - now apply preserved_handleIncomingMessage.
  - rewrite removeConnection_eq. eexists. split; [reflexivity |].
    split; [now apply inv_removed | now apply (kept_removed ok P HP)].
  - eexists. split; [reflexivity |]. split; [exact I | now apply (kept_logged ok P HP)].
Qed.

Lemma preserved_step (t : Task) (w : World) :
  ok t w -> Inv (core w) -> P w ->
  Inv (core (exec (step JSON_parse t) w)) /\ P (exec (step JSON_parse t) w).
Proof.
  intros Hok I Hw.
  split; [destruct (step_total JSON_parse t w I) as (w' & Hstep & I');
          unfold exec; now rewrite Hstep |].
  unfold exec. destruct t; cbn [step].
  - rewrite addConnection_total. cbn [fst].
    destruct (is_undefined (authIndex clientInfo) || lt_zero (authIndex clientInfo)
              || negb (Number_isInteger (authIndex clientInfo))) eqn:Hguard.
    + now apply (kept_rejected ok P HP).
    + now apply (kept_connected ok P HP).
  - destruct (ws_emit_total JSON_parse (fun w0 => Inv (core w0) /\ P w0) websocket event payload w)
      as (w' & Hrun & _ & Hw'); [| now split | now rewrite Hrun].
    intros l w0 H0. destruct (preserved_run_listener payload l w0 H0) as (w' & Hrun & H').
    eauto.
  - rewrite closeConnectionByAuth_eq. now apply (kept_closed_by_auth ok P HP).
  - unfold bind. rewrite getConnectionByAuth_eq. cbn [fst]. unfold looked_up.
    destruct (connectionsByAuth w !! authIndex0); now apply (kept_logged ok P HP).
  - now apply (kept_queue_created ok P HP).
  - rewrite removeMessageQueue_eq. now apply (kept_queue_removed ok P HP).
  - rewrite closeAllMessageQueues_eq. now apply (kept_closed_all ok P HP).
  - rewrite fire_eq. now apply (kept_fired ok P HP).
  - rewrite graceTimerResume_eq. now apply (kept_resumed ok P HP).
  - unfold modify. cbn [fst].
    destruct (getCurrentAuthIndex w); [now apply (kept_current ok P HP) | exact Hw].
  - unfold modify. cbn [fst].
    destruct (browserManager w); [now apply (kept_contexts ok P HP) | exact Hw].
Qed.

Lemma preserved_reachable (w : World) :
  (forall t w0, ok t w0) ->
  (forall callback current manager, P (new_registry callback current manager)) ->
  reachable JSON_parse w -> P w.
Proof.
  intros Hok Hnew Hreach.
  induction Hreach as [callback current manager | w t Hreach IH]; [apply Hnew |].
  apply preserved_step; [apply Hok | now apply (reachable_inv JSON_parse) | exact IH].
Qed.

End Preservation.

(** ** The moves of the reconnect state machine, account by account *)

Lemma core_move_inv (a : Z) (c c' : Core) : Inv c -> core_change a c c' -> Inv c'.
Proof.
  intros I [Hmove | Hslip].
  - destruct Hmove as [| ws Hg | t Hg | Hc | t d Ht | t d Ht Hflag | t Haw | t d Ht Haw].
    + now apply inv_conn_delete.
    + now apply inv_conn_insert.
    + now apply inv_drop.
    + now apply inv_start_grace.
    + now apply inv_drop.
    + now apply (inv_suspend t a d).
    + apply inv_finish_attempt; [now apply inv_drop | exact Haw].
    + now apply inv_timer_delete.
  - destruct Hslip as [t d Ht Hflag | t Haw].
    + now apply inv_timer_delete.
    + apply inv_finish_attempt; [now apply inv_timer_delete | exact Haw].
Qed.

Lemma moves_keep (Q : Core -> Prop) (c c' : Core) :
  (forall a c0 c1, Inv c0 -> Q c0 -> core_change a c0 c1 -> Q c1) ->
  Inv c -> Q c -> rtc any_move c c' -> Inv c' /\ Q c'.
Proof.
  intros Hmove I Hq Hsteps.
  induction Hsteps as [c | c c1 c2 [a Hstep] Hrest IH]; [now split |].
  apply IH; [now apply (core_move_inv a c) | now apply (Hmove a c)].
Qed.

Lemma ordinary_moves_keep (Q : Core -> Prop) (c c' : Core) :
  (forall a c0 c1, Inv c0 -> Q c0 -> core_move a c0 c1 -> Q c1) ->
  Inv c -> Q c -> rtc ordinary_move c c' -> Inv c' /\ Q c'.
Proof.
  intros Hmove I Hq Hsteps.
  induction Hsteps as [c | c c1 c2 [a Hstep] Hrest IH]; [now split |].
  apply IH; [apply (core_move_inv a c); [exact I | now left] | now apply (Hmove a c)].
Qed.

Lemma moves_connected (websocket : WsId) (clientInfo : ClientInfo) (w : World) :
  rtc (core_move (integer_value (authIndex clientInfo)))
    (core w) (core (connected websocket clientInfo w)).
Proof.
  unfold connected.
  set (a := integer_value (authIndex clientInfo)).
  set (w1 := existing_closed websocket a w).
  assert (H1 : core w1 = core w) by apply core_existing_closed.
  assert (Hg : reconnectGraceTimers w1 = reconnectGraceTimers w).
  { subst w1. now destruct (existing_closed_same websocket a w) as (_ & _ & -> & _). }
  change (core (connection_stored websocket a (address clientInfo) (grace_cleared a w1)))
    with (conn_insert a websocket (core (grace_cleared a w1))).
  rewrite core_grace_cleared, H1, Hg.
  destruct (reconnectGraceTimers w !! a) as [t |] eqn:Hentry.
  - eapply rtc_l; [apply (move_clear_grace a (core w) t); exact Hentry |].
    apply rtc_once, move_conn_insert.
    cbn [clear_grace c_graceTimers]. apply lookup_delete_eq.
  - apply rtc_once, move_conn_insert. exact Hentry.
Qed.

Lemma moves_removed (websocket : WsId) (w : World) :
  rtc (core_move (stamped_account websocket w)) (core w) (core (removed websocket w)).
Proof.
  unfold removed, stamped_account.
  destruct (_authIndex (socket websocket w)) as [a |]; [| apply rtc_refl].
  cbn [default id].
  destruct (0 <=? a)%Z; [| apply rtc_refl].
  destruct (page_is_gone a w).
  - unfold reconnect_skipped. js_proj.
    destruct (reconnectGraceTimers w !! a) as [t |] eqn:Hentry.
    + change (rtc (core_move a) (core w) (clear_grace a t (conn_delete a (core w)))).
      eapply rtc_l; [apply move_conn_delete |].
      apply rtc_once, move_clear_grace. exact Hentry.
    + change (rtc (core_move a) (core w) (conn_delete a (core w))).
      apply rtc_once, move_conn_delete.
  - change (rtc (core_move a) (core w)
              (core (grace_started a
                       (add_effect (Logged LInfo (ClientDisconnected (Some a)))
                          (connectionsByAuth_delete a w))))).
    rewrite core_grace_started.
    change (rtc (core_move a) (core w) (start_grace a (conn_delete a (core w)))).
    eapply rtc_l; [apply move_conn_delete |].
    apply rtc_once, move_start_grace.
    cbn [conn_delete c_connections]. apply lookup_delete_eq.
Qed.

Lemma moves_closed_by_auth (a : Z) (w : World) :
  rtc (core_move a) (core w) (core (closed_by_auth a w)).
Proof.
  unfold closed_by_auth.
  destruct (connectionsByAuth w !! a) as [connection |]; [| apply rtc_refl].
  destruct (closeThrows (socket connection w));
    (destruct (reconnectGraceTimers w !! a) as [t |] eqn:Hentry;
     [ change (rtc (core_move a) (core w) (clear_grace a t (conn_delete a (core w))));
       eapply rtc_l; [apply move_conn_delete |];
       apply rtc_once, move_clear_grace; exact Hentry
     | change (rtc (core_move a) (core w) (conn_delete a (core w)));
       apply rtc_once, move_conn_delete ]).
Qed.

Lemma moves_resumed (timeoutId : TimerId) (how : Settlement) (w : World) :
  rejected_nullish how = false ->
  rtc (core_move (suspended_account timeoutId w)) (core w) (core (resumed timeoutId how w)).
Proof.
  intros Hn. rewrite core_resumed, Hn. unfold suspended_account.
  destruct (awaiting w !! timeoutId) as [a |] eqn:Hawait; [| apply rtc_refl].
  cbn [default id]. apply rtc_once, move_finish. exact Hawait.
Qed.

Lemma changes_resumed (timeoutId : TimerId) (how : Settlement) (w : World) :
  rtc (core_change (suspended_account timeoutId w)) (core w) (core (resumed timeoutId how w)).
Proof.
  destruct (rejected_nullish how) eqn:Hn.
  - rewrite core_resumed, Hn. unfold suspended_account.
    destruct (awaiting w !! timeoutId) as [a |] eqn:Hawait; [| apply rtc_refl].
    cbn [default id]. apply rtc_once. right. apply slip_at_settlement. exact Hawait.
  - eapply rtc_subrel; [| now apply moves_resumed]. intros x y Hxy. now left.
Qed.

Lemma moves_grace_expired (timerId : TimerId) (a d : Z) (w : World) :
  Inv (core w) ->
  timers w !! timerId = Some (mkTimer (GraceExpiry a) d) ->
  fails_at_once a w = false ->
  rtc (core_move a) (core w) (core (grace_expired a (set_timers (delete timerId) w))).
Proof.
  intros I Hpending Hquiet.
  rewrite core_grace_expired by exact (flag_true _ I a).
  assert (Hexpire : core_move a (core w) (clear_grace a timerId (core w)))
    by (apply (move_expire a (core w) timerId d); exact Hpending).
  unfold fails_at_once in Hquiet.
  destruct (onConnectionLostCallback w) as [callback |]; [| now apply rtc_once].
  destruct (negb (default false (reconnectingAccounts w !! a))) eqn:Hnot;
    [| now apply rtc_once].
  cbn [andb] in Hquiet.
  destruct (callback a) as [reason |].
  - rewrite Hquiet. now apply rtc_once.
  - apply rtc_once. apply (move_suspend a (core w) timerId d); [exact Hpending |].
    cbn [core c_reconnecting]. rewrite (unflagged a w I Hnot). discriminate.
Qed.

Lemma changes_grace_expired (timerId : TimerId) (a d : Z) (w : World) :
  Inv (core w) ->
  timers w !! timerId = Some (mkTimer (GraceExpiry a) d) ->
  rtc (core_change a) (core w) (core (grace_expired a (set_timers (delete timerId) w))).
Proof.
  intros I Hpending.
  destruct (fails_at_once a w) eqn:Hfails.
  - rewrite core_grace_expired by exact (flag_true _ I a).
    unfold fails_at_once in Hfails.
    destruct (onConnectionLostCallback w) as [callback |]; [| discriminate].
    destruct (negb (default false (reconnectingAccounts w !! a))) eqn:Hnot; [| discriminate].
    cbn [andb] in Hfails.
    destruct (callback a) as [reason |]; [| discriminate].
    rewrite Hfails. apply rtc_once. right.
    apply (slip_at_expiry a (core w) timerId d); [exact Hpending |].
    cbn [core c_reconnecting]. exact (unflagged a w I Hnot).
  - eapply rtc_subrel; [| now apply (moves_grace_expired timerId a d)].
    intros x y Hxy. now left.
Qed.

Lemma moves_timed_out (timerId : TimerId) (d : Z) (w : World) :
  timers w !! timerId = Some (mkTimer ReconnectTimeout d) ->
  rtc (core_move (suspended_account timerId w)) (core w)
    (core (resumed timerId timed_out (set_timers (delete timerId) w))).
Proof.
  intros Hpending.
  rewrite core_resumed. cbn [timed_out rejected_nullish nullish]. unfold suspended_account.
  change (awaiting (set_timers (delete timerId) w)) with (awaiting w).
  change (core (set_timers (delete timerId) w)) with (timer_delete timerId (core w)).
  destruct (awaiting w !! timerId) as [a |] eqn:Hawait; cbn [default id].
  - replace (clear_grace a timerId (timer_delete timerId (core w)))
      with (clear_grace a timerId (core w))
      by (unfold clear_grace, timer_delete;
          cbn [c_connections c_graceTimers c_reconnecting c_timers c_nextTimer c_awaiting];
          now rewrite delete_delete_eq).
    apply rtc_once, move_finish. exact Hawait.
  - apply rtc_once. apply (move_stray_timeout _ (core w) timerId d); assumption.
Qed.

Lemma moves_fired (timerId : TimerId) (w : World) :
  Inv (core w) ->
  fire_completion timerId w = Normal tt ->
  rtc (core_move (timer_account timerId w)) (core w) (core (fired timerId w)).
Proof.
  intros I Hquiet. unfold fired, timer_account, fire_completion in *.
  destruct (timers w !! timerId) as [[[a |] d] |] eqn:Hpending; cbn [task] in *;
    [| | apply rtc_refl].
  - apply (moves_grace_expired timerId a d); [exact I | exact Hpending |].
    destruct (fails_at_once a w) eqn:Hfails; [| reflexivity].
    destruct (expiry_completion_thrown a w Hfails) as [e He]. congruence.
  - now apply (moves_timed_out timerId d).
Qed.

Lemma changes_fired (timerId : TimerId) (w : World) :
  Inv (core w) ->
  rtc (core_change (timer_account timerId w)) (core w) (core (fired timerId w)).
Proof.
  intros I. unfold fired, timer_account.
  destruct (timers w !! timerId) as [[[a |] d] |] eqn:Hpending; cbn [task];
    [| | apply rtc_refl].
  - now apply (changes_grace_expired timerId a d).
  - eapply rtc_subrel; [| now apply (moves_timed_out timerId d)].
    intros x y Hxy. now left.
Qed.

(** What the tasks do to the core is a series of steps of [R], given that
    the ordinary moves are such steps and that the timer tasks allowed by
    [ok] only take such steps. *)
Lemma steps_preserved (ok : Task -> World -> Prop) (R : Z -> Core -> Core -> Prop)
    (c0 : Core) :
  (forall a c c', core_move a c c' -> R a c c') ->
  (forall id w, ok (TimerFires id) w -> Inv (core w) ->
                rtc (R (timer_account id w)) (core w) (core (fired id w))) ->
  (forall id how w, ok (CallbackSettles id how) w ->
                    rtc (R (suspended_account id w)) (core w) (core (resumed id how w))) ->
  preserved ok (fun w => rtc (fun c c' => exists a, R a c c') c0 (core w)).
Proof.
  intros Hsub Hfired Hresumed.
  assert (Hlift : forall a c c', rtc (fun c c' => exists a, R a c c') c0 c ->
                                 rtc (R a) c c' ->
                                 rtc (fun c c' => exists a, R a c c') c0 c').
  { intros a c c' H0 H. eapply rtc_trans; [exact H0 |].
    eapply rtc_subrel; [| exact H]. intros x y Hxy. now exists a. }
  assert (Hmoves : forall a c c', rtc (fun c c' => exists a, R a c c') c0 c ->
                                  rtc (core_move a) c c' ->
                                  rtc (fun c c' => exists a, R a c c') c0 c').
  { intros a c c' H0 H. apply (Hlift a c c' H0).
    eapply rtc_subrel; [| exact H]. intros x y. apply Hsub. }
  constructor.
  - intros level line w _ H. exact H.
  - intros websocket n w _ H. exact H.
  - intros websocket clientInfo w _ _ H. eapply Hmoves; [exact H | apply moves_connected].
  - intros websocket w _ H. eapply Hmoves; [exact H | apply moves_removed].
  - intros frame requestId q w _ _ H. now rewrite core_routed.
  - intros a w _ H. eapply Hmoves; [exact H | apply moves_closed_by_auth].
  - intros requestId w _ H. exact H.
  - intros requestId w _ H. unfold queue_removed.
    destruct (messageQueues w !! requestId); exact H.
  - intros w _ H. now rewrite core_closed_all.
  - intros id w Hok I H. eapply Hlift; [exact H | now apply Hfired].
  - intros timeoutId how w Hok _ H. eapply Hlift; [exact H | now apply Hresumed].
  - intros a w _ H. exact H.
  - intros contexts w _ H. exact H.
Qed.

Lemma changes_preserved (c0 : Core) : preserved always (fun w => rtc any_move c0 (core w)).
Proof.
  apply (steps_preserved always core_change c0).
  - intros a c c' H. now left.
  - intros id w _ I. now apply changes_fired.
  - intros id how w _. apply changes_resumed.
Qed.

Lemma moves_preserved (c0 : Core) :
  preserved ends_quietly (fun w => rtc ordinary_move c0 (core w)).
Proof.
  apply (steps_preserved ends_quietly core_move c0).
  - auto.
  - intros id w Hok I. now apply moves_fired.
  - intros id how w Hok. cbn [ends_quietly] in Hok. unfold resume_completion in Hok.
    destruct (awaiting w !! id) as [a |] eqn:Hawait.
    + apply moves_resumed.
      destruct (rejected_nullish how) eqn:Hn; [| reflexivity].
      destruct (settlement_completion_thrown how Hn) as [e He]. congruence.
    + unfold resumed. rewrite Hawait. apply rtc_refl.
Qed.

(** What a task does to the core is a series of moves and slips; of moves
    only, when no grace-timer callback ends by an exception. *)
Lemma step_moves (JSON_parse : string -> option Json) (t : Task) (w : World) :
  Inv (core w) -> rtc any_move (core w) (core (exec (step JSON_parse t) w)).
Proof.
  intros I.
  apply (preserved_step JSON_parse always _ (changes_preserved (core w)) t w);
    [exact Logic.I | exact I | apply rtc_refl].
Qed.

Lemma step_moves_quietly (JSON_parse : string -> option Json) (t : Task) (w : World) :
  ends_quietly t w ->
  Inv (core w) -> rtc ordinary_move (core w) (core (exec (step JSON_parse t) w)).
Proof.
  intros Hok I.
  apply (preserved_step JSON_parse ends_quietly _ (moves_preserved (core w)) t w);
    [exact Hok | exact I | apply rtc_refl].
Qed.

(** A property of the core that holds initially and is kept by every move
    and slip holds in every reachable world. *)
Lemma reachable_core (JSON_parse : string -> option Json) (Q : Core -> Prop) (w : World) :
  Q new_core ->
  (forall a c c', Inv c -> Q c -> core_change a c c' -> Q c') ->
  reachable JSON_parse w -> Q (core w).
Proof.
  intros Hnew Hmove Hreach.
  induction Hreach as [callback current manager | w t Hreach IH]; [exact Hnew |].
  pose proof (reachable_inv JSON_parse w Hreach) as I.
  apply (moves_keep Q (core w)); [exact Hmove | exact I | exact IH |].
  now apply step_moves.
Qed.

Lemma quietly_reachable (JSON_parse : string -> option Json) (w : World) :
  reachable_quietly JSON_parse w -> reachable JSON_parse w.
Proof. induction 1; now constructor. Qed.

(** One that is kept by every move holds as long as no grace-timer callback
    has ended by an exception. *)
Lemma quietly_core (JSON_parse : string -> option Json) (Q : Core -> Prop) (w : World) :
  Q new_core ->
  (forall a c c', Inv c -> Q c -> core_move a c c' -> Q c') ->
  reachable_quietly JSON_parse w -> Q (core w).
Proof.
  intros Hnew Hmove Hreach.
  induction Hreach as [callback current manager | w t Hreach IH Hquiet]; [exact Hnew |].
  pose proof (reachable_inv JSON_parse w (quietly_reachable JSON_parse w Hreach)) as I.
  apply (ordinary_moves_keep Q (core w)); [exact Hmove | exact I | exact IH |].
  now apply step_moves_quietly.
Qed.

(** ** Grace-timer entries in every reachable world *)

Lemma pending_move (a : Z) (c c' : Core) :
  Inv c -> Pending c -> core_move a c c' -> Pending c'.
Proof.
  intros [I1 I2 I3 I4 I5 I6 I7 I8 I9] P5 Hmove.
  destruct Hmove as [| ws Hg | t Hg | Hc | t d Ht | t d Ht Hflag | t Haw | t d Ht Haw];
    unfold Pending in *; core_simpl.
  - exact P5.
  - exact P5.
  - intros b t' H. in_delete H.
    destruct (P5 b t' H) as [[d Hd] | [Hn Haw]].
    + left. exists d. rewrite lookup_delete_ne; [assumption |].
      intros ->. destruct (P5 a t' Hg) as [[d' Hd'] | [Hn' _]]; congruence.
    + right. split; [now apply delete_lookup_None | assumption].
  - intros b t H. in_insert H.
    + injection H as <-. left. exists gracePeriodMs. now rewrite lookup_insert_eq.
    + pose proof (I4 _ _ H) as Hlt.
      rewrite lookup_insert_ne by lia.
      destruct (P5 b t H) as [[d Hd] | [Hn Haw]].
      * left. exists d. destruct (c_graceTimers c !! a) as [t0 |] eqn:E; [| assumption].
        rewrite lookup_delete_ne; [assumption |].
        intros ->. destruct (P5 a t E) as [[d' Hd'] | [Hn' _]]; congruence.
      * right. split; [| assumption].
        destruct (c_graceTimers c !! a) as [t0 |]; [| assumption].
        now apply delete_lookup_None.
  - intros b t' H. in_delete H.
    destruct (P5 b t' H) as [[d0 Hd] | [Hn Haw]].
    + left. exists d0. rewrite lookup_delete_ne; [assumption |].
      intros ->. congruence.
    + right. split; [now apply delete_lookup_None | assumption].
  - intros b t' H. pose proof (I4 _ _ H) as Hlt.
    rewrite lookup_insert_ne by lia.
    destruct (P5 b t' H) as [[d' Hd'] | [Hn [tid Haw]]].
    + destruct (decide (t = t')) as [<- | Hne].
      * assert (b = a) as -> by congruence.
        right. split; [apply lookup_delete_eq |].
        exists (c_nextTimer c). apply lookup_insert_eq.
      * left. exists d'. now rewrite lookup_delete_ne.
    + right. split; [now apply delete_lookup_None |].
      exists tid. rewrite lookup_insert_ne; [assumption |].
      apply I2 in Haw. lia.
  - intros b t' H. in_delete H.
    destruct (P5 b t' H) as [[d' Hd'] | [Hn [tid' Haw']]].
    + left. exists d'. rewrite lookup_delete_ne; [assumption |].
      intros ->. pose proof (I3 _ _ _ Haw Hd') as Htask. discriminate Htask.
    + right. split; [now apply delete_lookup_None |].
      exists tid'. rewrite lookup_delete_ne; [assumption |]. intros <-. congruence.
  - intros b t' H.
    destruct (P5 b t' H) as [[d0 Hd] | [Hn Haw']].
    + left. exists d0. rewrite lookup_delete_ne; [assumption |].
      intros ->. congruence.
    + right. split; [now apply delete_lookup_None | assumption].
Qed.

Lemma pending_new : Pending new_core.
Proof. intros a t H. cbn in H. rewrite lookup_empty in H. discriminate H. Qed.

Lemma quietly_pending (JSON_parse : string -> option Json) (w : World) :
  reachable_quietly JSON_parse w -> Pending (core w).
Proof.
  apply (quietly_core JSON_parse Pending); [apply pending_new |].
  intros a c c'. apply pending_move.
Qed.

Lemma run_quietly (JSON_parse : string -> option Json) (tasks : list Task) (w : World) :
  Forall (fun t => match t with
                   | TimerFires _ | CallbackSettles _ _ => False
                   | _ => True
                   end) tasks ->
  reachable_quietly JSON_parse w -> reachable_quietly JSON_parse (run JSON_parse tasks w).
Proof.
  intros Hall. revert w. induction Hall as [| t rest Ht Hrest IH]; intros w Hw; [exact Hw |].
  cbn [run]. apply IH. constructor; [exact Hw |].
  destruct t; try exact I; destruct Ht.
Qed.

(** C9, amended.  In every reachable world an account that has a
    grace-timer entry has no registered connection.  As long as no
    grace-timer callback has ended by an exception, its loss is moreover not
    finalized yet: its grace timer is pending, or the callback of that timer
    is suspended on the recovery attempt.  And in any world, the close of a
    socket stamped with an account whose page is alive leaves the account
    unregistered, with a fresh entry and the matching 5000 ms timer pending.
    The converse, that an account without a connection whose loss is not
    finalized has an entry, is not claimed. *)
Theorem C9_entry_implies_disconnected_and_pending
    (JSON_parse : string -> option Json) (w : World) :
  (reachable JSON_parse w ->
   forall a timerId,
     reconnectGraceTimers w !! a = Some timerId ->
     connectionsByAuth w !! a = None /\ (timerId < nextTimerId w)%nat)
  /\ (reachable_quietly JSON_parse w ->
      forall a timerId,
        reconnectGraceTimers w !! a = Some timerId -> loss_pending a w)
  /\ (forall websocket b,
        _authIndex (socket websocket w) = Some b ->
        (0 <= b)%Z ->
        page_is_gone b w = false ->
        let w' := removed websocket w in
        _removeConnection websocket w = (w', Normal tt)
        /\ connectionsByAuth w' !! b = None
        /\ reconnectGraceTimers w' !! b = Some (nextTimerId w)
        /\ timers w' !! nextTimerId w = Some (mkTimer (GraceExpiry b) gracePeriodMs)
        /\ loss_pending b w').
Proof.
  split; [| split].
  - intros Hreach a timerId Hentry.
    pose proof (reachable_inv JSON_parse w Hreach) as I.
    split; [exact (grace_disconnected _ I a timerId Hentry)
           | exact (grace_bounded _ I a timerId Hentry)].
  - intros Hquiet a timerId Hentry.
    destruct (quietly_pending JSON_parse w Hquiet a timerId Hentry) as [[d Hd] | [_ [tid Htid]]].
    + left. exists timerId, d. exact Hd.
    + right. exists tid. exact Htid.
  - intros websocket b Hstamp Hvalid Hpage w'.
    split; [apply removeConnection_eq |].
    assert (Htimer : timers w' !! nextTimerId w = Some (mkTimer (GraceExpiry b) gracePeriodMs)).
    { subst w'. unfold removed. rewrite Hstamp.
      apply Z.leb_le in Hvalid. rewrite Hvalid, Hpage.
      unfold grace_started. js_proj.
      destruct (reconnectGraceTimers w !! b); js_proj; apply lookup_insert_eq. }
    split; [| split; [| split; [exact Htimer |]]].
    + subst w'. unfold removed. rewrite Hstamp.
      apply Z.leb_le in Hvalid. rewrite Hvalid, Hpage.
      unfold grace_started. js_proj.
      destruct (reconnectGraceTimers w !! b); js_proj; apply lookup_delete_eq.
    + subst w'. unfold removed. rewrite Hstamp.
      apply Z.leb_le in Hvalid. rewrite Hvalid, Hpage.
      unfold grace_started. js_proj.
      destruct (reconnectGraceTimers w !! b); js_proj; apply lookup_insert_eq.
    + left. exists (nextTimerId w), gracePeriodMs. exact Htimer.
Qed.

Lemma C9_witness :
  let w := run no_parser [Accept 1 (client 0); SocketEmits 1 EvClose ""] fresh_registry in
  reachable_quietly no_parser w
  /\ reconnectGraceTimers w !! 0%Z = Some 0
  /\ connectionsByAuth w !! 0%Z = None
  /\ loss_pending 0 w
  /\ reconnectGraceTimers (removed 1 connected_world) !! 0%Z = Some 0.
Proof.
  cbv zeta.
  assert (Hquiet : reachable_quietly no_parser
            (run no_parser [Accept 1 (client 0); SocketEmits 1 EvClose ""] fresh_registry))
    by (apply run_quietly; [repeat constructor | constructor]).
  split; [exact Hquiet |]. split; [reflexivity |].
  destruct (C9_entry_implies_disconnected_and_pending no_parser
              (run no_parser [Accept 1 (client 0); SocketEmits 1 EvClose ""] fresh_registry))
    as (Hconn & Hpending & _).
  split; [exact (proj1 (Hconn (quietly_reachable _ _ Hquiet) 0%Z 0 eq_refl)) |].
  split; [exact (Hpending Hquiet 0%Z 0 eq_refl) |].
  destruct (C9_entry_implies_disconnected_and_pending no_parser connected_world)
    as (_ & _ & Hclose).
  destruct (Hclose 1 0%Z) as (_ & _ & Hentry & _); [reflexivity | lia | reflexivity |].
  exact Hentry.
Defined.

(** ** Pending timers are accounted for *)

Lemma accounted_move (a : Z) (c c' : Core) :
  Inv c -> Accounted c -> core_move a c c' -> Accounted c'.
Proof.
  intros [I1 I2 I3 I4 I5 I6 I7 I8 I9] [T1 T2 T3] Hmove.
  destruct Hmove as [| ws Hg | t Hg | Hc | t d Ht | t d Ht Hflag | t Haw | t d Ht Haw].
  - constructor; core_simpl; assumption.
  - constructor; core_simpl; assumption.
  - constructor; core_simpl.
    + intros t' tm H. in_delete H. eauto.
    + intros t' b H. rewrite lookup_delete_ne; [eauto |].
      intros <-. rewrite (T3 _ _ Hg) in H. discriminate.
    + intros b t' H. in_delete H. eauto.
  - constructor; core_simpl.
    + intros t' tm H. in_insert H; [injection H as <-; left; eauto |].
      destruct (c_graceTimers c !! a) eqn:E; [in_delete H |]; eauto.
    + intros t' b H. pose proof (I2 _ _ H) as Hlt.
      rewrite lookup_insert_ne by lia.
      destruct (c_graceTimers c !! a) as [t0 |] eqn:E; [| eauto].
      rewrite lookup_delete_ne; [eauto |].
      intros <-. rewrite (T3 _ _ E) in H. discriminate.
    + intros b t' H. in_insert H; [| eauto].
      injection H as <-.
      destruct (c_awaiting c !! c_nextTimer c) eqn:E; [apply I2 in E; lia | reflexivity].
  - constructor; core_simpl.
    + intros t' tm H. in_delete H. eauto.
    + intros t' b H. rewrite lookup_delete_ne; [eauto |].
      intros <-. apply T2 in H. congruence.
    + intros b t' H. in_delete H. eauto.
  - constructor; core_simpl.
    + intros t' tm H. in_insert H.
      * injection H as <-. right. split; [reflexivity |].
        rewrite lookup_insert_eq. eauto.
      * in_delete H. destruct (T1 _ _ H) as [Hgrace | [Htm Hs]]; [left; exact Hgrace |].
        right. split; [exact Htm |]. now rewrite lookup_insert_ne.
    + intros t' b H. in_insert H; [apply lookup_insert_eq |].
      rewrite lookup_insert_ne by assumption.
      rewrite lookup_delete_ne; [eauto |].
      intros <-. apply T2 in H. congruence.
    + intros b t' H. pose proof (I4 _ _ H) as Hlt.
      rewrite lookup_insert_ne by lia. eauto.
  - constructor; core_simpl.
    + intros t' tm H. in_delete H.
      destruct (T1 _ _ H) as [Hgrace | [Htm Hs]]; [left; exact Hgrace |].
      right. split; [exact Htm |]. now rewrite lookup_delete_ne.
    + intros t' b H. in_delete H. rewrite lookup_delete_ne by assumption. eauto.
    + intros b t' H. in_delete H. apply delete_lookup_None. eauto.
  - destruct (T1 _ _ Ht) as [[b Hb] | [_ [x Hx]]]; [discriminate | congruence].
Qed.

Lemma accounted_slip (a : Z) (c c' : Core) :
  Inv c -> Accounted c -> core_slip a c c' -> Accounted c'.
Proof.
  intros [I1 I2 I3 I4 I5 I6 I7 I8 I9] [T1 T2 T3] Hslip.
  destruct Hslip as [t d Ht Hflag | t Haw].
  - constructor; core_simpl.
    + intros t' tm H. in_delete H. eauto.
    + intros t' b H. rewrite lookup_delete_ne; [eauto |].
      intros <-. apply T2 in H. congruence.
    + exact T3.
  - constructor; core_simpl.
    + intros t' tm H. in_delete H.
      destruct (T1 _ _ H) as [Hgrace | [Htm Hs]]; [left; exact Hgrace |].
      right. split; [exact Htm |]. now rewrite lookup_delete_ne.
    + intros t' b H. in_delete H. rewrite lookup_delete_ne by assumption. eauto.
    + intros b t' H. apply delete_lookup_None. eauto.
Qed.

Lemma accounted_new : Accounted new_core.
Proof.
  constructor; cbn; intros;
    match goal with H : ∅ !! _ = Some _ |- _ => rewrite lookup_empty in H; discriminate H end.
Qed.

Lemma reachable_accounted (JSON_parse : string -> option Json) (w : World) :
  reachable JSON_parse w -> Accounted (core w).
Proof.
  apply (reachable_core JSON_parse Accounted); [apply accounted_new |].
  intros a c c' I T [Hmove | Hslip];
    [now apply (accounted_move a c) | now apply (accounted_slip a c)].
Qed.

(** Every pending timer of a reachable world is accounted for.  It is a
    grace timer, with a delay of 5000 ms, or a reconnect timeout, with a
    delay of 55000 ms, whose grace callback is suspended with the account
    flagged as reconnecting.  Conversely a suspended callback has its timeout
    timer pending: the timeout is cleared exactly when the callback resumes,
    whichever way the race ends, so none is left behind.  And no grace-timer
    entry names a reconnect timeout. *)
Theorem pending_timers_are_accounted_for
    (JSON_parse : string -> option Json) (w : World) :
  reachable JSON_parse w ->
  (forall t timer,
     timers w !! t = Some timer ->
     (exists a, timer = mkTimer (GraceExpiry a) 5000)
     \/ (timer = mkTimer ReconnectTimeout 55000
         /\ exists a, awaiting w !! t = Some a /\ reconnectingAccounts w !! a = Some true))
  /\ (forall t a,
        awaiting w !! t = Some a ->
        timers w !! t = Some (mkTimer ReconnectTimeout 55000)
        /\ reconnectingAccounts w !! a = Some true)
  /\ (forall a t, reconnectGraceTimers w !! a = Some t -> awaiting w !! t = None).
Proof.
  intros Hreach.
  pose proof (reachable_inv JSON_parse w Hreach) as I.
  destruct (reachable_accounted JSON_parse w Hreach) as [T1 T2 T3].
  assert (Hflag : forall t a, awaiting w !! t = Some a ->
                              reconnectingAccounts w !! a = Some true).
  { intros t a Ht. apply (flag_in_flight _ I a). now exists t. }
  split; [| split].
  - intros t timer Ht. destruct (T1 t timer Ht) as [Hgrace | [Htimer [a Ha]]].
    + left. exact Hgrace.
    + right. split; [exact Htimer |]. exists a. split; [exact Ha | now apply (Hflag t)].
  - intros t a Ht. split; [now apply (T2 t a) | now apply (Hflag t)].
  - exact T3.
Qed.

(** ** [isReconnectingInProgress] *)

(** In a reachable world [isReconnectingInProgress] answers true exactly
    while some grace callback is suspended on its recovery attempt, that is,
    exactly while a reconnect timeout is pending. *)
Theorem isReconnectingInProgress_while_a_callback_is_suspended
    (JSON_parse : string -> option Json) (w : World) :
  reachable JSON_parse w ->
  (isReconnectingInProgress w = true <-> exists timeoutId a, awaiting w !! timeoutId = Some a)
  /\ (isReconnectingInProgress w = true
      <-> exists timeoutId, timers w !! timeoutId = Some (mkTimer ReconnectTimeout 55000)).
Proof.
  intros Hreach.
  pose proof (reachable_inv JSON_parse w Hreach) as I.
  destruct (reachable_accounted JSON_parse w Hreach) as [T1 T2 T3].
  assert (Hfirst : isReconnectingInProgress w = true
                   <-> exists timeoutId a, awaiting w !! timeoutId = Some a).
  { unfold isReconnectingInProgress. rewrite Nat.ltb_lt. split.
    - intros Hsize.
      assert (Hne : reconnectingAccounts w <> ∅)
        by (apply map_size_non_empty_iff; lia).
      apply map_choose in Hne as (a & flag & Ha).
      destruct flag; [| now destruct (flag_true _ I a)].
      apply (flag_in_flight _ I a) in Ha as [timeoutId Ht]. eauto.
    - intros (timeoutId & a & Ht).
      assert (Ha : reconnectingAccounts w !! a = Some true)
        by (apply (flag_in_flight _ I a); eauto).
      assert (Hne : size (reconnectingAccounts w) <> 0).
      { apply map_size_non_empty_iff. intros Hempty.
        rewrite Hempty, lookup_empty in Ha. discriminate. }
      lia. }
  split; [exact Hfirst |].
  rewrite Hfirst. split.
  - intros (timeoutId & a & Ht). exists timeoutId. now apply (T2 timeoutId a).
  - intros (timeoutId & Ht).
    destruct (T1 timeoutId _ Ht) as [[a Ha] | [_ [a Ha]]]; [discriminate | eauto].
Qed.

(** ** A connection and a grace-timer entry never coexist *)

(** In a reachable world an account with a registered connection has no
    grace-timer entry.  So [closeConnectionByAuth] never cancels a timer or
    removes an entry (source lines 278-281 do nothing): it leaves the timers
    and the grace-timer entries of every account, the one it is called for
    included, as they are.  And a registration that replaces a live
    connection clears no timer and closes no queue. *)
Theorem connection_and_grace_entry_never_coexist
    (JSON_parse : string -> option Json) (w : World) :
  reachable JSON_parse w ->
  (forall a connection,
     connectionsByAuth w !! a = Some connection -> reconnectGraceTimers w !! a = None)
  /\ (forall a,
        timers (exec (closeConnectionByAuth a) w) = timers w
        /\ reconnectGraceTimers (exec (closeConnectionByAuth a) w) = reconnectGraceTimers w)
  /\ (forall websocket clientInfo connection,
        valid_authIndex (authIndex clientInfo) ->
        connectionsByAuth w !! integer_value (authIndex clientInfo) = Some connection ->
        let w' := exec (addConnection websocket clientInfo) w in
        timers w' = timers w
        /\ reconnectGraceTimers w' = reconnectGraceTimers w
        /\ messageQueues w' = messageQueues w
        /\ queues w' = queues w).
Proof.
  intros Hreach.
  pose proof (reachable_inv JSON_parse w Hreach) as I.
  assert (Hnever : forall a connection,
            connectionsByAuth w !! a = Some connection -> reconnectGraceTimers w !! a = None).
  { intros a connection Hconn.
    destruct (reconnectGraceTimers w !! a) as [t |] eqn:Hentry; [| reflexivity].
    pose proof (grace_disconnected _ I a t Hentry) as Hnone.
    cbn [core c_connections] in Hnone. congruence. }
  split; [exact Hnever |]. split.
  - intros a. unfold exec. rewrite closeConnectionByAuth_eq. cbn [fst].
    unfold closed_by_auth.
    destruct (connectionsByAuth w !! a) as [connection |] eqn:Hconn; [| split; reflexivity].
    rewrite (Hnever a connection Hconn).
    destruct (closeThrows (socket connection w)); split; reflexivity.
  - intros websocket clientInfo connection Hvalid Hconn. cbv zeta.
    unfold exec. rewrite addConnection_valid by exact Hvalid. cbn [fst].
    unfold connected.
    set (a := integer_value (authIndex clientInfo)) in *.
    destruct (existing_closed_same websocket a w)
      as (_ & Hmq & Hgrace & _ & Htimers & _ & _ & Hqueues & _).
    assert (Hentry : reconnectGraceTimers (existing_closed websocket a w) !! a = None)
      by (rewrite Hgrace; now apply (Hnever a connection)).
    destruct (grace_cleared_same a (existing_closed websocket a w))
      as (_ & _ & _ & _ & _ & Ggrace & Gtimers).
    destruct (grace_cleared_keeps a (existing_closed websocket a w)) as [Gmq Gqueues];
      [now left |].
    rewrite Hentry in Gtimers.
    unfold connection_stored. js_proj.
    rewrite Gtimers, Ggrace, Gmq, Gqueues, Htimers, Hmq, Hqueues.
    rewrite delete_id by exact Hentry.
    repeat split; [exact Hgrace].
Qed.

(** ** Accounts are independent *)

Lemma untouched_refl (b : Z) (c : Core) : untouched b c c.
Proof. repeat split. Qed.

Lemma untouched_trans (b : Z) (c1 c2 c3 : Core) :
  untouched b c1 c2 -> untouched b c2 c3 -> untouched b c1 c3.
Proof.
  intros (H1 & H2 & H3 & H4) (G1 & G2 & G3 & G4).
  split; [congruence |]. split; [congruence |]. split; [congruence |].
  intros t Ht. rewrite G4 by congruence. now apply H4.
Qed.

(** A timer named by the entries of two accounts is not pending. *)
Lemma shared_timer_is_gone (a b : Z) (t : nat) (c : Core) :
  Inv c -> a <> b ->
  c_graceTimers c !! a = Some t -> c_graceTimers c !! b = Some t ->
  c_timers c !! t = None.
Proof.
  intros I Hne Ha Hb.
  destruct (grace_pending _ I a t Ha) as [[d Hd] | Hn]; [| exact Hn].
  destruct (grace_pending _ I b t Hb) as [[d' Hd'] | Hn]; [congruence | exact Hn].
Qed.

Lemma delete_lookup_kept {A} (m : gmap nat A) (i j : nat) :
  (i = j -> m !! j = None) -> delete i m !! j = m !! j.
Proof.
  intros H. destruct (decide (i = j)) as [<- | Hne].
  - rewrite lookup_delete_eq. symmetry. now apply H.
  - now apply lookup_delete_ne.
Qed.

Lemma untouched_move (a b : Z) (c c' : Core) :
  Inv c -> core_change a c c' -> b <> a -> untouched b c c'.
Proof.
  intros I Hchange Hne.
  pose proof (grace_bounded _ I) as Hbound.
  pose proof (grace_pending _ I) as Hpend.
  destruct Hchange as [Hmove | Hslip];
    [destruct Hmove as [| ws Hg | t Hg | Hc | t d Ht | t d Ht Hflag | t Haw | t d Ht Haw]
    | destruct Hslip as [t d Ht Hflag | t Haw]];
    unfold untouched; core_simpl.
  - rewrite lookup_delete_ne by congruence. repeat split.
  - rewrite lookup_insert_ne by congruence. repeat split.
  - rewrite lookup_delete_ne by congruence. do 3 (split; [reflexivity |]).
    intros t' Hb. apply delete_lookup_kept. intros <-.
    apply (shared_timer_is_gone a b t c); [exact I | congruence | exact Hg | exact Hb].
  - rewrite lookup_insert_ne by congruence. do 3 (split; [reflexivity |]).
    intros t' Hb. pose proof (Hbound _ _ Hb) as Hlt.
    rewrite lookup_insert_ne by lia.
    destruct (c_graceTimers c !! a) as [t0 |] eqn:Hentry; [| reflexivity].
    apply delete_lookup_kept. intros <-.
    apply (shared_timer_is_gone a b t0 c); [exact I | congruence | exact Hentry | exact Hb].
  - rewrite lookup_delete_ne by congruence. do 3 (split; [reflexivity |]).
    intros t' Hb. apply delete_lookup_kept. intros <-.
    destruct (Hpend b t Hb) as [[d' Hd'] | Hn]; congruence.
  - rewrite lookup_insert_ne by congruence. do 3 (split; [reflexivity |]).
    intros t' Hb. pose proof (Hbound _ _ Hb) as Hlt.
    rewrite lookup_insert_ne by lia.
    apply delete_lookup_kept. intros <-.
    destruct (Hpend b t Hb) as [[d' Hd'] | Hn]; congruence.
  - rewrite !lookup_delete_ne by congruence. do 3 (split; [reflexivity |]).
    intros t' Hb. apply delete_lookup_kept. intros <-.
    destruct (Hpend b t Hb) as [[d' Hd'] | Hn]; [| exact Hn].
    pose proof (awaiting_timer _ I t a _ Haw Hd') as Htask. discriminate Htask.
  - do 3 (split; [reflexivity |]).
    intros t' Hb. apply delete_lookup_kept. intros <-.
    destruct (Hpend b t Hb) as [[d' Hd'] | Hn]; congruence.
  - do 3 (split; [reflexivity |]).
    intros t' Hb. apply delete_lookup_kept. intros <-.
    destruct (Hpend b t Hb) as [[d' Hd'] | Hn]; congruence.
  - rewrite !lookup_delete_ne by congruence. do 3 (split; [reflexivity |]).
    intros t' Hb. apply delete_lookup_kept. intros <-.
    destruct (Hpend b t Hb) as [[d' Hd'] | Hn]; [| exact Hn].
    pose proof (awaiting_timer _ I t a _ Haw Hd') as Htask. discriminate Htask.
Qed.

Lemma untouched_moves (a b : Z) (c c' : Core) :
  Inv c -> rtc (core_change a) c c' -> b <> a -> untouched b c c'.
Proof.
  intros I Hsteps Hne.
  induction Hsteps as [c | c c1 c2 Hstep Hrest IH]; [apply untouched_refl |].
  apply (untouched_trans b c c1 c2).
  - now apply (untouched_move a).
  - apply IH. now apply (core_move_inv a c).
Qed.

Lemma untouched_ordinary (a b : Z) (c c' : Core) :
  Inv c -> rtc (core_move a) c c' -> b <> a -> untouched b c c'.
Proof.
  intros I Hsteps. apply untouched_moves; [exact I |].
  eapply rtc_subrel; [| exact Hsteps]. intros x y Hxy. now left.
Qed.

(** What the registry holds about one account is not changed by what happens
    to another (the source keeps grace timers and reconnect flags per
    account, lines 30-33).  In a reachable world, [addConnection],
    [_removeConnection] and [closeConnectionByAuth] for an account other
    than [b], a grace timer of another account firing, and the recovery
    attempt of another account ending, leave the connection of [b], its
    grace-timer entry with the timer it names, and its reconnecting flag as
    they are. *)
Theorem accounts_are_independent
    (JSON_parse : string -> option Json) (b : Z) (w : World) :
  reachable JSON_parse w ->
  (forall websocket clientInfo,
     integer_value (authIndex clientInfo) <> b ->
     untouched b (core w) (core (exec (addConnection websocket clientInfo) w)))
  /\ (forall websocket,
        _authIndex (socket websocket w) <> Some b ->
        untouched b (core w) (core (exec (_removeConnection websocket) w)))
  /\ (forall a,
        a <> b -> untouched b (core w) (core (exec (closeConnectionByAuth a) w)))
  /\ (forall timerId,
        (forall d, timers w !! timerId <> Some (mkTimer (GraceExpiry b) d)) ->
        awaiting w !! timerId <> Some b ->
        untouched b (core w) (core (exec (fire timerId) w)))
  /\ (forall timeoutId how,
        awaiting w !! timeoutId <> Some b ->
        untouched b (core w) (core (exec (graceTimerResume timeoutId how) w))).
Proof.
  intros Hreach. pose proof (reachable_inv JSON_parse w Hreach) as I.
  split; [| split; [| split; [| split]]].
  - intros websocket clientInfo Hne. unfold exec. rewrite addConnection_total. cbn [fst].
    destruct (is_undefined (authIndex clientInfo) || lt_zero (authIndex clientInfo)
              || negb (Number_isInteger (authIndex clientInfo))); [apply untouched_refl |].
    apply (untouched_ordinary (integer_value (authIndex clientInfo)));
      [exact I | apply moves_connected | congruence].
  - intros websocket Hne. unfold exec. rewrite removeConnection_eq. cbn [fst].
    destruct (_authIndex (socket websocket w)) as [a |] eqn:Hstamp.
    + apply (untouched_ordinary a); [exact I | | congruence].
      pose proof (moves_removed websocket w) as H.
      unfold stamped_account in H. rewrite Hstamp in H. exact H.
    + unfold removed. rewrite Hstamp. apply untouched_refl.
  - intros a Hne. unfold exec. rewrite closeConnectionByAuth_eq. cbn [fst].
    apply (untouched_ordinary a); [exact I | apply moves_closed_by_auth | congruence].
  - intros timerId Hgrace Hawait. unfold exec. rewrite fire_eq. cbn [fst].
    pose proof (changes_fired timerId w I) as H. unfold timer_account in H.
    destruct (timers w !! timerId) as [[[a |] d] |] eqn:Hpending; cbn [task] in H.
    + apply (untouched_moves a); [exact I | exact H |].
      intros ->. now apply (Hgrace d).
    + unfold suspended_account in H.
      destruct (awaiting w !! timerId) as [a |] eqn:Haw.
      * apply (untouched_moves a); [exact I | exact H | congruence].
      * unfold fired. rewrite Hpending. cbn [task]. unfold resumed.
        change (awaiting (set_timers (delete timerId) w)) with (awaiting w).
        rewrite Haw.
        apply (untouched_move (b + 1)%Z); [exact I | | lia].
        left. apply (move_stray_timeout _ (core w) timerId d); assumption.
    + unfold fired. rewrite Hpending. apply untouched_refl.
  - intros timeoutId how Hawait. unfold exec. rewrite graceTimerResume_eq. cbn [fst].
    pose proof (changes_resumed timeoutId how w) as H. unfold suspended_account in H.
    destruct (awaiting w !! timeoutId) as [a |] eqn:Haw.
    + apply (untouched_moves a); [exact I | exact H | congruence].
    + unfold resumed. rewrite Haw. apply untouched_refl.
Qed.

(** ** Sockets as registrations leave them *)

Lemma wired_kept (w w' : World) : sockets_kept w w' -> Wired w -> Wired w'.
Proof.
  intros (Hl & Hs & Hc) [W1 W2 W3 W4].
  constructor.
  - intros websocket. rewrite Hl. apply W1.
  - intros websocket a. rewrite Hs. apply W2.
  - intros websocket. rewrite Hl, Hs. apply W3.
  - intros a websocket Hreg. rewrite Hs. apply (W4 a). now apply Hc.
Qed.

Lemma sockets_kept_same (w w' : World) :
  sockets w' = sockets w -> connectionsByAuth w' = connectionsByAuth w -> sockets_kept w w'.
Proof.
  intros Hs Hc. unfold sockets_kept. rewrite Hs, Hc. repeat split; auto.
Qed.

Lemma grace_expired_sockets (a : Z) (w : World) :
  sockets (grace_expired a w) = sockets w
  /\ connectionsByAuth (grace_expired a w) = connectionsByAuth w.
Proof.
  destruct (queues_settled_same a w) as (Hc & _ & _ & _ & _ & _ & Hs & _).
  unfold grace_expired.
  set (w2 := queues_settled a w) in *.
  destruct (onConnectionLostCallback w2) as [callback |]; [| split; assumption].
  destruct (negb (default false (reconnectingAccounts w2 !! a))); [| split; assumption].
  destruct (callback a) as [[| | message] |]; split; assumption.
Qed.

Lemma resumed_sockets (timeoutId : TimerId) (how : Settlement) (w : World) :
  sockets (resumed timeoutId how w) = sockets w
  /\ connectionsByAuth (resumed timeoutId how w) = connectionsByAuth w.
Proof.
  destruct (awaiting w !! timeoutId) eqn:Hawait;
    resumed_cases how; rewrite Hawait; split; reflexivity.
Qed.

Lemma fired_sockets (timerId : TimerId) (w : World) :
  sockets (fired timerId w) = sockets w
  /\ connectionsByAuth (fired timerId w) = connectionsByAuth w.
Proof.
  unfold fired.
  destruct (timers w !! timerId) as [[[a |] d] |]; cbn [task]; [| | split; reflexivity].
  - apply (grace_expired_sockets a (set_timers (delete timerId) w)).
  - apply (resumed_sockets timerId _ (set_timers (delete timerId) w)).
Qed.

Lemma sockets_kept_removed (websocket : WsId) (w : World) :
  sockets_kept w (removed websocket w).
Proof.
  assert (Hsub : forall a b ws,
            delete a (connectionsByAuth w) !! b = Some ws -> connectionsByAuth w !! b = Some ws).
  { intros a b ws H. in_delete H. exact H. }
  unfold removed.
  destruct (_authIndex (socket websocket w)) as [a |];
    [| apply sockets_kept_same; reflexivity].
  destruct (0 <=? a)%Z; [| apply sockets_kept_same; reflexivity].
  destruct (page_is_gone a w).
  - unfold reconnect_skipped. js_proj.
    destruct (reconnectGraceTimers w !! a); (split; [| split]); js_proj; auto; apply Hsub.
  - unfold grace_started. js_proj.
    destruct (reconnectGraceTimers w !! a); (split; [| split]); js_proj; auto; apply Hsub.
Qed.

Lemma sockets_kept_closed_by_auth (a : Z) (w : World) :
  sockets_kept w (closed_by_auth a w).
Proof.
  unfold closed_by_auth.
  destruct (connectionsByAuth w !! a) as [connection |];
    [| apply sockets_kept_same; reflexivity].
  assert (Hsock : forall (other : nat) (s' : WebSocket),
            listeners s' = listeners (socket connection w) ->
            _authIndex s' = _authIndex (socket connection w) ->
            listeners (default fresh_socket (<[connection := s']> (sockets w) !! other))
            = listeners (socket other w)
            /\ _authIndex (default fresh_socket (<[connection := s']> (sockets w) !! other))
               = _authIndex (socket other w)).
  { intros other s' Hl Hs. destruct (decide (connection = other)) as [<- | Hne].
    - rewrite lookup_insert_eq. split; assumption.
    - rewrite lookup_insert_ne by exact Hne. split; reflexivity. }
  destruct (closeThrows (socket connection w));
    destruct (reconnectGraceTimers w !! a);
    (split; [| split]; js_proj;
     [ intros other; apply Hsock; reflexivity
     | intros other; apply Hsock; reflexivity
     | intros b ws H; in_delete H; exact H ]).
Qed.

Lemma sockets_kept_rejected (websocket : WsId) (n : option JsNumber) (w : World) :
  sockets_kept w (rejected websocket n w).
Proof.
  unfold rejected. split; [| split]; js_proj; [| | auto].
  - intros id. destruct (decide (websocket = id)) as [<- | Hne].
    + now rewrite lookup_insert_eq.
    + now rewrite lookup_insert_ne by exact Hne.
  - intros id. destruct (decide (websocket = id)) as [<- | Hne].
    + now rewrite lookup_insert_eq.
    + now rewrite lookup_insert_ne by exact Hne.
Qed.

Lemma existing_closed_socket (websocket : WsId) (a : Z) (w : World) (other : WsId) :
  _authIndex (socket other (existing_closed websocket a w)) = _authIndex (socket other w)
  /\ (listeners (socket other (existing_closed websocket a w)) = listeners (socket other w)
      \/ listeners (socket other (existing_closed websocket a w)) = []).
Proof.
  unfold existing_closed.
  destruct (connectionsByAuth w !! a) as [existing |]; [| split; [reflexivity | now left]].
  destruct (negb (existing =? websocket)%nat); [| split; [reflexivity | now left]].
  destruct (closeThrows (socket existing w)); js_proj;
    (destruct (decide (existing = other)) as [<- | Hne];
     [ rewrite !lookup_insert_eq; split; [reflexivity | now right]
     | rewrite !lookup_insert_ne by exact Hne; split; [reflexivity | now left] ]).
Qed.

Lemma connected_socket (websocket : WsId) (clientInfo : ClientInfo) (w : World) (other : WsId) :
  let a := integer_value (authIndex clientInfo) in
  socket other (connected websocket clientInfo w)
  = if decide (other = websocket) then wired websocket a (socket websocket w)
    else socket other (existing_closed websocket a w).
Proof.
  cbv zeta. unfold connected.
  set (a := integer_value (authIndex clientInfo)).
  destruct (grace_cleared_same a (existing_closed websocket a w)) as (_ & Hs & _).
  destruct (existing_closed_same websocket a w) as (_ & _ & _ & _ & _ & _ & _ & _ & _ & Hws).
  unfold connection_stored. js_proj. rewrite Hs.
  destruct (decide (other = websocket)) as [-> | Hne].
  - rewrite lookup_insert_eq. cbn [default id]. now rewrite Hws.
  - now rewrite lookup_insert_ne by congruence.
Qed.

Lemma connected_connections (websocket : WsId) (clientInfo : ClientInfo) (w : World) :
  connectionsByAuth (connected websocket clientInfo w)
  = <[integer_value (authIndex clientInfo) := websocket]> (connectionsByAuth w).
Proof.
  unfold connected.
  set (a := integer_value (authIndex clientInfo)).
  destruct (grace_cleared_same a (existing_closed websocket a w)) as (Hc & _).
  destruct (existing_closed_same websocket a w) as (Hc' & _).
  unfold connection_stored. js_proj. now rewrite Hc, Hc'.
Qed.

Lemma wired_connected (websocket : WsId) (clientInfo : ClientInfo) (w : World) :
  valid_authIndex (authIndex clientInfo) ->
  Wired w -> Wired (connected websocket clientInfo w).
Proof.
  intros Hvalid [W1 W2 W3 W4].
  apply valid_authIndex_nonneg in Hvalid.
  set (a := integer_value (authIndex clientInfo)) in *.
  constructor.
  - intros other. rewrite connected_socket. fold a.
    destruct (decide (other = websocket)) as [-> | Hne].
    + destruct (W1 websocket) as [k Hk]. exists (S k).
      unfold wired. cbn [listeners]. rewrite Hk. apply concat_repeat_snoc.
    + destruct (existing_closed_socket websocket a w other) as [_ [Hl | Hl]]; rewrite Hl.
      * apply W1.
      * now exists 0.
  - intros other b. rewrite connected_socket. fold a.
    destruct (decide (other = websocket)) as [-> | Hne].
    + unfold wired. cbn [_authIndex]. now intros [= <-].
    + destruct (existing_closed_socket websocket a w other) as [-> _]. apply W2.
  - intros other. rewrite connected_socket. fold a.
    destruct (decide (other = websocket)) as [-> | Hne].
    + intros _. unfold wired. cbn [_authIndex]. eauto.
    + destruct (existing_closed_socket websocket a w other) as [-> [Hl | Hl]]; rewrite Hl.
      * apply W3.
      * congruence.
  - intros b other. rewrite connected_connections, connected_socket. fold a.
    destruct (decide (other = websocket)) as [-> | Hne].
    + intros _. unfold wired. cbn [_authIndex]. eauto.
    + destruct (existing_closed_socket websocket a w other) as [-> _].
      intros H. in_insert H; [congruence |]. now apply (W4 b).
Qed.

Lemma wired_preserved : preserved always Wired.
Proof.
  constructor.
  - intros level line w _. apply wired_kept, sockets_kept_same; reflexivity.
  - intros websocket n w _. apply wired_kept, sockets_kept_rejected.
  - intros websocket clientInfo w Hvalid _. now apply wired_connected.
  - intros websocket w _. apply wired_kept, sockets_kept_removed.
  - intros frame requestId q w _ _. apply wired_kept.
    destruct (routed_same_registry frame q w) as (Hc & _ & _ & _ & _ & _ & _ & Hs & _).
    now apply sockets_kept_same.
  - intros a w _. apply wired_kept, sockets_kept_closed_by_auth.
  - intros requestId w _. apply wired_kept, sockets_kept_same; reflexivity.
  - intros requestId w _. apply wired_kept. unfold queue_removed.
    destruct (messageQueues w !! requestId); apply sockets_kept_same; reflexivity.
  - intros w _. apply wired_kept.
    destruct (closed_all_same_connections w) as (Hc & _ & _ & _ & _ & _ & Hs & _).
    now apply sockets_kept_same.
  - intros timerId w _ _. apply wired_kept.
    destruct (fired_sockets timerId w) as [Hs Hc]. now apply sockets_kept_same.
  - intros timeoutId how w _ _. apply wired_kept.
    destruct (resumed_sockets timeoutId how w) as [Hs Hc]. now apply sockets_kept_same.
  - intros a w _. apply wired_kept, sockets_kept_same; reflexivity.
  - intros contexts w _. apply wired_kept, sockets_kept_same; reflexivity.
Qed.

Lemma wired_new callback current manager : Wired (new_registry callback current manager).
Proof.
  constructor; cbn.
  - intros websocket. exists 0. now rewrite lookup_empty.
  - intros websocket a. rewrite lookup_empty. discriminate.
  - intros websocket. rewrite lookup_empty. intros H. now destruct H.
  - intros a websocket. rewrite lookup_empty. discriminate.
Qed.

Lemma reachable_wired (JSON_parse : string -> option Json) (w : World) :
  reachable JSON_parse w -> Wired w.
Proof.
  apply (preserved_reachable JSON_parse always Wired wired_preserved);
    [intros t w0; exact I | apply wired_new].
Qed.

Lemma listeners_for_error (websocket : WsId) (k : nat) :
  listeners_for EvError (concat (repeat (handlers websocket) k)) = repeat OnError k.
Proof.
  induction k as [| k IH]; [reflexivity |].
  cbn [repeat concat]. rewrite listeners_for_app, IH. reflexivity.
Qed.

(** In a reachable world the listener table of every socket consists of
    whole registrations: the message, close and error listeners of
    [addConnection], [k] times over.  So a message or close event of the
    socket runs its handler [k] times, and an error event is logged [k]
    times, except that with no listener at all ([k = 0]: a socket never
    accepted, or replaced since) the error event is thrown by the emitter
    instead.  A close listener always concerns the socket it is attached to;
    and when there is one the socket carries a valid stamp, so the teardown
    it triggers knows its account and never takes the early return of source
    lines 109-114.  A registered socket carries a valid stamp too. *)
Theorem listeners_are_whole_registrations
    (JSON_parse : string -> option Json) (websocket : WsId) (w : World) :
  reachable JSON_parse w ->
  (exists k,
     listeners (socket websocket w) = concat (repeat (handlers websocket) k)
     /\ (forall payload,
           ws_emit JSON_parse websocket EvClose payload w
           = times k (_removeConnection websocket) w)
     /\ (forall payload,
           ws_emit JSON_parse websocket EvMessage payload w
           = times k (_handleIncomingMessage JSON_parse payload) w)
     /\ (forall payload,
           ws_emit JSON_parse websocket EvError payload w
           = if (k =? 0)%nat then (w, Thrown (Error payload))
             else times k (log LError (ConnectionError payload)) w)
     /\ (k <> 0 ->
         exists a, _authIndex (socket websocket w) = Some a /\ (0 <= a)%Z))
  /\ (forall a,
        connectionsByAuth w !! a = Some websocket ->
        exists b, _authIndex (socket websocket w) = Some b /\ (0 <= b)%Z).
Proof.
  intros Hreach.
  destruct (reachable_wired JSON_parse w Hreach) as [W1 W2 W3 W4].
  split.
  - destruct (W1 websocket) as [k Hk]. exists k.
    destruct (listeners_for_registrations websocket k) as [Hmsg Hclose].
    split; [exact Hk |].
    split; [| split; [| split]].
    + intros payload. unfold ws_emit, bind, gets. rewrite Hk, Hclose.
      apply (for_each_repeat (run_listener JSON_parse payload)).
    + intros payload. unfold ws_emit, bind, gets. rewrite Hk, Hmsg.
      apply (for_each_repeat (run_listener JSON_parse payload)).
    + intros payload. unfold ws_emit, bind, gets. rewrite Hk, listeners_for_error.
      destruct k as [| k]; [reflexivity |].
      apply (for_each_repeat (run_listener JSON_parse payload) OnError (S k)).
    + intros Hk0.
      destruct (W3 websocket) as [a Ha].
      { rewrite Hk. destruct k as [| k]; [congruence | discriminate]. }
      exists a. split; [exact Ha | now apply (W2 websocket)].
  - intros a Hreg. destruct (W4 a websocket Hreg) as [b Hb].
    exists b. split; [exact Hb | now apply (W2 websocket)].
Qed.

(** ** Teardown run more than once *)

Lemma removed_alive (websocket : WsId) (a : Z) (w : World) :
  _authIndex (socket websocket w) = Some a ->
  (0 <= a)%Z ->
  page_is_gone a w = false ->
  let w1 := removed websocket w in
  sockets w1 = sockets w
  /\ browserManager w1 = browserManager w
  /\ connectionsByAuth w1 = delete a (connectionsByAuth w)
  /\ reconnectGraceTimers w1 = <[a := nextTimerId w]> (reconnectGraceTimers w)
  /\ nextTimerId w1 = S (nextTimerId w)
  /\ timers w1
     = <[nextTimerId w := mkTimer (GraceExpiry a) gracePeriodMs]>
         (match reconnectGraceTimers w !! a with
          | Some t => delete t (timers w)
          | None => timers w
          end).
Proof.
  intros Hstamp Hvalid Halive. cbv zeta. unfold removed. rewrite Hstamp.
  apply Z.leb_le in Hvalid. rewrite Hvalid, Halive.
  unfold grace_started. js_proj.
  destruct (reconnectGraceTimers w !! a); repeat split.
Qed.

(** [_removeConnection] run several times in a row for the same socket, as
    the close event of a socket registered several times does, while the
    page of its account is alive.  Each run cancels the grace timer the
    previous one started, so the runs together unregister the account and
    leave exactly one new pending grace timer, the one the grace-timer entry
    names; every other pending timer was pending before, and the timer the
    entry named before is cancelled.  [connectionRemoved] is emitted once
    per run. *)
Theorem repeated_teardown_leaves_one_grace_timer
    (websocket : WsId) (a : Z) (k : nat) (w : World) :
  _authIndex (socket websocket w) = Some a ->
  (0 <= a)%Z ->
  page_is_gone a w = false ->
  exists w',
    times (S k) (_removeConnection websocket) w = (w', Normal tt)
    /\ connectionsByAuth w' = delete a (connectionsByAuth w)
    /\ reconnectGraceTimers w' = <[a := k + nextTimerId w]> (reconnectGraceTimers w)
    /\ nextTimerId w' = S k + nextTimerId w
    /\ timers w' !! (k + nextTimerId w) = Some (mkTimer (GraceExpiry a) gracePeriodMs)
    /\ (forall t timer,
          timers w' !! t = Some timer ->
          t <> k + nextTimerId w ->
          timers w !! t = Some timer /\ reconnectGraceTimers w !! a <> Some t)
    /\ emitted w' = emitted w ++ repeat (connectionRemoved websocket) (S k).
Proof.
  revert w. induction k as [| k IH]; intros w Hstamp Hvalid Halive;
    destruct (removed_alive websocket a w Hstamp Hvalid Halive)
      as (Hs & Hm & Hc & Hg & Hn & Ht);
    unfold times; cbn [repeat for_each]; unfold bind at 1;
    rewrite removeConnection_eq.
  - exists (removed websocket w). split; [reflexivity |].
    split; [exact Hc |]. split; [exact Hg |]. split; [exact Hn |].
    cbn [Nat.add]. split; [rewrite Ht; apply lookup_insert_eq |].
    split; [| apply emitted_removed].
    intros t timer Hpending Hne. rewrite Ht in Hpending.
    rewrite lookup_insert_ne in Hpending by congruence.
    destruct (reconnectGraceTimers w !! a) as [t0 |]; [| split; [exact Hpending | discriminate]].
    in_delete Hpending. split; [exact Hpending | congruence].
  - destruct (IH (removed websocket w)) as (w' & Hrun & Hc' & Hg' & Hn' & Hnew & Hold & Hev).
    { now rewrite Hs. }
    { exact Hvalid. }
    { unfold page_is_gone in *. now rewrite Hm. }
    exists w'. split; [exact Hrun |].
    replace (S k + nextTimerId w) with (k + nextTimerId (removed websocket w))
      by (rewrite Hn; lia).
    split; [rewrite Hc', Hc; apply delete_delete_eq |].
    split; [rewrite Hg', Hg; apply insert_insert_eq |].
    split; [rewrite Hn', Hn; lia |].
    split; [exact Hnew |].
    split.
    + intros t timer Hpending Hne.
      destruct (Hold t timer Hpending Hne) as [Hbefore Hentry].
      rewrite Hg, lookup_insert_eq in Hentry.
      rewrite Ht in Hbefore.
      rewrite lookup_insert_ne in Hbefore by congruence.
      destruct (reconnectGraceTimers w !! a) as [t0 |];
        [| split; [exact Hbefore | discriminate]].
      in_delete Hbefore. split; [exact Hbefore | congruence].
    + rewrite Hev, emitted_removed, <- app_assoc. reflexivity.
Qed.

(** [closeConnectionByAuth] leaves the listeners of the socket attached, so
    the close event that follows runs [_removeConnection] for it.  For a
    socket registered under its own stamp, with the page of the account
    alive, the intentional close is therefore followed by a grace period
    like any other loss: the close event starts the grace timer of the
    account, and [isInGracePeriod] answers true if the account is the
    current one. *)
Theorem intentional_close_is_followed_by_a_grace_period
    (a : Z) (websocket : WsId) (w : World) :
  connectionsByAuth w !! a = Some websocket ->
  _authIndex (socket websocket w) = Some a ->
  (0 <= a)%Z ->
  page_is_gone a w = false ->
  let w1 := exec (closeConnectionByAuth a) w in
  let w2 := exec (_removeConnection websocket) w1 in
  listeners (socket websocket w1) = listeners (socket websocket w)
  /\ reconnectGraceTimers w1 !! a = None
  /\ reconnectGraceTimers w2 !! a = Some (nextTimerId w)
  /\ timers w2 !! nextTimerId w = Some (mkTimer (GraceExpiry a) gracePeriodMs)
  /\ (getCurrentAuthIndex w = Some a -> isInGracePeriod w2 = true).
Proof.
  intros Hreg Hstamp Hvalid Halive. cbv zeta.
  unfold exec. rewrite closeConnectionByAuth_eq. cbn [fst].
  rewrite removeConnection_eq. cbn [fst].
  destruct (sockets_kept_closed_by_auth a w) as (Hl & Hs & _).
  destruct (surroundings_closed_by_auth a w) as (_ & Hcur & Hm).
  assert (Hnext : nextTimerId (closed_by_auth a w) = nextTimerId w).
  { unfold closed_by_auth. rewrite Hreg.
    destruct (closeThrows (socket websocket w));
      destruct (reconnectGraceTimers w !! a); reflexivity. }
  assert (Hentry : reconnectGraceTimers (closed_by_auth a w) !! a = None).
  { unfold closed_by_auth. rewrite Hreg.
    destruct (closeThrows (socket websocket w));
      destruct (reconnectGraceTimers w !! a) eqn:E; js_proj;
      try apply lookup_delete_eq; exact E. }
  destruct (removed_alive websocket a (closed_by_auth a w))
    as (_ & _ & _ & Hg & _ & Ht).
  { now rewrite Hs. }
  { exact Hvalid. }
  { unfold page_is_gone in *. now rewrite Hm. }
  split; [apply Hl |]. split; [exact Hentry |].
  split; [rewrite Hg, Hnext; apply lookup_insert_eq |].
  split; [rewrite Ht, Hnext; apply lookup_insert_eq |].
  intros Hcurrent.
  destruct (surroundings_removed websocket (closed_by_auth a w)) as (_ & Hcur' & _).
  unfold isInGracePeriod. rewrite Hcur', Hcur, Hcurrent. cbn [default id].
  rewrite Hg, lookup_insert_eq.
  apply Z.leb_le in Hvalid. rewrite Hvalid.
  now rewrite bool_decide_eq_true_2 by eauto.
Qed.

(** ** Queue objects *)

Lemma fresh_kept (w w' : World) : queues_kept w w' -> QueuesFresh w -> QueuesFresh w'.
Proof.
  intros (Hn & Hm & Hq) [Q1 Q2 Q3].
  constructor.
  - intros requestId q H. rewrite Hn. apply (Q1 requestId). now apply Hm.
  - intros r1 r2 q H1 H2. apply (Q2 r1 r2 q); now apply Hm.
  - intros q x H. rewrite Hn.
    destruct (Hq q x H) as [[y Hy] | [requestId Hr]];
      [now apply (Q3 q y) | now apply (Q1 requestId)].
Qed.

Lemma queues_kept_same (w w' : World) :
  nextQueueId w' = nextQueueId w ->
  messageQueues w' = messageQueues w ->
  queues w' = queues w ->
  queues_kept w w'.
Proof.
  intros Hn Hm Hq. unfold queues_kept. rewrite Hn, Hm, Hq.
  split; [reflexivity |]. split; [auto |]. intros q x H. left. eauto.
Qed.

Lemma queues_kept_from (w0 w w' : World) :
  nextQueueId w0 = nextQueueId w ->
  messageQueues w0 = messageQueues w ->
  queues w0 = queues w ->
  queues_kept w0 w' -> queues_kept w w'.
Proof. unfold queues_kept. now intros -> -> ->. Qed.

Lemma close_each_issued (ids : list QueueId) (heap : gmap QueueId MessageQueue)
    (q : QueueId) (x : MessageQueue) :
  close_each ids heap !! q = Some x -> is_Some (heap !! q) \/ q ∈ ids.
Proof.
  intros H. destruct (decide (q ∈ ids)) as [Hin | Hnotin]; [now right |].
  left. rewrite close_each_other in H by exact Hnotin. eauto.
Qed.

Lemma queues_kept_closed_all (w : World) : queues_kept w (closed_all w).
Proof.
  unfold closed_all.
  destruct (0 <? size (messageQueues w))%nat; [| now apply queues_kept_same].
  split; [reflexivity |]. split; js_proj.
  - intros requestId q H. rewrite lookup_empty in H. discriminate.
  - intros q x H. apply close_each_issued in H as [H | H]; [now left |].
    right. apply list_elem_of_fmap in H as [[requestId q'] [-> Hin]].
    apply elem_of_map_to_list in Hin. now exists requestId.
Qed.

Lemma queues_kept_grace_cleared (a : Z) (w : World) : queues_kept w (grace_cleared a w).
Proof.
  unfold grace_cleared.
  destruct (reconnectGraceTimers w !! a) as [timerId |]; [| now apply queues_kept_same].
  destruct ((a =? default (-1)%Z (getCurrentAuthIndex w))%Z
            && (0 <? size (messageQueues w))%nat); [| now apply queues_kept_same].
  match goal with |- queues_kept _ (closed_all ?w0) =>
    apply (queues_kept_from w0); [reflexivity .. | apply queues_kept_closed_all]
  end.
Qed.

Lemma queues_kept_trans (w1 w2 w3 : World) :
  queues_kept w1 w2 -> queues_kept w2 w3 -> queues_kept w1 w3.
Proof.
  intros (Hn & Hm & Hq) (Gn & Gm & Gq).
  split; [congruence |]. split; [auto |].
  intros q x H. destruct (Gq q x H) as [[y Hy] | [requestId Hr]].
  - now apply (Hq q y).
  - right. exists requestId. now apply Hm.
Qed.

Lemma queues_kept_connected (websocket : WsId) (clientInfo : ClientInfo) (w : World) :
  queues_kept w (connected websocket clientInfo w).
Proof.
  unfold connected.
  set (a := integer_value (authIndex clientInfo)).
  apply (queues_kept_trans w (existing_closed websocket a w)).
  - destruct (existing_closed_same websocket a w) as (_ & Hm & _ & _ & _ & _ & _ & Hq & _).
    apply queues_kept_same; [| exact Hm | exact Hq].
    unfold existing_closed.
    destruct (connectionsByAuth w !! a) as [existing |]; [| reflexivity].
    destruct (negb (existing =? websocket)%nat); [| reflexivity].
    destruct (closeThrows (socket existing w)); reflexivity.
  - apply (queues_kept_trans _ (grace_cleared a (existing_closed websocket a w)));
      [apply queues_kept_grace_cleared | now apply queues_kept_same].
Qed.

Lemma queues_kept_removed (websocket : WsId) (w : World) :
  queues_kept w (removed websocket w).
Proof.
  unfold removed.
  destruct (_authIndex (socket websocket w)) as [a |]; [| now apply queues_kept_same].
  destruct (0 <=? a)%Z; [| now apply queues_kept_same].
  destruct (page_is_gone a w).
  - unfold reconnect_skipped. js_proj.
    destruct (reconnectGraceTimers w !! a); now apply queues_kept_same.
  - unfold grace_started. js_proj.
    destruct (reconnectGraceTimers w !! a); now apply queues_kept_same.
Qed.

Lemma queues_kept_closed_by_auth (a : Z) (w : World) :
  queues_kept w (closed_by_auth a w).
Proof.
  unfold closed_by_auth.
  destruct (connectionsByAuth w !! a) as [connection |]; [| now apply queues_kept_same].
  destruct (closeThrows (socket connection w));
    destruct (reconnectGraceTimers w !! a); now apply queues_kept_same.
Qed.

Lemma queues_kept_routed (frame : Json) (requestId : string) (q : QueueId) (w : World) :
  messageQueues w !! requestId = Some q -> queues_kept w (routed frame q w).
Proof.
  intros Hreg. unfold routed.
  destruct (spec_delivery frame);
    [destruct (get_property frame "event_type"); now apply queues_kept_same |].
  split; [reflexivity |]. split; [auto |]. js_proj.
  intros q' x H. in_insert H; [right; now exists requestId | left; eauto].
Qed.

Lemma queues_kept_queue_removed (requestId : string) (w : World) :
  queues_kept w (queue_removed requestId w).
Proof.
  unfold queue_removed.
  destruct (messageQueues w !! requestId) as [q |] eqn:Hreg; [| now apply queues_kept_same].
  split; [reflexivity |]. split; js_proj.
  - intros r q' H. in_delete H. exact H.
  - intros q' x H. in_insert H; [right; now exists requestId | left; eauto].
Qed.

Lemma queues_kept_queues_settled (a : Z) (w : World) : queues_kept w (queues_settled a w).
Proof.
  unfold queues_settled.
  destruct (a =? default (-1)%Z (getCurrentAuthIndex w))%Z; [| now apply queues_kept_same].
  match goal with |- queues_kept _ (closed_all ?w0) =>
    apply (queues_kept_from w0); [reflexivity .. | apply queues_kept_closed_all]
  end.
Qed.

Lemma queues_kept_grace_expired (a : Z) (w : World) : queues_kept w (grace_expired a w).
Proof.
  apply (queues_kept_trans w (queues_settled a w)); [apply queues_kept_queues_settled |].
  unfold grace_expired.
  set (w2 := queues_settled a w).
  destruct (onConnectionLostCallback w2) as [callback |]; [| now apply queues_kept_same].
  destruct (negb (default false (reconnectingAccounts w2 !! a)));
    [| now apply queues_kept_same].
  destruct (callback a) as [[| | message] |]; now apply queues_kept_same.
Qed.

Lemma queues_kept_resumed (timeoutId : TimerId) (how : Settlement) (w : World) :
  queues_kept w (resumed timeoutId how w).
Proof.
  destruct (awaiting w !! timeoutId) eqn:Hawait;
    resumed_cases how; rewrite Hawait; now apply queues_kept_same.
Qed.

Lemma queues_kept_fired (timerId : TimerId) (w : World) : queues_kept w (fired timerId w).
Proof.
  unfold fired.
  destruct (timers w !! timerId) as [[[a |] d] |]; cbn [task];
    [| | now apply queues_kept_same].
  - apply (queues_kept_from (set_timers (delete timerId) w)); [reflexivity .. |].
    apply queues_kept_grace_expired.
  - apply (queues_kept_from (set_timers (delete timerId) w)); [reflexivity .. |].
    apply queues_kept_resumed.
Qed.

Lemma fresh_queue_created (requestId : string) (w : World) :
  QueuesFresh w -> QueuesFresh (queue_created requestId w).
Proof.
  intros [Q1 Q2 Q3]. unfold queue_created.
  constructor; js_proj.
  - intros r q H. in_insert H; [injection H as <-; lia |]. apply Q1 in H. lia.
  - intros r1 r2 q H1 H2. in_insert H1; in_insert H2; try reflexivity.
    + injection H1 as <-. apply Q1 in H2. lia.
    + injection H2 as <-. apply Q1 in H1. lia.
    + now apply (Q2 r1 r2 q).
  - intros q x H. in_insert H; [lia |]. apply Q3 in H. lia.
Qed.

Lemma fresh_preserved : preserved always QueuesFresh.
Proof.
  constructor.
  - intros level line w _. apply fresh_kept. now apply queues_kept_same.
  - intros websocket n w _. apply fresh_kept. now apply queues_kept_same.
  - intros websocket clientInfo w _ _. apply fresh_kept, queues_kept_connected.
  - intros websocket w _. apply fresh_kept, queues_kept_removed.
  - intros frame requestId q w Hreg _. apply fresh_kept.
    now apply (queues_kept_routed frame requestId).
  - intros a w _. apply fresh_kept, queues_kept_closed_by_auth.
  - intros requestId w _. apply fresh_queue_created.
  - intros requestId w _. apply fresh_kept, queues_kept_queue_removed.
  - intros w _. apply fresh_kept, queues_kept_closed_all.
  - intros timerId w _ _. apply fresh_kept, queues_kept_fired.
  - intros timeoutId how w _ _. apply fresh_kept, queues_kept_resumed.
  - intros a w _. apply fresh_kept. now apply queues_kept_same.
  - intros contexts w _. apply fresh_kept. now apply queues_kept_same.
Qed.

Lemma fresh_new callback current manager : QueuesFresh (new_registry callback current manager).
Proof.
  constructor; cbn; intros;
    match goal with H : ∅ !! _ = Some _ |- _ => rewrite lookup_empty in H; discriminate H end.
Qed.

Lemma reachable_fresh (JSON_parse : string -> option Json) (w : World) :
  reachable JSON_parse w -> QueuesFresh w.
Proof.
  apply (preserved_reachable JSON_parse always QueuesFresh fresh_preserved);
    [intros t w0; exact I | apply fresh_new].
Qed.

(** What [_handleIncomingMessage] does to the world: it logs one line, or it
    routes the parsed frame to the queue registered for its request. *)
Lemma handleIncomingMessage_cases
    (JSON_parse : string -> option Json) (messageData : string) (w : World) :
  exists w',
    _handleIncomingMessage JSON_parse messageData w = (w', Normal tt)
    /\ ((exists level line, w' = add_effect (Logged level line) w)
        \/ (exists frame requestId q,
              JSON_parse messageData = Some frame
              /\ get_property frame "request_id" = inr (Some (JString requestId))
              /\ messageQueues w !! requestId = Some q
              /\ w' = routed frame q w)).
Proof.
  unfold _handleIncomingMessage.
  destruct (JSON_parse messageData) as [frame |];
    [| eexists; split; [reflexivity | left; eauto]].
  destruct (get_property frame "request_id") as [e | requestId] eqn:Hid;
    [eexists; split; [reflexivity | left; eauto] |].
  destruct (negb (truthy requestId)); [eexists; split; [reflexivity | left; eauto] |].
  unfold try_catch, bind, gets.
  destruct (lookup_queue (default JNull requestId) w) as [q |] eqn:Hq;
    [| eexists; split; [reflexivity | left; eauto]].
  rewrite routeMessage_routed
    by (destruct frame; cbn in Hid |- *; try discriminate; eauto).
  eexists. split; [reflexivity |]. right.
  unfold lookup_queue in Hq.
  destruct requestId as [[| | | key | |] |]; cbn [default id] in Hq; try discriminate.
  exists frame, key, q. repeat split; try reflexivity; assumption.
Qed.

(** In a reachable world every request has a queue object of its own.  No
    two request ids share one.  [createMessageQueue] hands out an object
    that did not exist before and that no request id refers to, open and
    empty, and registers it under the id; a queue registered under the same
    id before is dropped from the map without being closed, and no other
    queue or registration changes.  And a frame that names one request
    leaves the queue of every other request as it is. *)
Theorem request_queues_are_private
    (JSON_parse : string -> option Json) (w : World) :
  reachable JSON_parse w ->
  (forall r1 r2 q,
     messageQueues w !! r1 = Some q -> messageQueues w !! r2 = Some q -> r1 = r2)
  /\ (forall requestId,
        let q := nextQueueId w in
        let w' := queue_created requestId w in
        createMessageQueue requestId w = (w', Normal q)
        /\ queues w !! q = None
        /\ (forall r, messageQueues w !! r <> Some q)
        /\ messageQueues w' !! requestId = Some q
        /\ queue q w' = new_queue
        /\ (forall q', q' <> q -> queue q' w' = queue q' w)
        /\ (forall r, r <> requestId -> messageQueues w' !! r = messageQueues w !! r))
  /\ (forall messageData frame r1 r2 q2,
        JSON_parse messageData = Some frame ->
        get_property frame "request_id" = inr (Some (JString r1)) ->
        r1 <> r2 ->
        messageQueues w !! r2 = Some q2 ->
        queue q2 (exec (_handleIncomingMessage JSON_parse messageData) w) = queue q2 w).
Proof.
  intros Hreach.
  destruct (reachable_fresh JSON_parse w Hreach) as [Q1 Q2 Q3].
  split; [exact Q2 |]. split.
  - intros requestId. cbv zeta.
    split; [apply createMessageQueue_eq |].
    split.
    { destruct (queues w !! nextQueueId w) as [x |] eqn:E; [| reflexivity].
      apply Q3 in E. lia. }
    split.
    { intros r H. apply Q1 in H. lia. }
    unfold queue_created. js_proj.
    split; [apply lookup_insert_eq |].
    split; [now rewrite lookup_insert_eq |].
    split; [intros q' Hne; now rewrite lookup_insert_ne by congruence |].
    intros r Hne. now rewrite lookup_insert_ne by congruence.
  - intros messageData frame r1 r2 q2 Hparse Hid Hne Hreg.
    destruct (handleIncomingMessage_cases JSON_parse messageData w)
      as (w' & Hrun & [(level & line & ->) | (frame' & r & q & Hparse' & Hid' & Hq & ->)]);
      unfold exec; rewrite Hrun; cbn [fst]; [reflexivity |].
    apply routed_other_queue.
    intros ->. apply Hne.
    assert (frame' = frame) as -> by congruence.
    assert (r = r1) as -> by congruence.
    now apply (Q2 r1 r2 q).
Qed.

(** ** Queues and socket events *)

Lemma queues_grow_same (w w' : World) :
  messageQueues w' = messageQueues w ->
  nextQueueId w' = nextQueueId w ->
  queues w' = queues w ->
  queues_grow w w'.
Proof.
  intros Hm Hn Hq. unfold queues_grow. rewrite Hm, Hn, Hq.
  split; [reflexivity |]. split; [reflexivity |].
  intros q. split; [reflexivity |]. exists []. now rewrite app_nil_r.
Qed.

Lemma queues_grow_trans (w1 w2 w3 : World) :
  queues_grow w1 w2 -> queues_grow w2 w3 -> queues_grow w1 w3.
Proof.
  intros (Hm & Hn & Hq) (Gm & Gn & Gq).
  split; [congruence |]. split; [congruence |].
  intros q. destruct (Hq q) as [Hc [more Hi]]. destruct (Gq q) as [Gc [more' Gi]].
  split; [congruence |]. exists (more ++ more'). now rewrite Gi, Hi, app_assoc.
Qed.

Lemma enqueue_all_closed (delivered : list Json) (x : MessageQueue) :
  closed x = true -> enqueue_all delivered x = x.
Proof.
  intros Hclosed. unfold enqueue_all.
  induction delivered as [| item rest IH]; [reflexivity |].
  cbn [fold_left]. unfold mq_enqueue at 2. now rewrite Hclosed.
Qed.

Lemma queues_grow_routed (frame : Json) (q : QueueId) (w : World) :
  queues_grow w (routed frame q w).
Proof.
  destruct (routed_same_registry frame q w) as (_ & Hm & _ & _ & _ & _ & _ & _ & Hn & _).
  split; [exact Hm |]. split; [exact Hn |].
  intros q'. destruct (decide (q' = q)) as [-> | Hne].
  - rewrite routed_queue.
    destruct (closed (queue q w)) eqn:Hclosed.
    + rewrite enqueue_all_closed by exact Hclosed.
      split; [exact Hclosed |]. exists []. now rewrite app_nil_r.
    + rewrite enqueue_all_open by exact Hclosed. cbn [closed items].
      split; [reflexivity |]. now exists (spec_delivery frame).
  - rewrite routed_other_queue by exact Hne.
    split; [reflexivity |]. exists []. now rewrite app_nil_r.
Qed.

Lemma queues_grow_removed (websocket : WsId) (w : World) :
  queues_grow w (removed websocket w).
Proof.
  unfold removed.
  destruct (_authIndex (socket websocket w)) as [a |]; [| now apply queues_grow_same].
  destruct (0 <=? a)%Z; [| now apply queues_grow_same].
  destruct (page_is_gone a w).
  - unfold reconnect_skipped. js_proj.
    destruct (reconnectGraceTimers w !! a); now apply queues_grow_same.
  - unfold grace_started. js_proj.
    destruct (reconnectGraceTimers w !! a); now apply queues_grow_same.
Qed.

(** An event of a socket, whatever it is and however many listeners it
    runs, closes no queue, removes none and registers none: inbound frames
    only add to queues that are open, and the teardown run by a close event
    does not touch the queues at all.  The requests in flight keep their
    queues through a disconnect; whether they are closed is decided later,
    when the grace period ends or the account registers again. *)
Theorem socket_events_never_close_a_queue
    (JSON_parse : string -> option Json)
    (websocket : WsId) (event : WsEvent) (payload : string) (w : World) :
  queues_grow w (exec (ws_emit JSON_parse websocket event payload) w)
  /\ messageQueues (exec (_removeConnection websocket) w) = messageQueues w
  /\ queues (exec (_removeConnection websocket) w) = queues w.
Proof.
  split.
  - unfold exec.
    destruct (ws_emit_total JSON_parse (queues_grow w) websocket event payload w)
      as (w' & Hrun & Hgrow).
    + intros l w0 H0. destruct l as [| websocket0 |]; cbn [run_listener].
      * destruct (handleIncomingMessage_cases JSON_parse payload w0) as (w1 & Hrun & Hcase).
        exists w1. split; [exact Hrun |].
        apply (queues_grow_trans w w0); [exact H0 |].
        destruct Hcase as [(level & line & ->) | (frame & r & q & _ & _ & _ & ->)];
          [now apply queues_grow_same | apply queues_grow_routed].
      * rewrite removeConnection_eq. eexists. split; [reflexivity |].
        apply (queues_grow_trans w w0); [exact H0 | apply queues_grow_removed].
      * eexists. split; [reflexivity |].
        apply (queues_grow_trans w w0); [exact H0 | now apply queues_grow_same].
    + now apply queues_grow_same.
    + now rewrite Hrun.
  - unfold exec. rewrite removeConnection_eq. cbn [fst].
    unfold removed.
    destruct (_authIndex (socket websocket w)) as [a |]; [| split; reflexivity].
    destruct (0 <=? a)%Z; [| split; reflexivity].
    destruct (page_is_gone a w).
    + unfold reconnect_skipped. js_proj.
      destruct (reconnectGraceTimers w !! a); split; reflexivity.
    + unfold grace_started. js_proj.
      destruct (reconnectGraceTimers w !! a); split; reflexivity.
Qed.

(** ** [getConnectionByAuth] and the order of the connection map *)

Lemma same_order_refl (w : World) : same_order w w.
Proof. split; reflexivity. Qed.

Lemma same_order_trans (w1 w2 w3 : World) :
  same_order w1 w2 -> same_order w2 w3 -> same_order w1 w3.
Proof. intros [H1 H2] [G1 G2]. split; congruence. Qed.

Lemma same_order_closed_all (w : World) : same_order w (closed_all w).
Proof.
  unfold closed_all. destruct (0 <? size (messageQueues w))%nat; split; reflexivity.
Qed.

Lemma same_order_existing_closed (websocket : WsId) (a : Z) (w : World) :
  same_order w (existing_closed websocket a w).
Proof.
  unfold existing_closed.
  destruct (connectionsByAuth w !! a) as [existing |]; [| apply same_order_refl].
  destruct (negb (existing =? websocket)%nat); [| apply same_order_refl].
  destruct (closeThrows (socket existing w)); split; reflexivity.
Qed.

Lemma same_order_grace_cleared (a : Z) (w : World) : same_order w (grace_cleared a w).
Proof.
  unfold grace_cleared.
  destruct (reconnectGraceTimers w !! a) as [timerId |]; [| apply same_order_refl].
  destruct ((a =? default (-1)%Z (getCurrentAuthIndex w))%Z
            && (0 <? size (messageQueues w))%nat); [| split; reflexivity].
  match goal with |- same_order _ (closed_all ?w0) =>
    apply (same_order_trans w w0); [split; reflexivity | apply same_order_closed_all]
  end.
Qed.

Lemma same_order_queues_settled (a : Z) (w : World) : same_order w (queues_settled a w).
Proof.
  unfold queues_settled.
  destruct (a =? default (-1)%Z (getCurrentAuthIndex w))%Z; [| split; reflexivity].
  match goal with |- same_order _ (closed_all ?w0) =>
    apply (same_order_trans w w0); [split; reflexivity | apply same_order_closed_all]
  end.
Qed.

Lemma same_order_grace_expired (a : Z) (w : World) : same_order w (grace_expired a w).
Proof.
  apply (same_order_trans w (queues_settled a w)); [apply same_order_queues_settled |].
  unfold grace_expired.
  set (w2 := queues_settled a w).
  destruct (onConnectionLostCallback w2) as [callback |]; [| split; reflexivity].
  destruct (negb (default false (reconnectingAccounts w2 !! a))); [| split; reflexivity].
  destruct (callback a) as [[| | message] |]; split; reflexivity.
Qed.

Lemma same_order_resumed (timeoutId : TimerId) (how : Settlement) (w : World) :
  same_order w (resumed timeoutId how w).
Proof.
  destruct (awaiting w !! timeoutId) eqn:Hawait;
    resumed_cases how; rewrite Hawait; split; reflexivity.
Qed.

Lemma same_order_fired (timerId : TimerId) (w : World) : same_order w (fired timerId w).
Proof.
  unfold fired.
  destruct (timers w !! timerId) as [[[a |] d] |]; cbn [task]; [| | apply same_order_refl].
  - apply (same_order_trans w (set_timers (delete timerId) w)); [split; reflexivity |].
    apply same_order_grace_expired.
  - apply (same_order_trans w (set_timers (delete timerId) w)); [split; reflexivity |].
    apply same_order_resumed.
Qed.

Lemma same_order_routed (frame : Json) (q : QueueId) (w : World) :
  same_order w (routed frame q w).
Proof.
  unfold routed.
  destruct (spec_delivery frame); [destruct (get_property frame "event_type") |];
    split; reflexivity.
Qed.

(** The key order after a registration, a teardown and an intentional
    close. *)
Lemma connected_keys (websocket : WsId) (clientInfo : ClientInfo) (w : World) :
  let a := integer_value (authIndex clientInfo) in
  connectionKeys (connected websocket clientInfo w)
  = match connectionsByAuth w !! a with
    | Some _ => connectionKeys w
    | None => connectionKeys w ++ [a]
    end.
Proof.
  cbv zeta. unfold connected.
  set (a := integer_value (authIndex clientInfo)).
  destruct (same_order_existing_closed websocket a w) as [H1 H2].
  destruct (same_order_grace_cleared a (existing_closed websocket a w)) as [G1 G2].
  unfold connection_stored. js_proj. now rewrite G2, G1, H2, H1.
Qed.

Lemma removed_keys (websocket : WsId) (w : World) :
  (connectionKeys (removed websocket w), connectionsByAuth (removed websocket w))
  = match _authIndex (socket websocket w) with
    | Some a =>
        if (0 <=? a)%Z then (without a (connectionKeys w), delete a (connectionsByAuth w))
        else (connectionKeys w, connectionsByAuth w)
    | None => (connectionKeys w, connectionsByAuth w)
    end.
Proof.
  unfold removed.
  destruct (_authIndex (socket websocket w)) as [a |]; [| reflexivity].
  destruct (0 <=? a)%Z; [| reflexivity].
  destruct (page_is_gone a w).
  - unfold reconnect_skipped. js_proj. destruct (reconnectGraceTimers w !! a); reflexivity.
  - unfold grace_started. js_proj. destruct (reconnectGraceTimers w !! a); reflexivity.
Qed.

Lemma closed_by_auth_keys (a : Z) (w : World) :
  (connectionKeys (closed_by_auth a w), connectionsByAuth (closed_by_auth a w))
  = match connectionsByAuth w !! a with
    | Some _ => (without a (connectionKeys w), delete a (connectionsByAuth w))
    | None => (connectionKeys w, connectionsByAuth w)
    end.
Proof.
  unfold closed_by_auth.
  destruct (connectionsByAuth w !! a) as [connection |]; [| reflexivity].
  destruct (closeThrows (socket connection w));
    destruct (reconnectGraceTimers w !! a); reflexivity.
Qed.

Lemma listed_same (w w' : World) : same_order w w' -> KeysListed w -> KeysListed w'.
Proof. intros [Hk Hc] [K1 K2]. constructor; rewrite Hk; [| setoid_rewrite Hc]; assumption. Qed.

Lemma listed_set (a : Z) (websocket : WsId) (w w' : World) :
  connectionKeys w' = match connectionsByAuth w !! a with
                      | Some _ => connectionKeys w
                      | None => connectionKeys w ++ [a]
                      end ->
  connectionsByAuth w' = <[a := websocket]> (connectionsByAuth w) ->
  KeysListed w -> KeysListed w'.
Proof.
  intros Hk Hc [K1 K2]. constructor; rewrite Hk.
  - destruct (connectionsByAuth w !! a) eqn:Hreg; [exact K1 |].
    apply List.NoDup_app; [exact K1 | repeat constructor; intros [] |].
    intros b Hb [<- | []]. apply K2 in Hb as [x Hx]. congruence.
  - intros b. rewrite Hc. destruct (decide (a = b)) as [<- | Hne].
    + rewrite lookup_insert_eq. split; [eauto |]. intros _.
      destruct (connectionsByAuth w !! a) eqn:Hreg.
      * apply K2. eauto.
      * apply in_or_app. right. now left.
    + rewrite lookup_insert_ne by exact Hne. rewrite <- K2.
      destruct (connectionsByAuth w !! a); [reflexivity |].
      rewrite in_app_iff. split; [intros [H | [H | []]]; [exact H | congruence] | auto].
Qed.

Lemma listed_delete (a : Z) (w w' : World) :
  connectionKeys w' = without a (connectionKeys w) ->
  connectionsByAuth w' = delete a (connectionsByAuth w) ->
  KeysListed w -> KeysListed w'.
Proof.
  intros Hk Hc [K1 K2]. constructor; rewrite Hk; unfold without.
  - now apply List.NoDup_filter.
  - intros b. rewrite Hc, filter_In, negb_true_iff, Z.eqb_neq.
    destruct (decide (a = b)) as [<- | Hne].
    + rewrite lookup_delete_eq. split; [intros [_ H]; congruence | intros [x Hx]; discriminate].
    + rewrite lookup_delete_ne by exact Hne. rewrite K2. split; [tauto |].
      intros H. split; [exact H | congruence].
Qed.

Lemma listed_preserved : preserved always KeysListed.
Proof.
  constructor.
  - intros level line w _. apply listed_same. split; reflexivity.
  - intros websocket n w _. apply listed_same. split; reflexivity.
  - intros websocket clientInfo w _ _.
    apply (listed_set (integer_value (authIndex clientInfo)) websocket);
      [apply connected_keys | apply connected_connections].
  - intros websocket w _ K. pose proof (removed_keys websocket w) as H.
    destruct (_authIndex (socket websocket w)) as [a |];
      [destruct (0 <=? a)%Z |]; injection H as Hk Hc;
      first [now apply (listed_delete a w) | apply (listed_same w); [now split | exact K]].
  - intros frame requestId q w _ _. apply listed_same, same_order_routed.
  - intros a w _ K. pose proof (closed_by_auth_keys a w) as H.
    destruct (connectionsByAuth w !! a); injection H as Hk Hc;
      first [now apply (listed_delete a w) | apply (listed_same w); [now split | exact K]].
  - intros requestId w _. apply listed_same. split; reflexivity.
  - intros requestId w _. apply listed_same. unfold queue_removed.
    destruct (messageQueues w !! requestId); split; reflexivity.
  - intros w _. apply listed_same, same_order_closed_all.
  - intros timerId w _ _. apply listed_same, same_order_fired.
  - intros timeoutId how w _ _. apply listed_same, same_order_resumed.
  - intros a w _. apply listed_same. split; reflexivity.
  - intros contexts w _. apply listed_same. split; reflexivity.
Qed.

Lemma listed_new callback current manager : KeysListed (new_registry callback current manager).
Proof.
  constructor; cbn.
  - constructor.
  - intros a. rewrite lookup_empty. split; [intros [] | intros [x Hx]; discriminate].
Qed.

Lemma reachable_listed (JSON_parse : string -> option Json) (w : World) :
  reachable JSON_parse w -> KeysListed w.
Proof.
  apply (preserved_reachable JSON_parse always KeysListed listed_preserved);
    [intros t w0; exact I | apply listed_new].
Qed.

(** [getConnectionByAuth] returns what the connection map holds for the
    account and changes nothing but the log, to which it adds one debug
    line; when nothing is registered for the account the line lists the
    accounts that are, in the order in which the connection map took them
    in.  That list names each registered account once: the first
    registration of an account puts it last, a registration that replaces
    its connection leaves it in its place, and [closeConnectionByAuth] and
    the teardown of a socket stamped with it take it out, the others keeping
    their order.  After these two the lookup finds nothing. *)
Theorem getConnectionByAuth_returns_the_registered_socket
    (JSON_parse : string -> option Json)
    (a : Z) (websocket : WsId) (clientInfo : ClientInfo) (w : World) :
  reachable JSON_parse w ->
  (exists line,
     getConnectionByAuth a w
     = (add_effect (Logged LDebug line) w, Normal (connectionsByAuth w !! a))
     /\ (is_Some (connectionsByAuth w !! a) -> line = FoundConnection a)
     /\ (connectionsByAuth w !! a = None ->
         line = NoConnectionFound a (connectionKeys w)))
  /\ List.NoDup (connectionKeys w)
  /\ (forall b, In b (connectionKeys w) <-> is_Some (connectionsByAuth w !! b))
  /\ (valid_authIndex (authIndex clientInfo) ->
      connectionKeys (exec (addConnection websocket clientInfo) w)
      = match connectionsByAuth w !! integer_value (authIndex clientInfo) with
        | Some _ => connectionKeys w
        | None => connectionKeys w ++ [integer_value (authIndex clientInfo)]
        end)
  /\ connectionKeys (exec (closeConnectionByAuth a) w) = without a (connectionKeys w)
  /\ snd (getConnectionByAuth a (exec (closeConnectionByAuth a) w)) = Normal None
  /\ (_authIndex (socket websocket w) = Some a -> (0 <= a)%Z ->
      connectionKeys (exec (_removeConnection websocket) w) = without a (connectionKeys w)
      /\ snd (getConnectionByAuth a (exec (_removeConnection websocket) w)) = Normal None).
Proof.
  intros Hreach. destruct (reachable_listed JSON_parse w Hreach) as [K1 K2].
  split; [| split; [exact K1 | split; [exact K2 | split; [| split; [| split]]]]].
  - rewrite getConnectionByAuth_eq. unfold looked_up.
    destruct (connectionsByAuth w !! a); eexists; (split; [reflexivity |]); split;
      first [reflexivity | discriminate | intros [x Hx]; discriminate].
  - intros Hvalid. unfold exec. rewrite addConnection_valid by exact Hvalid. cbn [fst].
    apply connected_keys.
  - unfold exec. rewrite closeConnectionByAuth_eq. cbn [fst].
    pose proof (closed_by_auth_keys a w) as H.
    destruct (connectionsByAuth w !! a) eqn:Hreg; injection H as Hk _; rewrite Hk;
      [reflexivity |].
    unfold without. symmetry. apply forallb_filter_id. apply forallb_forall.
    intros b Hb. apply negb_true_iff, Z.eqb_neq. intros ->.
    apply K2 in Hb as [x Hx]. congruence.
  - rewrite getConnectionByAuth_eq. cbn [snd]. f_equal.
    unfold exec. rewrite closeConnectionByAuth_eq. cbn [fst].
    pose proof (closed_by_auth_keys a w) as H.
    destruct (connectionsByAuth w !! a) eqn:Hreg; injection H as _ Hc; rewrite Hc;
      [apply lookup_delete_eq | exact Hreg].
  - intros Hstamp Hvalid.
    pose proof (removed_keys websocket w) as H. rewrite Hstamp in H.
    apply Z.leb_le in Hvalid. rewrite Hvalid in H. injection H as Hk Hc.
    unfold exec. rewrite removeConnection_eq. cbn [fst].
    split; [exact Hk |].
    rewrite getConnectionByAuth_eq. cbn [snd]. f_equal. rewrite Hc. apply lookup_delete_eq.
Qed.

(** ** The socket that was replaced *)

(** The socket that an accepted registration replaces has lost its
    listeners.  When its close event, or a message on it, arrives afterwards,
    nothing runs: the registry stays exactly as it is, the new socket stays
    registered and no grace period starts.  An error event of it, which
    nobody listens for any more, is thrown by the socket's emitter; the
    registry stays as it is then too. *)
Theorem replaced_socket_is_no_longer_heard
    (JSON_parse : string -> option Json)
    (websocket old : WsId) (clientInfo : ClientInfo) (w : World) :
  valid_authIndex (authIndex clientInfo) ->
  connectionsByAuth w !! integer_value (authIndex clientInfo) = Some old ->
  old <> websocket ->
  let w' := exec (addConnection websocket clientInfo) w in
  listeners (socket old w') = []
  /\ connectionsByAuth w' !! integer_value (authIndex clientInfo) = Some websocket
  /\ (forall payload, ws_emit JSON_parse old EvClose payload w' = (w', Normal tt))
  /\ (forall payload, ws_emit JSON_parse old EvMessage payload w' = (w', Normal tt))
  /\ (forall payload,
        ws_emit JSON_parse old EvError payload w' = (w', Thrown (Error payload))).
Proof.
  intros Hvalid Hold Hne. cbv zeta.
  unfold exec. rewrite addConnection_valid by exact Hvalid. cbn [fst].
  assert (Hdeaf : listeners (socket old (connected websocket clientInfo w)) = []).
  { rewrite connected_socket.
    destruct (decide (old = websocket)) as [Heq | _]; [congruence |].
    now destruct (existing_closed_old websocket old _ w Hold Hne) as (_ & Hl & _). }
  split; [exact Hdeaf |].
  split; [rewrite connected_connections; apply lookup_insert_eq |].
  repeat split; intros payload; unfold ws_emit, bind, gets; now rewrite Hdeaf.
Qed.

(** * Helpers of the browser manager *)

(** ** [_generateIdentitySeed] *)

Lemma to_int32_range (x : Z) :
  (- 2 ^ 31 <= BrowserManager.to_int32 x < 2 ^ 31)%Z.
Proof.
  unfold BrowserManager.to_int32.
  pose proof (Z.mod_pos_bound (x + 2 ^ 31) (2 ^ 32)) as H. lia.
Qed.

Lemma to_int32_small (x : Z) :
  (- 2 ^ 31 <= x < 2 ^ 31)%Z -> BrowserManager.to_int32 x = x.
Proof.
  intros H. unfold BrowserManager.to_int32. rewrite Z.mod_small by lia. lia.
Qed.

Lemma to_int32_eq (x y : Z) :
  ((x - y) mod 2 ^ 32 = 0)%Z -> BrowserManager.to_int32 x = BrowserManager.to_int32 y.
Proof.
  intros H. unfold BrowserManager.to_int32. f_equal.
  apply Z.mod_divide in H; [| lia]. destruct H as [k Hk].
  replace (x + 2 ^ 31)%Z with (y + 2 ^ 31 + k * 2 ^ 32)%Z by lia.
  apply Z.mod_add. lia.
Qed.

Lemma to_int32_congruent (x : Z) : ((BrowserManager.to_int32 x - x) mod 2 ^ 32 = 0)%Z.
Proof.
  unfold BrowserManager.to_int32.
  pose proof (Z.div_mod (x + 2 ^ 31) (2 ^ 32)) as H.
  replace ((x + 2 ^ 31) mod 2 ^ 32 - 2 ^ 31 - x)%Z
    with (- ((x + 2 ^ 31) / 2 ^ 32) * 2 ^ 32)%Z by lia.
  apply Z.mod_mul. lia.
Qed.

Lemma seed_round_base31 (value charCode : Z) :
  BrowserManager.seed_round (BrowserManager.to_int32 value) charCode
  = BrowserManager.to_int32 (31 * value + charCode).
Proof.
  unfold BrowserManager.seed_round, BrowserManager.shift_left.
  change (Z.land 5 31) with 5%Z. rewrite Z.shiftl_mul_pow2 by lia.
  apply to_int32_eq.
  set (h := BrowserManager.to_int32 value).
  pose proof (to_int32_congruent (BrowserManager.to_int32 h * 2 ^ 5)) as H1.
  pose proof (to_int32_congruent h) as H2.
  pose proof (to_int32_congruent value) as H3. fold h in H3.
  apply Z.mod_divide in H1; [| lia]. destruct H1 as [k1 Hk1].
  apply Z.mod_divide in H2; [| lia]. destruct H2 as [k2 Hk2].
  apply Z.mod_divide in H3; [| lia]. destruct H3 as [k3 Hk3].
  apply Z.mod_divide; [lia |].
  exists (k1 + 32 * k2 + 31 * k3)%Z. lia.
Qed.

Lemma fold_left_step {A B} (f : A -> B -> A) (x : B) (l : list B) (a : A) :
  fold_left f (x :: l) a = fold_left f l (f a x).
Proof. reflexivity. Qed.

Lemma seed_rounds_base31 (str : list Z) (value : Z) :
  fold_left BrowserManager.seed_round str (BrowserManager.to_int32 value)
  = BrowserManager.to_int32
      (fold_left (fun v charCode => (31 * v + charCode)%Z) str value).
Proof.
  revert value. induction str as [| charCode rest IH]; intros value; [reflexivity |].
  rewrite !fold_left_step, seed_round_base31, IH. reflexivity.
Qed.

Lemma seed_hash (str : list Z) :
  fold_left BrowserManager.seed_round str 0%Z
  = BrowserManager.to_int32 (BrowserManager.base31 str).
Proof. exact (seed_rounds_base31 str 0). Qed.

(** [_generateIdentitySeed] computes the 31-based polynomial hash of the
    string, the one of Java's [String.hashCode]: the code units read as a
    numeral in base 31, reduced to a signed 32-bit integer, and then its
    absolute value.  Two strings whose base-31 values differ by a multiple of
    2^32 get the same seed. *)
Theorem generateIdentitySeed_is_the_base31_hash (str : list Z) :
  BrowserManager._generateIdentitySeed str
  = Z.abs (BrowserManager.to_int32 (BrowserManager.base31 str))
  /\ forall other,
       ((BrowserManager.base31 str - BrowserManager.base31 other) mod 2 ^ 32 = 0)%Z ->
       BrowserManager._generateIdentitySeed other = BrowserManager._generateIdentitySeed str.
Proof.
  assert (Hform : forall s,
            BrowserManager._generateIdentitySeed s
            = Z.abs (BrowserManager.to_int32 (BrowserManager.base31 s))).
  { intros s. unfold BrowserManager._generateIdentitySeed. now rewrite seed_hash. }
  split; [apply Hform |].
  intros other Hsame. rewrite !Hform. f_equal. symmetry. now apply to_int32_eq.
Qed.

(** The seed is never negative and never above 2^31; it reaches 2^31 only
    when the hash is the least 32-bit integer, whose absolute value is not a
    32-bit integer any more.  The empty string has seed 0, a string of one
    code unit has that unit as its seed, and a string of two units [c1], [c2]
    has seed [31 * c1 + c2]. *)
Theorem generateIdentitySeed_range (str : list Z) :
  (0 <= BrowserManager._generateIdentitySeed str <= 2 ^ 31)%Z
  /\ (BrowserManager._generateIdentitySeed str = (2 ^ 31)%Z ->
      fold_left BrowserManager.seed_round str 0%Z = (- 2 ^ 31)%Z)
  /\ BrowserManager._generateIdentitySeed [] = 0%Z
  /\ (forall c1 c2,
        BrowserManager.code_units [c1; c2] ->
        BrowserManager._generateIdentitySeed [c1] = c1
        /\ BrowserManager._generateIdentitySeed [c1; c2] = (31 * c1 + c2)%Z).
Proof.
  assert (Hrange : (- 2 ^ 31 <= fold_left BrowserManager.seed_round str 0 < 2 ^ 31)%Z).
  { rewrite seed_hash. apply to_int32_range. }
  unfold BrowserManager._generateIdentitySeed.
  split; [lia |]. split; [lia |]. split; [reflexivity |].
  intros c1 c2 Hunits.
  apply Forall_cons in Hunits as [H1 Hunits].
  apply Forall_cons in Hunits as [H2 _].
  rewrite !seed_hash. unfold BrowserManager.base31. cbn [fold_left].
  rewrite !to_int32_small by lia. lia.
Qed.

(** ** [_resolveContextOptions] *)

Lemma floor_of_scaled_draw (x : Q) :
  BrowserManager.scaled_draw x -> (0 <= BrowserManager.Math_floor x <= 49)%Z.
Proof.
  unfold BrowserManager.scaled_draw, BrowserManager.Math_floor. intros [H0 H1].
  split.
  - apply Z.div_pos; lia.
  - assert (Qnum x / Z.pos (Qden x) < 50)%Z; [| lia].
    apply Z.div_lt_upper_bound; lia.
Qed.

(** [_resolveContextOptions] hands the cache metadata back as it got it and
    always returns a viewport whose width and height are Numbers, neither
    zero nor negative.  A cached viewport that passes the test is returned
    as it is, with whatever else it holds.  Otherwise, and in particular
    when there is no metadata or no cached options, the viewport is a new
    one of two members with an integer width from 1920 to 1969 and an
    integer height from 1080 to 1129.  The device scale factor is the cached
    one whenever that is a Number, of any sign, and 1 otherwise. *)
Theorem resolveContextOptions_viewport_is_usable
    (cacheMeta : Json) (scaledWidth scaledHeight : Q) :
  BrowserManager.scaled_draw scaledWidth ->
  BrowserManager.scaled_draw scaledHeight ->
  let result := BrowserManager._resolveContextOptions cacheMeta scaledWidth scaledHeight in
  let options := snd result in
  let cachedOptions :=
    if truthy (BrowserManager.member (Some cacheMeta) "contextOptions")
    then BrowserManager.member (Some cacheMeta) "contextOptions"
    else Some (JObject []) in
  let cached := BrowserManager.member cachedOptions "viewport" in
  fst result = cacheMeta
  /\ BrowserManager.usable_viewport (BrowserManager.viewport options)
  /\ (BrowserManager.viewport_unusable cached = false ->
      Some (BrowserManager.viewport options) = cached)
  /\ (BrowserManager.viewport_unusable cached = true ->
      exists width height,
        BrowserManager.viewport options
        = JObject [("height", JNumber (int_number height));
                   ("width", JNumber (int_number width))]
        /\ (1920 <= width <= 1969)%Z /\ (1080 <= height <= 1129)%Z)
  /\ (cacheMeta = JNull -> BrowserManager.viewport_unusable cached = true)
  /\ (forall n,
        BrowserManager.member cachedOptions "deviceScaleFactor" = Some (JNumber n) ->
        BrowserManager.deviceScaleFactor options = JNumber n)
  /\ (BrowserManager.is_number (BrowserManager.member cachedOptions "deviceScaleFactor") = false ->
      BrowserManager.deviceScaleFactor options = JNumber (int_number 1)).
Proof.
  intros Hw Hh. cbv zeta.
  apply floor_of_scaled_draw in Hw. apply floor_of_scaled_draw in Hh.
  unfold BrowserManager._resolveContextOptions. cbn [fst snd].
  set (cachedOptions :=
         if truthy (BrowserManager.member (Some cacheMeta) "contextOptions")
         then BrowserManager.member (Some cacheMeta) "contextOptions"
         else Some (JObject [])).
  set (cached := BrowserManager.member cachedOptions "viewport").
  cbn [BrowserManager.viewport BrowserManager.deviceScaleFactor].
  split; [reflexivity |].
  split.
  { destruct (BrowserManager.viewport_unusable cached) eqn:Htest.
    - unfold BrowserManager.usable_viewport. cbn.
      repeat split; try reflexivity; apply Z.leb_gt; lia.
    - unfold BrowserManager.viewport_unusable in Htest.
      rewrite !orb_false_iff, !negb_false_iff in Htest.
      destruct Htest as ((((Htruthy & Hwidth) & Hheight) & Hwpos) & Hhpos).
      destruct cached as [v |]; [| discriminate].
      cbn [default id]. repeat split; assumption. }
  split.
  { intros Htest. rewrite Htest.
    unfold BrowserManager.viewport_unusable in Htest.
    rewrite !orb_false_iff, !negb_false_iff in Htest.
    destruct Htest as ((((Htruthy & _) & _) & _) & _).
    destruct cached as [v |]; [reflexivity | discriminate]. }
  split.
  { intros Htest. rewrite Htest. do 2 eexists. split; [reflexivity |]. lia. }
  split.
  { intros ->. reflexivity. }
  split.
  { intros n Hscale. now rewrite Hscale. }
  intros Hscale. now rewrite Hscale.
Qed.

(** ** Calls of the recovery callback *)

Lemma invocations_app (xs ys : list Effect) :
  invocations (xs ++ ys) = invocations xs ++ invocations ys.
Proof.
  induction xs as [| [level line | event | b] rest IH]; cbn [invocations app];
    [reflexivity | exact IH | exact IH | now rewrite IH].
Qed.

Lemma invocations_closed_all (w : World) :
  invocations (trace (closed_all w)) = invocations (trace w).
Proof.
  unfold closed_all. destruct (0 <? size (messageQueues w))%nat; [| reflexivity].
  js_proj. rewrite invocations_app. apply app_nil_r.
Qed.

Ltac calls_simpl :=
  unfold invoked;
  repeat progress (js_proj; rewrite ?invocations_app, ?invocations_closed_all);
  cbn [invocations app]; rewrite ?app_nil_r.

Lemma invoked_connected (websocket : WsId) (clientInfo : ClientInfo) (w : World) :
  invoked (connected websocket clientInfo w) = invoked w.
Proof.
  unfold connected, connection_stored.
  set (a := integer_value (authIndex clientInfo)).
  assert (H1 : invoked (existing_closed websocket a w) = invoked w).
  { unfold existing_closed.
    destruct (connectionsByAuth w !! a) as [existing |]; [| reflexivity].
    destruct (negb (existing =? websocket)%nat); [| reflexivity].
    destruct (closeThrows (socket existing w)); calls_simpl; reflexivity. }
  assert (H2 : forall w0, invoked (grace_cleared a w0) = invoked w0).
  { intros w0. unfold grace_cleared.
    destruct (reconnectGraceTimers w0 !! a) as [timerId |]; [| reflexivity].
    destruct ((a =? default (-1)%Z (getCurrentAuthIndex w0))%Z
              && (0 <? size (messageQueues w0))%nat); calls_simpl; reflexivity. }
  calls_simpl. fold (invoked (grace_cleared a (existing_closed websocket a w))).
  now rewrite H2, H1.
Qed.

Lemma invoked_removed (websocket : WsId) (w : World) :
  invoked (removed websocket w) = invoked w.
Proof.
  unfold removed.
  destruct (_authIndex (socket websocket w)) as [a |]; [| calls_simpl; reflexivity].
  destruct (0 <=? a)%Z; [| calls_simpl; reflexivity].
  destruct (page_is_gone a w).
  - unfold reconnect_skipped. js_proj.
    destruct (reconnectGraceTimers w !! a); calls_simpl; reflexivity.
  - unfold grace_started. js_proj.
    destruct (reconnectGraceTimers w !! a); calls_simpl; reflexivity.
Qed.

Lemma invoked_closed_by_auth (a : Z) (w : World) :
  invoked (closed_by_auth a w) = invoked w.
Proof.
  unfold closed_by_auth.
  destruct (connectionsByAuth w !! a) as [connection |]; [| calls_simpl; reflexivity].
  destruct (closeThrows (socket connection w));
    destruct (reconnectGraceTimers w !! a); calls_simpl; reflexivity.
Qed.

Lemma invoked_routed (frame : Json) (q : QueueId) (w : World) :
  invoked (routed frame q w) = invoked w.
Proof.
  unfold invoked. rewrite routed_trace, invocations_app.
  unfold spec_warning.
  destruct (get_property frame "event_type"); [apply app_nil_r |].
  destruct (spec_delivery frame); apply app_nil_r.
Qed.

Lemma invoked_resumed (timeoutId : TimerId) (how : Settlement) (w : World) :
  invoked (resumed timeoutId how w) = invoked w.
Proof.
  destruct (awaiting w !! timeoutId) as [a |] eqn:Hawait;
    resumed_cases how; rewrite Hawait; calls_simpl; reflexivity.
Qed.

Lemma invoked_grace_expired (a : Z) (w : World) :
  invoked (grace_expired a w) = invoked w ++ (if attempts a w then [a] else []).
Proof.
  unfold grace_expired, attempts.
  assert (Hsettled : invoked (queues_settled a w) = invoked w).
  { unfold queues_settled.
    destruct (a =? default (-1)%Z (getCurrentAuthIndex w))%Z; calls_simpl; reflexivity. }
  destruct (queues_settled_same a w) as (_ & _ & Hflag & _ & _ & _ & _ & _ & Hcb & _).
  rewrite Hcb, Hflag.
  set (w2 := queues_settled a w) in *.
  destruct (onConnectionLostCallback w) as [callback |].
  - destruct (negb (default false (reconnectingAccounts w !! a))).
    + destruct (callback a) as [[| | message] |];
        unfold recovery_threw, recovery_suspended, recovery_called, marked_reconnecting,
          lost_finalized; cbn [message_of]; calls_simpl; fold (invoked w2);
        now rewrite Hsettled.
    + unfold lost_finalized. calls_simpl. fold (invoked w2). now rewrite Hsettled.
  - unfold lost_finalized. calls_simpl. fold (invoked w2). now rewrite Hsettled.
Qed.

(** The recovery callback is called only by a grace timer that fires, at
    most once per firing and for the account of the timer: when a callback
    was supplied and the account is not flagged as reconnecting.  No other
    task calls it: not a registration, a socket event, an intentional close,
    a lookup, a queue operation, the reconnect timeout, or the settling of an
    earlier call. *)
Theorem recovery_callback_is_called_only_at_expiry
    (JSON_parse : string -> option Json) (t : Task) (w : World) :
  invoked (exec (step JSON_parse t) w) = invoked w ++ calls_of t w.
Proof.
  unfold exec. destruct t; cbn [step calls_of]; rewrite ?app_nil_r.
  - rewrite addConnection_total. cbn [fst].
    destruct (is_undefined (authIndex clientInfo) || lt_zero (authIndex clientInfo)
              || negb (Number_isInteger (authIndex clientInfo))).
    + unfold rejected. calls_simpl. reflexivity.
    + apply invoked_connected.
  - destruct (ws_emit_total JSON_parse (fun w0 => invoked w0 = invoked w) websocket event payload w)
      as (w' & Hrun & Hsame); [| reflexivity | now rewrite Hrun].
    intros l w0 H0. destruct l as [| websocket0 |]; cbn [run_listener].
    + destruct (handleIncomingMessage_cases JSON_parse payload w0) as (w1 & Hrun & Hcase).
      exists w1. split; [exact Hrun |]. rewrite <- H0.
      destruct Hcase as [(level & line & ->) | (frame & r & q & _ & _ & _ & ->)].
      * calls_simpl. reflexivity.
      * apply invoked_routed.
    + rewrite removeConnection_eq. eexists. split; [reflexivity |].
      now rewrite invoked_removed.
    + eexists. split; [reflexivity |]. rewrite <- H0. calls_simpl. reflexivity.
  - rewrite closeConnectionByAuth_eq. apply invoked_closed_by_auth.
  - unfold bind, ret. rewrite getConnectionByAuth_eq. cbn [fst]. unfold looked_up.
    destruct (connectionsByAuth w !! authIndex0); calls_simpl; reflexivity.
  - reflexivity.
  - rewrite removeMessageQueue_eq. cbn [fst]. unfold queue_removed.
    destruct (messageQueues w !! requestId); reflexivity.
  - rewrite closeAllMessageQueues_eq. apply invocations_closed_all.
  - rewrite fire_eq. cbn [fst]. unfold fired.
    destruct (timers w !! id) as [[[a |] d] |]; cbn [task]; rewrite ?app_nil_r;
      [| | reflexivity].
    + apply (invoked_grace_expired a (set_timers (delete id) w)).
    + apply (invoked_resumed id _ (set_timers (delete id) w)).
  - rewrite graceTimerResume_eq. apply invoked_resumed.
  - unfold modify. cbn [fst]. destruct (getCurrentAuthIndex w); reflexivity.
  - unfold modify. cbn [fst]. destruct (browserManager w); reflexivity.
Qed.

(** * Numbering of authentication files *)

Lemma strip_prefix_app (p s : string) : SaveAuth.strip_prefix p (String.append p s) = Some s.
Proof.
  induction p as [| c p IH]; [reflexivity |].
  simpl. now rewrite Ascii.eqb_refl.
Qed.

Lemma length_app_string (s p : string) :
  String.length (String.append s p) = String.length s + String.length p.
Proof. induction s as [| c s IH]; simpl; [reflexivity | now rewrite IH]. Qed.

Lemma strip_suffix_app (p s : string) : SaveAuth.strip_suffix p (String.append s p) = Some s.
Proof.
  induction s as [| c s IH].
  - change (String.append EmptyString p) with p.
    destruct p; cbn [SaveAuth.strip_suffix]; now rewrite String.eqb_refl.
  - change (String.append (String c s) p) with (String c (String.append s p)).
    cbn [SaveAuth.strip_suffix].
    destruct (String.eqb_spec (String c (String.append s p)) p) as [Heq | _].
    + apply (f_equal String.length) in Heq. cbn [String.length] in Heq.
      rewrite length_app_string in Heq. lia.
    + now rewrite IH.
Qed.

Lemma printed_nonempty (n : N) :
  exists c rest, NilEmpty.string_of_uint (N.to_uint n) = String c rest.
Proof.
  destruct (N.to_uint n) as [| u | u | u | u | u | u | u | u | u | u] eqn:Hu;
    cbn [NilEmpty.string_of_uint]; eauto.
  pose proof (Unsigned.of_to n) as H. rewrite Hu in H. cbn in H. subst n. discriminate Hu.
Qed.

Lemma auth_digits_of_name (index : Z) :
  SaveAuth.auth_digits (SaveAuth.auth_file_name index)
  = Some (NilEmpty.string_of_uint (N.to_uint (Z.to_N index))).
Proof.
  unfold SaveAuth.auth_digits, SaveAuth.auth_file_name.
  rewrite strip_prefix_app, strip_suffix_app.
  unfold SaveAuth.all_digits. rewrite NilEmpty.usu.
  destruct (printed_nonempty (Z.to_N index)) as (c & rest & ->). reflexivity.
Qed.

Lemma parseInt_printed (index : Z) :
  (0 <= index)%Z ->
  SaveAuth.parseInt (NilEmpty.string_of_uint (N.to_uint (Z.to_N index))) = index.
Proof.
  intros H. unfold SaveAuth.parseInt. rewrite NilEmpty.usu, Unsigned.of_to. lia.
Qed.

Lemma fold_max_bounds (values : list Z) (start : Z) :
  (start <= fold_left Z.max values start)%Z
  /\ forall v, In v values -> (v <= fold_left Z.max values start)%Z.
Proof.
  revert start. induction values as [| x rest IH]; intros start; cbn [fold_left].
  - split; [lia | intros v []].
  - destruct (IH (Z.max start x)) as [H1 H2]. split; [lia |].
    intros v [<- | Hin]; [lia | now apply H2].
Qed.

Lemma Math_max_bounds (values : list Z) (v : Z) :
  In v values -> (v <= SaveAuth.Math_max values)%Z.
Proof.
  destruct values as [| first rest]; [intros [] |]. cbn [SaveAuth.Math_max].
  destruct (fold_max_bounds rest first) as [H1 H2].
  intros [<- | Hin]; [exact H1 | now apply H2].
Qed.

Lemma fold_max_in (values : list Z) (start : Z) :
  fold_left Z.max values start = start \/ In (fold_left Z.max values start) values.
Proof.
  revert start. induction values as [| x rest IH]; intros start; cbn [fold_left];
    [now left |].
  destruct (IH (Z.max start x)) as [H | H]; [| right; now right].
  rewrite H. destruct (Z.max_spec start x) as [[_ ->] | [_ ->]]; [right; now left | now left].
Qed.

Lemma Math_max_in (first : Z) (rest : list Z) :
  In (SaveAuth.Math_max (first :: rest)) (first :: rest).
Proof.
  cbn [SaveAuth.Math_max].
  destruct (fold_max_in rest first) as [-> | H]; [now left | now right].
Qed.

Lemma parseInt_nonneg (digits : string) : (0 <= SaveAuth.parseInt digits)%Z.
Proof. unfold SaveAuth.parseInt. destruct (NilEmpty.uint_of_string digits); lia. Qed.

(** [getNextAuthIndex] returns 0 when the directory does not exist or holds
    no file named [auth-<digits>.json], and otherwise one more than the
    largest index among such files: one more than the index of one of them,
    and above the index of each.  So the file name built from it is not among
    the names listed, the names being compared character by character as the
    pattern of the script does.  (Indices are taken to be below 2^53 - 1,
    where [parseInt] and the addition are exact.) *)
Theorem next_auth_index_is_unused (files : list string) :
  (forall file digits,
     In file files -> SaveAuth.auth_digits file = Some digits ->
     (SaveAuth.parseInt digits < 2 ^ 53 - 1)%Z) ->
  let index := SaveAuth.getNextAuthIndex (Some files) in
  (0 <= index)%Z
  /\ (forall file digits,
        In file files -> SaveAuth.auth_digits file = Some digits ->
        (SaveAuth.parseInt digits < index)%Z)
  /\ ((forall file, In file files -> SaveAuth.auth_digits file = None)
      \/ exists file digits,
           In file files
           /\ SaveAuth.auth_digits file = Some digits
           /\ index = (SaveAuth.parseInt digits + 1)%Z)
  /\ ~ In (SaveAuth.auth_file_name index) files
  /\ ((forall file, In file files -> SaveAuth.auth_digits file = None) -> index = 0%Z)
  /\ SaveAuth.getNextAuthIndex None = 0%Z.
Proof.
  intros _. cbv zeta.
  set (index := SaveAuth.getNextAuthIndex (Some files)).
  assert (Hfilter : forall file digits,
            In file files -> SaveAuth.auth_digits file = Some digits ->
            In file (List.filter SaveAuth.is_auth_file files)).
  { intros file digits Hin Hd. apply filter_In. split; [exact Hin |].
    unfold SaveAuth.is_auth_file. now rewrite Hd. }
  assert (Hnonneg : (0 <= index)%Z).
  { subst index. unfold SaveAuth.getNextAuthIndex.
    destruct (List.filter SaveAuth.is_auth_file files) as [| file rest]; [cbn; lia |].
    cbn [length Nat.eqb map].
    pose proof (Math_max_bounds
                  (SaveAuth.parseInt (default EmptyString (SaveAuth.auth_digits file))
                   :: map (fun f => SaveAuth.parseInt
                                      (default EmptyString (SaveAuth.auth_digits f))) rest)
                  _ (or_introl eq_refl)) as Hmax.
    pose proof (parseInt_nonneg (default EmptyString (SaveAuth.auth_digits file))). lia. }
  assert (Habove : forall file digits,
            In file files -> SaveAuth.auth_digits file = Some digits ->
            (SaveAuth.parseInt digits < index)%Z).
  { intros file digits Hin Hd. pose proof (Hfilter file digits Hin Hd) as Hauth.
    subst index. unfold SaveAuth.getNextAuthIndex.
    destruct (List.filter SaveAuth.is_auth_file files) as [| file0 rest] eqn:Hf;
      [destruct Hauth |].
    cbn [length Nat.eqb].
    assert (Hle : (SaveAuth.parseInt digits
                   <= SaveAuth.Math_max
                        (map (fun f => SaveAuth.parseInt
                                         (default EmptyString (SaveAuth.auth_digits f)))
                           (file0 :: rest)))%Z).
    { apply Math_max_bounds. apply in_map_iff. exists file. split; [| exact Hauth].
      now rewrite Hd. }
    lia. }
  split; [exact Hnonneg |]. split; [exact Habove |]. split; [| split; [| split]].
  - subst index. unfold SaveAuth.getNextAuthIndex.
    destruct (List.filter SaveAuth.is_auth_file files) as [| file0 rest] eqn:Hf.
    + left. intros file Hin.
      destruct (SaveAuth.auth_digits file) as [digits |] eqn:Hd; [| reflexivity].
      pose proof (Hfilter file digits Hin Hd) as Hauth. rewrite ?Hf in Hauth. destruct Hauth.
    + right. cbn [length Nat.eqb].
      pose proof (Math_max_in
                    (SaveAuth.parseInt (default EmptyString (SaveAuth.auth_digits file0)))
                    (map (fun f => SaveAuth.parseInt
                                     (default EmptyString (SaveAuth.auth_digits f))) rest))
        as Hmax.
      change (In (SaveAuth.Math_max
                    (map (fun f => SaveAuth.parseInt
                                     (default EmptyString (SaveAuth.auth_digits f)))
                       (file0 :: rest)))
                (map (fun f => SaveAuth.parseInt
                                 (default EmptyString (SaveAuth.auth_digits f)))
                   (file0 :: rest))) in Hmax.
      apply in_map_iff in Hmax as (file & Heq & Hin).
      rewrite <- Hf in Hin. apply filter_In in Hin as [Hin Hauth].
      unfold SaveAuth.is_auth_file in Hauth.
      destruct (SaveAuth.auth_digits file) as [digits |] eqn:Hd; [| discriminate].
      exists file, digits. split; [exact Hin |]. split; [exact Hd |].
      cbn [default id] in Heq. rewrite <- Heq. reflexivity.
  - intros Hin.
    pose proof (Habove _ _ Hin (auth_digits_of_name index)) as Hlt.
    rewrite parseInt_printed in Hlt by exact Hnonneg. lia.
  - intros Hnone. subst index. unfold SaveAuth.getNextAuthIndex.
    destruct (List.filter SaveAuth.is_auth_file files) as [| file rest] eqn:Hf; [reflexivity |].
    assert (Hin : In file (List.filter SaveAuth.is_auth_file files)) by (rewrite Hf; now left).
    apply filter_In in Hin as [Hin Hauth].
    unfold SaveAuth.is_auth_file in Hauth. rewrite (Hnone file Hin) in Hauth. discriminate.
  - reflexivity.
Qed.

(** * The further properties at concrete inputs *)

Lemma stale_teardown_witness :
  connectionsByAuth reregistered_world !! 0%Z = Some 2
  /\ connectionsByAuth (removed 1 reregistered_world) !! 0%Z = None
  /\ socket 2 (removed 1 reregistered_world) = socket 2 reregistered_world.
Proof.
  split; [reflexivity |].
  destruct (stale_teardown_unregisters_the_newer_socket 1 2 0%Z reregistered_world)
    as (_ & Hgone & Hsame & _).
  - reflexivity.
  - lia.
  - reflexivity.
  - lia.
  - split; [exact Hgone | exact Hsame].
Defined.

Lemma teardown_with_page_gone_witness :
  let w := run no_parser [Accept 1 (client 0)] managed_registry in
  page_is_gone 0 w = true
  /\ reconnectGraceTimers (removed 1 w) !! 0%Z = None
  /\ nextTimerId (removed 1 w) = nextTimerId w.
Proof.
  cbv zeta. split; [reflexivity |].
  destruct (teardown_with_page_gone_starts_no_grace_period 1 0%Z
              (run no_parser [Accept 1 (client 0)] managed_registry))
    as (_ & _ & Hentry & _ & Hnext & _).
  - reflexivity.
  - lia.
  - reflexivity.
  - split; [exact Hentry | exact Hnext].
Defined.


Lemma isInGracePeriod_follows_witness :
  _authIndex (socket 1 connected_world) = Some 0%Z
  /\ _authIndex (socket 2 disconnected_world) = None
  /\ isInGracePeriod connected_world = false
  /\ isInGracePeriod (exec (_removeConnection 1) connected_world) = true
  /\ isInGracePeriod (exec (addConnection 2 (client 0)) disconnected_world) = false.
Proof.
  split; [reflexivity |]. split; [reflexivity |]. split; [reflexivity |].
  split.
  - destruct (isInGracePeriod_follows_the_current_account 1 (client 0) connected_world)
      as (_ & Hlost & _).
    apply (Hlost 0%Z); [reflexivity | lia].
  - destruct (isInGracePeriod_follows_the_current_account 2 (client 0) disconnected_world)
      as (_ & _ & _ & Hback & _).
    apply Hback. reflexivity.
Defined.

Lemma isInGracePeriod_lasts_witness :
  isInGracePeriod disconnected_world = true
  /\ isInGracePeriod (exec (fire 0) disconnected_world) = true
  /\ isInGracePeriod
       (exec (graceTimerResume 1 Resolved) (exec (fire 0) disconnected_world)) = false
  /\ isInGracePeriod
       (exec (graceTimerResume 1 (Rejected Undefined)) (exec (fire 0) disconnected_world))
     = true.
Proof.
  split; [reflexivity |].
  pose proof (isInGracePeriod_lasts_until_the_grace_callback_ends
                0 0%Z 5000%Z disconnected_world eq_refl) as H.
  change (suspends 0 disconnected_world) with true in H.
  destruct H as [Hfire Hresume].
  split; [exact Hfire |].
  split; [exact (Hresume Resolved) | exact (Hresume (Rejected Undefined))].
Defined.

Lemma pending_timers_witness :
  let w := run no_parser [Accept 1 (client 0); SocketEmits 1 EvClose ""; TimerFires 0]
             fresh_registry in
  reachable no_parser w
  /\ awaiting w !! 1 = Some 0%Z
  /\ timers w !! 1 = Some (mkTimer ReconnectTimeout 55000)
  /\ reconnectingAccounts w !! 0%Z = Some true.
Proof.
  cbv zeta.
  assert (Hreach : reachable no_parser
            (run no_parser [Accept 1 (client 0); SocketEmits 1 EvClose ""; TimerFires 0]
               fresh_registry))
    by (apply run_reachable; constructor).
  split; [exact Hreach |]. split; [reflexivity |].
  destruct (pending_timers_are_accounted_for no_parser _ Hreach) as (_ & Hawait & _).
  exact (Hawait 1 0%Z eq_refl).
Defined.

Lemma isReconnectingInProgress_witness :
  reachable no_parser disconnected_world
  /\ isReconnectingInProgress disconnected_world = false
  /\ forall timeoutId a, awaiting disconnected_world !! timeoutId <> Some a.
Proof.
  assert (Hreach : reachable no_parser disconnected_world)
    by (apply run_reachable; constructor).
  split; [exact Hreach |]. split; [reflexivity |].
  destruct (isReconnectingInProgress_while_a_callback_is_suspended
              no_parser disconnected_world Hreach) as [[_ Hback] _].
  intros timeoutId a Hawait.
  assert (Htrue : isReconnectingInProgress disconnected_world = true) by eauto.
  discriminate Htrue.
Defined.

Lemma connection_and_grace_entry_witness :
  reachable no_parser connected_world
  /\ connectionsByAuth connected_world !! 0%Z = Some 1
  /\ reconnectGraceTimers connected_world !! 0%Z = None
  /\ timers (exec (closeConnectionByAuth 0) connected_world) = timers connected_world.
Proof.
  assert (Hreach : reachable no_parser connected_world)
    by (apply run_reachable; constructor).
  split; [exact Hreach |]. split; [reflexivity |].
  destruct (connection_and_grace_entry_never_coexist no_parser connected_world Hreach)
    as (Hnever & Hclose & _).
  split; [exact (Hnever 0%Z 1 eq_refl) | exact (proj1 (Hclose 0%Z))].
Defined.

Lemma accounts_are_independent_witness :
  reachable no_parser disconnected_world
  /\ reconnectGraceTimers disconnected_world !! 0%Z = Some 0
  /\ untouched 0 (core disconnected_world)
       (core (exec (addConnection 2 (client 1)) disconnected_world)).
Proof.
  assert (Hreach : reachable no_parser disconnected_world)
    by (apply run_reachable; constructor).
  split; [exact Hreach |]. split; [reflexivity |].
  destruct (accounts_are_independent no_parser 0%Z disconnected_world Hreach) as (Hadd & _).
  apply Hadd. discriminate.
Defined.

Lemma listeners_witness :
  let w := run no_parser [Accept 1 (client 0); Accept 1 (client 0)] fresh_registry in
  reachable no_parser w
  /\ exists k,
       listeners (socket 1 w) = concat (repeat (handlers 1) k)
       /\ ws_emit no_parser 1 EvClose "" w = times k (_removeConnection 1) w.
Proof.
  cbv zeta.
  assert (Hreach : reachable no_parser
            (run no_parser [Accept 1 (client 0); Accept 1 (client 0)] fresh_registry))
    by (apply run_reachable; constructor).
  split; [exact Hreach |].
  destruct (listeners_are_whole_registrations no_parser 1 _ Hreach)
    as [(k & Hk & Hclose & _) _].
  exists k. split; [exact Hk | exact (Hclose "")].
Defined.

Lemma repeated_teardown_witness :
  _authIndex (socket 1 connected_world) = Some 0%Z
  /\ page_is_gone 0 connected_world = false
  /\ exists w',
       times 2 (_removeConnection 1) connected_world = (w', Normal tt)
       /\ reconnectGraceTimers w' = <[0%Z := 1]> (reconnectGraceTimers connected_world)
       /\ nextTimerId w' = 2.
Proof.
  split; [reflexivity |]. split; [reflexivity |].
  destruct (repeated_teardown_leaves_one_grace_timer 1 0%Z 1 connected_world)
    as (w' & Hrun & _ & Hentry & Hnext & _).
  - reflexivity.
  - lia.
  - reflexivity.
  - exists w'. split; [exact Hrun |]. split; [exact Hentry | exact Hnext].
Defined.

Lemma intentional_close_witness :
  connectionsByAuth connected_world !! 0%Z = Some 1
  /\ isInGracePeriod
       (exec (_removeConnection 1) (exec (closeConnectionByAuth 0) connected_world)) = true.
Proof.
  split; [reflexivity |].
  destruct (intentional_close_is_followed_by_a_grace_period 0%Z 1 connected_world)
    as (_ & _ & _ & _ & Hgrace).
  - reflexivity.
  - reflexivity.
  - lia.
  - reflexivity.
  - apply Hgrace. reflexivity.
Defined.

Lemma request_queues_witness :
  let w := run demo_parser [CreateQueue "r1"; CreateQueue "r2"] fresh_registry in
  reachable demo_parser w
  /\ messageQueues w !! "r2" = Some 1
  /\ queue 1 (exec (_handleIncomingMessage demo_parser "chunk") w) = queue 1 w.
Proof.
  cbv zeta.
  assert (Hreach : reachable demo_parser
            (run demo_parser [CreateQueue "r1"; CreateQueue "r2"] fresh_registry))
    by (apply run_reachable; constructor).
  split; [exact Hreach |]. split; [reflexivity |].
  destruct (request_queues_are_private demo_parser _ Hreach) as (_ & _ & Hother).
  apply (Hother "chunk" (frame_of "chunk") "r1" "r2" 1);
    [reflexivity | reflexivity | discriminate | reflexivity].
Defined.

Lemma resolveContextOptions_witness :
  BrowserManager.scaled_draw (Qmake 1 4)
  /\ BrowserManager.scaled_draw (Qmake 99 2)
  /\ BrowserManager.usable_viewport
       (BrowserManager.viewport
          (snd (BrowserManager._resolveContextOptions JNull (Qmake 1 4) (Qmake 99 2)))).
Proof.
  assert (H1 : BrowserManager.scaled_draw (Qmake 1 4))
    by (unfold BrowserManager.scaled_draw; simpl; lia).
  assert (H2 : BrowserManager.scaled_draw (Qmake 99 2))
    by (unfold BrowserManager.scaled_draw; simpl; lia).
  split; [exact H1 |]. split; [exact H2 |].
  destruct (resolveContextOptions_viewport_is_usable JNull (Qmake 1 4) (Qmake 99 2) H1 H2)
    as (_ & Husable & _).
  exact Husable.
Defined.

Lemma next_auth_index_witness :
  SaveAuth.getNextAuthIndex (Some ["auth-0.json"; "auth-007.json"; "notes.txt"]%string) = 8%Z
  /\ ~ In (SaveAuth.auth_file_name 8) ["auth-0.json"; "auth-007.json"; "notes.txt"]%string.
Proof.
  split; [reflexivity |].
  destruct (next_auth_index_is_unused ["auth-0.json"; "auth-007.json"; "notes.txt"]%string)
    as (_ & _ & _ & Hunused & _).
  - intros file digits [<- | [<- | [<- | []]]] [= <-]; vm_compute; reflexivity.
  - exact Hunused.
Defined.

Lemma replaced_socket_witness :
  connectionsByAuth connected_world !! 0%Z = Some 1
  /\ ws_emit no_parser 1 EvClose "" (exec (addConnection 2 (client 0)) connected_world)
     = (exec (addConnection 2 (client 0)) connected_world, Normal tt)
  /\ ws_emit no_parser 1 EvError "reset" (exec (addConnection 2 (client 0)) connected_world)
     = (exec (addConnection 2 (client 0)) connected_world, Thrown (Error "reset")).
Proof.
  split; [reflexivity |].
  destruct (replaced_socket_is_no_longer_heard no_parser 2 1 (client 0) connected_world)
    as (_ & _ & Hclose & _ & Herror).
  - reflexivity.
  - reflexivity.
  - lia.
  - split; [exact (Hclose "") | exact (Herror "reset")].
Defined.


Lemma getConnectionByAuth_witness :
  reachable no_parser three_accounts
  /\ connectionsByAuth three_accounts !! 5%Z = None
  /\ connectionKeys three_accounts = [1; 0; 2]%Z
  /\ getConnectionByAuth 5 three_accounts
     = (add_effect (Logged LDebug (NoConnectionFound 5 [1; 0; 2]%Z)) three_accounts,
        Normal None)
  /\ connectionKeys (exec (addConnection 4 (client 0)) three_accounts) = [1; 0; 2]%Z
  /\ connectionKeys (exec (closeConnectionByAuth 0) three_accounts) = [1; 2]%Z.
Proof.
  assert (Hreach : reachable no_parser three_accounts)
    by (apply run_reachable; constructor).
  split; [exact Hreach |]. split; [reflexivity |]. split; [reflexivity |].
  destruct (getConnectionByAuth_returns_the_registered_socket
              no_parser 5%Z 4 (client 0) three_accounts Hreach)
    as ((line & Hlookup & _ & Hline) & _ & _ & Hadd & _).
  split; [rewrite Hlookup, (Hline eq_refl); reflexivity |].
  split; [exact (Hadd eq_refl) |].
  destruct (getConnectionByAuth_returns_the_registered_socket
              no_parser 0%Z 4 (client 0) three_accounts Hreach)
    as (_ & _ & _ & _ & Hclose & _).
  exact Hclose.
Defined.
